(** * sukd: the stable upstream kernel downloader

    A shallow embedding of [sukd.py]: the CHECKSUMS manifest parser, the
    flavor derivation, the download loop, the post-download check, the
    installation loop and the top-level [try]/[except]/[finally] of [main],
    with the properties of each established against the embedding; then
    the test for a release without packages, the two prompts as functions
    of the lines typed, the check of the internet connection with the loop
    of [main] around it, and the calls of the progress spinner.

    Text is modelled as Python 3 has it: a [str] is a sequence of Unicode
    code points, and [strlen_unicode] measures the UTF-8 encoding. The
    world outside the script (the downloader, the digest tool, dpkg and
    its lock, the user at the prompts) is a record of answers; a run is
    the list of its effects together with the value it returns or the
    exception that leaves it. *)

From Stdlib Require Import String Ascii.
From Stdlib Require Import List NArith ZArith Bool Arith Lia.
From Stdlib Require Import Permutation Sorted.
Import ListNotations.

(** ** Python text *)

Module Py.

(** A character is a code point; a [str] is the list of its code points. *)
Definition pychar := N.
Definition pystr := list pychar.

(** The literal strings of the script are ASCII. *)
Definition lit (s : string) : pystr :=
  map N_of_ascii (list_ascii_of_string s).
Arguments lit s%_string.

Definition chr (a : ascii) : pychar := N_of_ascii a.
Arguments chr a%_char.

Fixpoint str_eqb (a b : pystr) : bool :=
  match a, b with
  | [], [] => true
  | x :: a', y :: b' => N.eqb x y && str_eqb a' b'
  | _, _ => false
  end.

(** [x in l] for a list [l] of strings. *)
Definition list_contains (x : pystr) (l : list pystr) : bool :=
  existsb (str_eqb x) l.

(** [s.encode('utf-8')] has one to four bytes per code point. (Text
    that was decoded from UTF-8 holds no surrogate, which could not be
    encoded.) *)
Definition utf8_width (c : pychar) : nat :=
  if (c <? 128)%N then 1
  else if (c <? 2048)%N then 2
  else if (c <? 65536)%N then 3
  else 4.

(** [str.isspace] on one character: the white space of [str.strip] and
    [str.split] without argument. *)
Definition is_space (c : pychar) : bool :=
  ((9 <=? c) && (c <=? 13))%N || ((28 <=? c) && (c <=? 32))%N
  || (c =? 133)%N || (c =? 160)%N || (c =? 5760)%N
  || ((8192 <=? c) && (c <=? 8202))%N
  || (c =? 8232)%N || (c =? 8233)%N || (c =? 8239)%N || (c =? 8287)%N
  || (c =? 12288)%N.

Fixpoint lstrip (s : pystr) : pystr :=
  match s with
  | [] => []
  | c :: s' => if is_space c then lstrip s' else s
  end.

Fixpoint rstrip (s : pystr) : pystr :=
  match s with
  | [] => []
  | c :: s' =>
      match rstrip s' with
      | [] => if is_space c then [] else [c]
      | r => c :: r
      end
  end.

(** [s.strip()] *)
Definition strip (s : pystr) : pystr := rstrip (lstrip s).

(** [s.split()]: the maximal runs of characters that are not white space.
    [tokens s] is the run that [s] starts with (empty when [s] starts with
    white space) and the runs after it. *)
Definition push (cur : pystr) (done : list pystr) : list pystr :=
  match cur with [] => done | _ => cur :: done end.

Fixpoint tokens (s : pystr) : pystr * list pystr :=
  match s with
  | [] => ([], [])
  | c :: s' =>
      let (cur, done) := tokens s' in
      if is_space c then ([], push cur done) else (c :: cur, done)
  end.

Definition split_ws (s : pystr) : list pystr :=
  let (cur, done) := tokens s in push cur done.

(** [s.split(sep)] for a separator of one character: every occurrence
    splits, empty pieces are kept, the result is never empty. *)
Fixpoint split_char (sep : pychar) (s : pystr) : list pystr :=
  match s with
  | [] => [[]]
  | c :: s' =>
      if (c =? sep)%N then [] :: split_char sep s'
      else match split_char sep s' with
           | t :: ts => (c :: t) :: ts
           | [] => [[c]]
           end
  end.

Fixpoint startswith (s pre : pystr) {struct pre} : bool :=
  match pre, s with
  | [], _ => true
  | p :: pre', c :: s' => N.eqb c p && startswith s' pre'
  | _ :: _, [] => false
  end.

(** [s.endswith(suf)] *)
Definition endswith (s suf : pystr) : bool :=
  (length suf <=? length s) && str_eqb (skipn (length s - length suf) s) suf.

(** [s.find(sub)]: the lowest index where [sub] occurs. *)
Fixpoint find (sub s : pystr) : option nat :=
  if startswith s sub then Some 0
  else match s with
       | [] => None
       | _ :: s' => option_map S (find sub s')
       end.

(** [sub in s] *)
Definition contains (sub s : pystr) : bool :=
  match find sub s with Some _ => true | None => false end.

(** Iterating an [io.StringIO]: the lines, each with its terminating
    newline; a last line without one is yielded when it is not empty. *)
Fixpoint readlines (s : pystr) : list pystr :=
  match s with
  | [] => []
  | c :: s' =>
      if (c =? 10)%N then [c] :: readlines s'
      else match readlines s' with
           | l :: ls => (c :: l) :: ls
           | [] => [[c]]
           end
  end.

(** Case folding of the characters the pattern [.deb] can match: under
    [re.IGNORECASE] the letters d, e and b match themselves and their
    capitals and nothing else. *)
Definition lower_ascii (c : pychar) : pychar :=
  if ((65 <=? c) && (c <=? 90))%N then (c + 32)%N else c.

(** [os.path.basename]: what follows the last [/]. *)
Fixpoint basename (p : pystr) : pystr :=
  match p with
  | [] => []
  | c :: p' =>
      if existsb (N.eqb 47) p' then basename p'
      else if (c =? 47)%N then p' else p
  end.

End Py.
Import Py.

(** ** Exceptions and the trace of a run *)

Inductive exn : Type :=
| SystemExit (code : Z)
| KeyboardInterrupt
| WebFileDownloadError
| IndexError
| ValueError
| AttributeError
| TypeError.

Inductive result (A : Type) : Type :=
| Ok (a : A)
| Raise (e : exn).
Arguments Ok {A} a.
Arguments Raise {A} e.

Definition rbind {A B} (r : result A) (f : A -> result B) : result B :=
  match r with
  | Ok a => f a
  | Raise e => Raise e
  end.

Declare Scope py_scope.
Delimit Scope py_scope with py.
Notation "x <- r ;; k" := (rbind r (fun x => k))
  (at level 61, r at next level, right associativity) : py_scope.

(** [l[i]] *)
Definition getitem {A} (l : list A) (i : nat) : result A :=
  match nth_error l i with
  | Some a => Ok a
  | None => Raise IndexError
  end.

(** ** The script's helpers *)

(** [strlen_unicode(s)]: [len(s.encode('utf-8'))]. *)
Definition strlen_unicode (s : pystr) : nat :=
  list_sum (map utf8_width s).

(** [re.search(r".*\.deb$", s, re.IGNORECASE | re.UNICODE) is not None]:
    [s] ends with [.deb] in any case, or with that and one newline. *)
Definition re_search_deb (s : pystr) : bool :=
  let low := map lower_ascii s in
  endswith low (lit ".deb") || endswith low (lit ".deb" ++ [10%N]).

(** [find_position_of_nth_string_occurence(targetstr, char, nthpos)] *)
Fixpoint find_nth_loop (s : pystr) (char : pychar) (nthpos : nat)
    (index count : nat) : nat :=
  match s with
  | [] => 0
  | c :: s' =>
      if (c =? char)%N then
        if S count =? nthpos then index
        else find_nth_loop s' char nthpos (S index) (S count)
      else find_nth_loop s' char nthpos (S index) count
  end.

Definition find_position_of_nth_string_occurence
    (targetstr : pystr) (char : pychar) (nthpos : nat) : nat :=
  if strlen_unicode targetstr =? 0 then 0
  else find_nth_loop targetstr char nthpos 0 0.

(** [get_string_index(string, index)]: [str.index], which raises
    [ValueError] when the substring does not occur. *)
Definition get_string_index (s sub : pystr) : result nat :=
  match find sub s with
  | Some i => Ok i
  | None => Raise ValueError
  end.

(** ** The manifest parser (main, the loop over [checksums_stream]) *)

(** [kernel_hashes_and_files]: a dict, iterated in insertion order as
    Python 3.7 and later do (Python 2 leaves the order open). Assigning
    to a key that is present replaces its value in place. *)
Definition dict := list (pystr * pystr).

Fixpoint dict_set (d : dict) (k v : pystr) : dict :=
  match d with
  | [] => [(k, v)]
  | (k', v') :: d' =>
      if str_eqb k' k then (k', v) :: d' else (k', v') :: dict_set d' k v
  end.

Definition CHECKSUMS_FILE : pystr := lit "CHECKSUMS".

(** The globals the parser writes: the index and the architectures. *)
Definition parsed : Type := (dict * list pystr)%type.

Local Open Scope py_scope.

(** One turn of the loop. *)
Definition parse_line (st : parsed) (read_line : pystr) : result parsed :=
  let '(kernel_hashes_and_files, kernel_available_architectures) := st in
  let read_line := strip read_line in
  if re_search_deb read_line then
    let kernel_hash_and_file := split_ws read_line in
    h <- getitem kernel_hash_and_file 0 ;;
    if strlen_unicode h =? 40 then
      f <- getitem kernel_hash_and_file 1 ;;
      let kernel_hashes_and_files := dict_set kernel_hashes_and_files h f in
      seg <- getitem (split_char (chr "_") f) 2 ;;
      kernel_arch <- getitem (split_char (chr ".") seg) 0 ;;
      if negb (list_contains kernel_arch kernel_available_architectures)
         && negb (str_eqb kernel_arch (lit "all"))
      then Ok (kernel_hashes_and_files,
               kernel_available_architectures ++ [kernel_arch])
      else Ok (kernel_hashes_and_files, kernel_available_architectures)
    else Ok st
  else Ok st.

Fixpoint parse_lines (st : parsed) (lines : list pystr) : result parsed :=
  match lines with
  | [] => Ok st
  | l :: ls => st' <- parse_line st l ;; parse_lines st' ls
  end.

(** The index survives from one download round to the next, the list of
    architectures is emptied ([del kernel_available_architectures[:]]). *)
Definition parse_manifest (index0 : dict) (text : pystr) : result parsed :=
  parse_lines (index0, []) (readlines text).

(** ** The flavors of one architecture (main, the loop over the index) *)

(** The flavor starts after the fourth [-] and ends before the next [_]. *)
Definition extract_flavor (kernel_file : pystr) : result pystr :=
  let startpos_kernel_flavor :=
    find_position_of_nth_string_occurence kernel_file (chr "-") 4 + 1 in
  let flavor := skipn startpos_kernel_flavor kernel_file in
  i <- get_string_index flavor (lit "_") ;;
  Ok (firstn i flavor).

(** The test that admits a file of the index to the derivation. *)
Definition flavor_candidate (kernel_selected_target_arch kernel_file : pystr)
    : bool :=
  negb (contains (lit "_all.deb") kernel_file)
  && contains kernel_selected_target_arch kernel_file.

Definition flavor_step (kernel_selected_target_arch : pystr)
    (kernel_available_flavors : list pystr) (item : pystr * pystr)
    : result (list pystr) :=
  let kernel_file := snd item in
  if flavor_candidate kernel_selected_target_arch kernel_file then
    flavor <- extract_flavor kernel_file ;;
    if negb (list_contains flavor kernel_available_flavors)
    then Ok (kernel_available_flavors ++ [flavor])
    else Ok kernel_available_flavors
  else Ok kernel_available_flavors.

Fixpoint flavor_loop (arch : pystr) (flavors : list pystr) (items : dict)
    : result (list pystr) :=
  match items with
  | [] => Ok flavors
  | it :: rest => fl <- flavor_step arch flavors it ;; flavor_loop arch fl rest
  end.

(** [del kernel_available_flavors[:]], then the loop. *)
Definition derive_flavors (index : dict) (arch : pystr) : result (list pystr) :=
  flavor_loop arch [] index.

(** ** Which files are fetched (main, the test of the download loop) *)

Definition selected (kernel_selected_target_arch kernel_selected_target_flavor
    kernel_deb_file : pystr) : bool :=
  endswith kernel_deb_file (lit "_all.deb")
  || (endswith kernel_deb_file
        (lit "_" ++ kernel_selected_target_arch ++ lit ".deb")
      && contains (lit "-" ++ kernel_selected_target_flavor ++ lit "_")
           kernel_deb_file).

Definition selected_files (index : dict) (arch flavor : pystr) : list pystr :=
  filter (selected arch flavor) (map snd index).

(** ** Runs: what a run does and how it ends *)

(** The messages of the script that the properties below speak of. *)
Inductive message : Type :=
| MsgSuccess                 (* SUCCESS_STRING *)
| MsgFailed                  (* FAILED_STRING *)
| MsgFileValid               (* OK. File is valid. *)
| MsgFileCorrupted           (* WARNING! File is possibly corrupted. *)
| MsgDownloadedHeader        (* [Successfully downloaded files]: *)
| MsgNoKernelFiles           (* No kernel archive files have been successfully downloaded. *)
| MsgDownloadedFile (name : pystr)
| MsgInstallOffer            (* You are running as root. Would you like to install ... *)
| MsgInstallOrder (name : pystr)
| MsgLockHeld                (* Another installer is holding an exclusive lock ... *)
| MsgInstalling (name : pystr)
| MsgInstallErrors (last_error_code : Z)
| MsgRebootOffer             (* Would you like to reboot your system into the new kernel? *)
| MsgAbortSelected           (* Abort script selected. Terminating script. *)
| MsgWebFileError            (* Web file access error: ... Exiting script. *)
| MsgManuallyAborted         (* Script manually aborted. Good Bye! *)
| MsgOperationFailed.        (* ERROR: Operation failed! Reason: ... *)

(** What a run does to the world, in order. *)
Inductive event : Type :=
| Print (m : message)
| Ask                                   (* request_user_yes_no_abort_script *)
| Download (fromurl tofile : pystr)     (* download_file *)
| Sha1sum (path : pystr)                (* the digest tool *)
| ProbeLock                             (* is_file_locked(DPKG_LOCK_FILE) *)
| Dpkg (arg : pystr)                    (* the package-install tool *)
| Reboot
| StopSpinner.                          (* stop_progress_spinner *)

(** A run: the events so far, and a value or the exception in flight. *)
Definition M (A : Type) : Type := (list event * result A)%type.

Definition ret {A} (a : A) : M A := ([], Ok a).
Definition raise {A} (e : exn) : M A := ([], Raise e).
Definition emit (ev : event) : M unit := ([ev], Ok tt).

Definition bind {A B} (m : M A) (f : A -> M B) : M B :=
  match m with
  | (t, Ok a) => let (t', r) := f a in (t ++ t', r)
  | (t, Raise e) => (t, Raise e)
  end.

Definition lift {A} (r : result A) : M A := ([], r).

Declare Scope run_scope.
Delimit Scope run_scope with run.
Notation "x <- m ;; k" := (bind m (fun x => k))
  (at level 61, m at next level, right associativity) : run_scope.
Notation "m ;; k" := (bind m (fun _ => k))
  (at level 61, right associativity) : run_scope.

Definition trace {A} (m : M A) : list event := fst m.
Definition outcome {A} (m : M A) : result A := snd m.

(** [try: body except ...: handler]. [handler e] is [None] when no
    [except] clause matches [e]. *)
Definition try_except {A} (body : M A) (handler : exn -> option (M A)) : M A :=
  match body with
  | (t, Raise e) =>
      match handler e with
      | Some h => let (t', r) := h in (t ++ t', r)
      | None => body
      end
  | _ => body
  end.

(** [try: body finally: fin]. An exception that leaves [fin] replaces
    whatever was in flight when [fin] was entered. *)
Definition try_finally {A} (body : M A) (fin : M unit) : M A :=
  let (t, r) := body in
  match fin with
  | (t', Ok _) => (t ++ t', r)
  | (t', Raise e') => (t ++ t', Raise e')
  end.

(** The exit status of the process: the code of a [SystemExit] that
    leaves [main], 0 when [main] returns, and not 0 (here 1) when another
    exception leaves it. *)
Definition exit_status {A} (m : M A) : Z :=
  match outcome m with
  | Ok _ => 0
  | Raise (SystemExit n) => n
  | Raise _ => 1
  end.

(** [exit_script(n)]: [sys.exit(n)]. *)
Definition exit_script {A} (n : Z) : M A := raise (SystemExit n).

Definition stop_progress_spinner : M unit := emit StopSpinner.

Definition YES_PRESSED : nat := 1.
Definition NO_PRESSED : nat := 2.
Definition CANCEL_PRESSED : nat := 0.
Definition ABORT_PRESSED : nat := CANCEL_PRESSED.

(** What the user ends up answering at a prompt. *)
Inductive decision : Type := Yes | No | Abort.

Local Open Scope run_scope.

(** [request_user_yes_no_abort_script()]. The prompt is repeated until a
    line is valid; [d] is what that line says. An abort leaves through
    [exit_script(1)], so the function returns [YES_PRESSED] or
    [NO_PRESSED] only. *)
Definition request_user_yes_no_abort_script (d : decision) : M nat :=
  emit Ask ;;
  match d with
  | Abort => emit (Print MsgAbortSelected) ;; exit_script 1
  | Yes => ret YES_PRESSED
  | No => ret NO_PRESSED
  end.

(** ** The world outside the script *)

(** What the script observes of its platform and of the tools it runs. *)
Record env : Type := {
  (** [IS_PYTHON3] *)
  IS_PYTHON3 : bool;
  (** [downloader_bin_full_path_and_param is None]: neither wget nor curl
      was found, the built-in downloader is used. *)
  builtin_downloader : bool;
  (** [download_file(fromurl, tofile)]: did the download succeed *)
  download_file : pystr -> pystr -> bool;
  (** [os.path.getsize], [None] when it raises *)
  getsize : pystr -> option N;
  (** [execute_process_wait_get_output([SHA1SUM_BIN_FILE, path])]: the
      first word that the digest tool prints, [None] when it prints none
      or cannot be run *)
  sha1sum_output : pystr -> option pystr;
  (** [str.lower] *)
  str_lower : pystr -> pystr;
  (** [shlex.quote] *)
  quote : pystr -> pystr;
  (** [os.geteuid()] *)
  geteuid : Z
}.

(** One probe of the dpkg lock: free, or held, with what the user then
    answers to the prompt. *)
Inductive lock_event : Type :=
| Free
| Held (d : decision).

(** What the user answers and what the installation meets. The probes
    and the return codes are consumed in order; past the end of the list
    the lock is free and dpkg returns 0. *)
Record user : Type := {
  install_answer : decision;
  reboot_answer : decision;
  lock_events : list lock_event;
  dpkg_codes : list Z
}.

Definition sep : pystr := lit "/".

Definition LATEST_UPSTREAM_KERNELS_ARCHIVE_URL : pystr :=
  lit "http://kernel.ubuntu.com/~kernel-ppa/mainline".

(** [get_file_size(filename)]. The handler reads [err.message], which an
    exception of Python 3 does not have. *)
Definition get_file_size (E : env) (filename : pystr) : M (option N) :=
  match getsize E filename with
  | Some n => ret (Some n)
  | None => if IS_PYTHON3 E then raise AttributeError else ret None
  end.

(** ** The download loop (main) *)

Definition report_download (E : env) (ok : bool) : M unit :=
  if builtin_downloader E then
    stop_progress_spinner ;; emit (Print (if ok then MsgSuccess else MsgFailed))
  else ret tt.

(** The CHECKSUMS file comes first; the list of downloaded files is
    emptied before ([del user_downloaded_kernel_deb_files[:]]). *)
Definition fetch_checksums (E : env)
    (latest_stable_kernel_version_directory_string full_download_location
       : pystr) : M (list pystr) :=
  let tofile := full_download_location ++ sep ++ CHECKSUMS_FILE in
  let fromurl :=
    LATEST_UPSTREAM_KERNELS_ARCHIVE_URL ++ sep
    ++ latest_stable_kernel_version_directory_string ++ sep
    ++ CHECKSUMS_FILE in
  emit (Download fromurl tofile) ;;
  let ok := download_file E fromurl tofile in
  report_download E ok ;;
  _ <- get_file_size E tofile ;;
  ret (if ok then [tofile] else []).

(** One selected file: download, size, digest, verdict. *)
Definition fetch_file (E : env)
    (latest_stable_kernel_version_directory_string full_download_location
       : pystr)
    (user_downloaded_kernel_deb_files : list pystr)
    (kernel_hash_key kernel_deb_file : pystr) : M (list pystr) :=
  let destination_full_path :=
    full_download_location ++ sep ++ kernel_deb_file in
  let source_full_url :=
    LATEST_UPSTREAM_KERNELS_ARCHIVE_URL ++ sep
    ++ latest_stable_kernel_version_directory_string ++ sep
    ++ kernel_deb_file in
  emit (Download source_full_url destination_full_path) ;;
  let ok := download_file E source_full_url destination_full_path in
  let user_downloaded_kernel_deb_files :=
    if ok then user_downloaded_kernel_deb_files ++ [destination_full_path]
    else user_downloaded_kernel_deb_files in
  report_download E ok ;;
  _ <- get_file_size E destination_full_path ;;
  emit (Sha1sum destination_full_path) ;;
  stop_progress_spinner ;;
  match sha1sum_output E destination_full_path with
  | None =>
      (* local_sha1_checksum.lower() with local_sha1_checksum None *)
      raise AttributeError
  | Some local_sha1_checksum =>
      emit (Print (if str_eqb (str_lower E local_sha1_checksum)
                              (str_lower E kernel_hash_key)
                   then MsgFileValid else MsgFileCorrupted)) ;;
      ret user_downloaded_kernel_deb_files
  end.

Fixpoint fetch_loop (E : env) (version_dir full_download_location : pystr)
    (arch flavor : pystr) (items : dict) (downloaded : list pystr)
    : M (list pystr) :=
  match items with
  | [] => ret downloaded
  | (kernel_hash_key, kernel_deb_file) :: rest =>
      if selected arch flavor kernel_deb_file then
        downloaded' <- fetch_file E version_dir full_download_location
                         downloaded kernel_hash_key kernel_deb_file ;;
        fetch_loop E version_dir full_download_location arch flavor rest
          downloaded'
      else
        fetch_loop E version_dir full_download_location arch flavor rest
          downloaded
  end.

(** The DownloadManifest of a round. *)
Definition fetch_all (E : env) (version_dir full_download_location : pystr)
    (arch flavor : pystr) (index : dict) : M (list pystr) :=
  downloaded <- fetch_checksums E version_dir full_download_location ;;
  fetch_loop E version_dir full_download_location arch flavor index downloaded.

(** ** After the downloads (main) *)

(** The test that ends the round with nothing to install. *)
Definition nothing_downloaded (user_downloaded_kernel_deb_files : list pystr)
    : bool :=
  let downloaded_kernel_deb_files_count :=
    length user_downloaded_kernel_deb_files in
  (downloaded_kernel_deb_files_count =? 0)
  || ((downloaded_kernel_deb_files_count =? 1)
      && list_contains CHECKSUMS_FILE user_downloaded_kernel_deb_files).

(** [list.sort(key=len)]: a stable sort by the number of characters. *)
Fixpoint insert_by_len (x : pystr) (l : list pystr) : list pystr :=
  match l with
  | [] => [x]
  | y :: l' =>
      if length x <=? length y then x :: l else y :: insert_by_len x l'
  end.

Definition sort_by_len (l : list pystr) : list pystr :=
  fold_right insert_by_len [] l.

Fixpoint emit_all (evs : list event) : M unit :=
  match evs with
  | [] => ret tt
  | ev :: rest => emit ev ;; emit_all rest
  end.

(** The inner loop of the installation: wait until the dpkg lock is
    free. Returns [exit_installation] and the probes left. *)
Fixpoint wait_for_lock (locks : list lock_event)
    : M (bool * list lock_event) :=
  emit ProbeLock ;;
  match locks with
  | [] => ret (false, [])
  | Free :: rest => ret (false, rest)
  | Held d :: rest =>
      emit (Print MsgLockHeld) ;;
      user_selection_number <- request_user_yes_no_abort_script d ;;
      if user_selection_number =? NO_PRESSED then ret (true, rest)
      else if user_selection_number =? ABORT_PRESSED then exit_script 0
      else wait_for_lock rest
  end.

(** The state of the installation loop. *)
Record install_state : Type := {
  exit_installation : bool;
  error_occurred : nat;
  last_error_code : Z
}.

Definition next_code (codes : list Z) : Z * list Z :=
  match codes with
  | [] => (0%Z, [])
  | c :: rest => (c, rest)
  end.

Fixpoint install_loop (E : env) (files : list pystr)
    (locks : list lock_event) (codes : list Z)
    (errors : nat) (last : Z) : M install_state :=
  match files with
  | [] => ret {| exit_installation := false;
                 error_occurred := errors; last_error_code := last |}
  | deb_file_name :: rest =>
      w <- wait_for_lock locks ;;
      let (stop, locks') := w in
      if stop then
        ret {| exit_installation := true;
               error_occurred := errors; last_error_code := last |}
      else
        let file_name := basename deb_file_name in
        if negb (str_eqb file_name CHECKSUMS_FILE) then
          emit (Print (MsgInstalling file_name)) ;;
          emit (Dpkg (quote E deb_file_name)) ;;
          let (error_code, codes') := next_code codes in
          if negb (error_code =? 0)%Z
          then install_loop E rest locks' codes' (S errors) error_code
          else install_loop E rest locks' codes' errors last
        else install_loop E rest locks' codes errors last
  end.

(** From the list of downloaded files to the end of the installation. *)
Definition post_download (E : env) (U : user)
    (user_downloaded_kernel_deb_files : list pystr) : M unit :=
  emit (Print MsgDownloadedHeader) ;;
  (if nothing_downloaded user_downloaded_kernel_deb_files then
     emit (Print MsgNoKernelFiles) ;; exit_script 0
   else
     emit_all (map (fun f => Print (MsgDownloadedFile (basename f)))
                 user_downloaded_kernel_deb_files)) ;;
  if (geteuid E =? 0)%Z then
    emit (Print MsgInstallOffer) ;;
    let user_downloaded_kernel_deb_files :=
      sort_by_len user_downloaded_kernel_deb_files in
    emit_all (map (fun f => Print (MsgInstallOrder (basename f)))
                (filter (contains (lit ".deb"))
                   user_downloaded_kernel_deb_files)) ;;
    user_selection_number <-
      request_user_yes_no_abort_script (install_answer U) ;;
    if user_selection_number =? YES_PRESSED then
      st <- install_loop E user_downloaded_kernel_deb_files
              (lock_events U) (dpkg_codes U) 0 0%Z ;;
      if negb (error_occurred st =? 0) then
        emit (Print (MsgInstallErrors (last_error_code st)))
      else if negb (exit_installation st) then
        emit (Print MsgRebootOffer) ;;
        user_selection_number <-
          request_user_yes_no_abort_script (reboot_answer U) ;;
        if user_selection_number =? YES_PRESSED then emit Reboot else ret tt
      else ret tt
    else ret tt
  else ret tt.

(** The files handed to dpkg in a run, in order. *)
Definition dpkg_calls (t : list event) : list pystr :=
  flat_map (fun ev => match ev with Dpkg a => [a] | _ => [] end) t.

(** ** The top level of main *)

(** The [except] clauses of main, in their order. [SystemExit] is not an
    [Exception] and matches none. The last clause reads [e.message],
    which Python 3 does not have. *)
Definition main_handlers (E : env) (e : exn) : option (M unit) :=
  match e with
  | SystemExit _ => None
  | WebFileDownloadError =>
      Some (stop_progress_spinner ;; emit (Print MsgWebFileError) ;;
            exit_script 1)
  | KeyboardInterrupt =>
      Some (stop_progress_spinner ;; emit (Print MsgManuallyAborted) ;;
            exit_script 1)
  | _ =>
      Some (stop_progress_spinner ;;
            if IS_PYTHON3 E then raise AttributeError
            else emit (Print MsgOperationFailed) ;; exit_script 1)
  end.

(** [try: body except ...: ... finally: stop_progress_spinner();
    exit_script(0)] *)
Definition main_try (E : env) (body : M unit) : M unit :=
  try_finally (try_except body (main_handlers E))
    (stop_progress_spinner ;; exit_script 0).

(** ** The vocabulary of the properties *)

Definition first_token (line : pystr) : pystr := hd [] (split_ws line).
Definition last_token (line : pystr) : pystr := last (split_ws line) [].

(** Ends with [.deb], in any case. *)
Definition ends_with_deb (s : pystr) : bool :=
  endswith (map lower_ascii s) (lit ".deb").

(** The two tests of a manifest line, on its tokens. *)
Definition line_qualifies (line : pystr) : bool :=
  ends_with_deb (last_token line) && (strlen_unicode (first_token line) =? 40).

Definition is_ascii (s : pystr) : bool := forallb (fun c => (c <? 128)%N) s.

(** A line has a second token, and that token has three pieces between
    underscores. *)
Definition record_complete (line : pystr) : bool :=
  match split_ws line with
  | _ :: f :: _ => 3 <=? length (split_char (chr "_") f)
  | _ => false
  end.

(** The architecture segment of a file name: the third piece between
    underscores, up to its first dot. *)
Definition arch_segment (kernel_file : pystr) : option pystr :=
  match nth_error (split_char (chr "_") kernel_file) 2 with
  | Some seg => nth_error (split_char (chr ".") seg) 0
  | None => None
  end.

(** [l1] is a beginning of [l2]. *)
Definition is_prefix {A} (l1 l2 : list A) : Prop := exists r, l2 = l1 ++ r.

(** ** Manifests made of records *)

(** The newline. *)
Definition nl : pystr := [10%N].

(** No character of [s] is white space. *)
Definition no_space (s : pystr) : bool :=
  forallb (fun c => negb (is_space c)) s.

(** A token: not empty, without white space. *)
Definition is_token (s : pystr) : Prop := s <> [] /\ no_space s = true.

(** A line of the CHECKSUMS file: digest, two blanks, file name. *)
Definition record_line (digest file : pystr) : pystr :=
  digest ++ lit "  " ++ file ++ nl.

(** ** Sample manifests and worlds *)

(** A release: two amd64 packages of the generic flavor, the headers for
    all architectures, and a line whose digest has 39 characters. *)
Definition headers_all : pystr :=
  lit "linux-headers-4.9.5-040905_4.9.5-040905.201701200532_all.deb".
Definition headers_generic : pystr :=
  lit "linux-headers-4.9.5-040905-generic_4.9.5-040905.201701200532_amd64.deb".
Definition image_generic : pystr :=
  lit "linux-image-4.9.5-040905-generic_4.9.5-040905.201701200532_amd64.deb".
Definition image_lowlatency : pystr :=
  lit "linux-image-4.9.5-040905-lowlatency_4.9.5-040905.201701200532_amd64.deb".

Definition digest_a : pystr := lit "0a3456789abcdef0123456789abcdef012345678".
Definition digest_b : pystr := lit "1b3456789abcdef0123456789abcdef012345678".
Definition digest_c : pystr := lit "2c3456789abcdef0123456789abcdef012345678".
Definition digest_short : pystr := lit "3d3456789abcdef0123456789abcdef01234567".

Definition release_manifest : pystr :=
  record_line digest_a headers_generic ++ record_line digest_b image_generic
  ++ record_line digest_c headers_all
  ++ record_line digest_short image_lowlatency.

Definition release_index : dict :=
  [(digest_a, headers_generic); (digest_b, image_generic);
   (digest_c, headers_all)].

(** A line whose first token is twenty times U+00E9: twenty characters,
    forty bytes in UTF-8. *)
Definition accented_digest : pystr := repeat 233%N 20.
Definition accented_manifest : pystr := accented_digest ++ lit " a_b_c.deb".

(** Lines that pass both tests and are no records. *)
Definition one_token_manifest : pystr :=
  lit "0123456789abcdef0123456789abcdef0123.deb".
Definition two_piece_manifest : pystr :=
  lit "0123456789abcdef0123456789abcdef01234567  a_b.deb".

(** A world where every download succeeds and the digest tool answers
    with the digest of the empty file. *)
Definition kind_world : env :=
  {| IS_PYTHON3 := true;
     builtin_downloader := true;
     download_file := fun _ _ => true;
     getsize := fun _ => Some 0%N;
     sha1sum_output :=
       fun _ => Some (lit "da39a3ee5e6b4b0d3255bfef95601890afd80709");
     str_lower := map lower_ascii;
     quote := fun s => s;
     geteuid := 0%Z |}.

Definition download_dir : pystr :=
  lit "/root/Downloads/StableUpstreamKernels/v4.9.5/amd64/generic".

(** A file name with one [-] only. *)
Definition dashless_file : pystr := lit "linux-image_4.9.5_amd64.deb".
Definition dashless_manifest : pystr := digest_a ++ lit "  " ++ dashless_file.

(** A release for two architectures, one of which has a name that is
    the beginning of the name of the other. *)
Definition image_arm : pystr :=
  lit "linux-image-4.9.5-040905-generic_4.9.5-040905.201701200532_arm.deb".
Definition image_armhf : pystr :=
  lit "linux-image-4.9.5-040905-lowlatency_4.9.5-040905.201701200532_armhf.deb".
Definition arm_manifest : pystr :=
  digest_a ++ lit "  " ++ image_arm ++ nl
  ++ digest_b ++ lit "  " ++ image_armhf ++ nl.
Definition arm_index : dict := [(digest_a, image_arm); (digest_b, image_armhf)].

(** How often a character occurs. *)
Definition count_char (c : pychar) (s : pystr) : nat :=
  length (filter (N.eqb c) s).

(** The paths of the files [names] in the download directory. *)
Definition paths_in (dir : pystr) (names : list pystr) : list pystr :=
  map (fun n => dir ++ sep ++ n) names.

(** A user who accepts the installation and declines the reboot, with
    the dpkg lock free. *)
Definition willing_user : user :=
  {| install_answer := Yes; reboot_answer := No;
     lock_events := []; dpkg_codes := [] |}.

(** A world where the download of the generic image fails and leaves
    no file behind: the digest tool prints no digest for it. *)
Definition is_image_generic (p : pystr) : bool :=
  endswith p image_generic.

Definition harsh_world_of (python3 : bool) : env :=
  {| IS_PYTHON3 := python3;
     builtin_downloader := true;
     download_file := fun _ tofile => negb (is_image_generic tofile);
     getsize :=
       fun p => if is_image_generic p then None else Some 0%N;
     sha1sum_output :=
       fun p => if is_image_generic p then None
                else Some (lit "da39a3ee5e6b4b0d3255bfef95601890afd80709");
     str_lower := map lower_ascii;
     quote := fun s => s;
     geteuid := 0%Z |}.

Definition harsh_world : env := harsh_world_of false.
Definition harsh_world_py3 : env := harsh_world_of true.

(** A world where only the CHECKSUMS file can be downloaded; the other
    downloads fail and leave an empty file, as wget does, of which the
    digest tool prints the digest. *)
Definition stale_world : env :=
  {| IS_PYTHON3 := true;
     builtin_downloader := false;
     download_file := fun _ tofile => endswith tofile CHECKSUMS_FILE;
     getsize := fun _ => Some 0%N;
     sha1sum_output :=
       fun _ => Some (lit "da39a3ee5e6b4b0d3255bfef95601890afd80709");
     str_lower := map lower_ascii;
     quote := fun s => s;
     geteuid := 0%Z |}.

(** The same world for a user who is not root. *)
Definition plain_world : env :=
  {| IS_PYTHON3 := IS_PYTHON3 stale_world;
     builtin_downloader := builtin_downloader stale_world;
     download_file := download_file stale_world;
     getsize := getsize stale_world;
     sha1sum_output := sha1sum_output stale_world;
     str_lower := str_lower stale_world;
     quote := quote stale_world;
     geteuid := 1000%Z |}.

(** The downloads that a run starts, by destination. *)
Definition downloads (t : list event) : list pystr :=
  flat_map (fun ev => match ev with Download _ tofile => [tofile] | _ => [] end)
    t.

(** Did the download of the file [f] of the index succeed. *)
Definition got (E : env) (version_dir dir f : pystr) : bool :=
  download_file E
    (LATEST_UPSTREAM_KERNELS_ARCHIVE_URL ++ sep ++ version_dir ++ sep ++ f)
    (dir ++ sep ++ f).

(** The files of a round in which everything was downloaded, in the
    order of the downloads. *)
Definition downloaded_names : list pystr :=
  [CHECKSUMS_FILE; headers_generic; image_generic; headers_all].

(** ** More vocabulary *)

(** What the parser adds to the architectures for a file name. *)
Definition add_arch (archs : list pystr) (kernel_arch : pystr) : list pystr :=
  if negb (list_contains kernel_arch archs)
     && negb (str_eqb kernel_arch (lit "all"))
  then archs ++ [kernel_arch] else archs.

(** The record of a line: its first two tokens. *)
Definition yields (line k v : pystr) : Prop :=
  line_qualifies line = true
  /\ nth_error (split_ws line) 0 = Some k
  /\ nth_error (split_ws line) 1 = Some v.

(** A file name has three pieces between underscores. *)
Definition three_pieces (f : pystr) : Prop :=
  (3 <=? length (split_char (chr "_") f)) = true.

(** The digest tool prints a digest for every file, and the size of
    every file can be read or Python 2 runs the script. *)
Definition answers (E : env) : Prop :=
  (forall p, sha1sum_output E p <> None)
  /\ (IS_PYTHON3 E = true -> forall p, getsize E p <> None).

(** The order of [list.sort(key=len)]. *)
Definition by_len (a b : pystr) : Prop := length a <= length b.

(** Which names stand for packages: all but CHECKSUMS. *)
Definition is_package (n : pystr) : bool := negb (str_eqb n CHECKSUMS_FILE).

(** The names that the download loop can put on its list. *)
Definition downloadable (n : pystr) : Prop :=
  n = CHECKSUMS_FILE \/ endswith n (lit ".deb") = true.

(** The test of the installation loop on a path. *)
Definition not_checksums (p : pystr) : bool :=
  negb (str_eqb (basename p) CHECKSUMS_FILE).

Ltac bool_to_prop H :=
  repeat first
    [ rewrite orb_true_iff in H | rewrite andb_true_iff in H
    | rewrite N.leb_le in H | rewrite N.eqb_eq in H ].

(** ** Releases with other file names *)

(** The sample release with the generic image named in capitals at its
    end, and with the generic image of the unsigned kind. *)
Definition image_generic_upper : pystr :=
  lit "linux-image-4.9.5-040905-generic_4.9.5-040905.201701200532_amd64.DEB".
Definition upper_manifest : pystr :=
  record_line digest_a headers_generic
  ++ record_line digest_b image_generic_upper
  ++ record_line digest_c headers_all
  ++ record_line digest_short image_lowlatency.
Definition upper_index : dict :=
  [(digest_a, headers_generic); (digest_b, image_generic_upper);
   (digest_c, headers_all)].

Definition image_unsigned : pystr :=
  lit "linux-image-unsigned-4.9.5-040905-generic_4.9.5-040905.201701200532_amd64.deb".
Definition unsigned_manifest : pystr :=
  record_line digest_a headers_generic ++ record_line digest_b image_unsigned
  ++ record_line digest_c headers_all
  ++ record_line digest_short image_lowlatency.
Definition unsigned_index : dict :=
  [(digest_a, headers_generic); (digest_b, image_unsigned);
   (digest_c, headers_all)].

(** * More of the script *)

(** ** Vocabulary for the flavor of a file name *)

(** Where the flavor of a file name starts. *)
Definition flavor_start (kernel_file : pystr) : nat :=
  find_position_of_nth_string_occurence kernel_file (chr "-") 4 + 1.

(** ** A release without packages (main, after the parser) *)

(** The test that ends the script when the parser has left no entry or
    no architecture. Its prints are not among the messages above. *)
Definition check_release (st : parsed) : M unit :=
  let '(kernel_hashes_and_files, kernel_available_architectures) := st in
  if (length kernel_hashes_and_files =? 0)
     || (length kernel_available_architectures =? 0)
  then exit_script 0
  else ret tt.

(** ** Vocabulary for the download loop *)

(** [get_file_size] returns for the path [p]: the size can be read, or
    Python 2 runs the script. *)
Definition sizable (E : env) (p : pystr) : bool :=
  negb (IS_PYTHON3 E)
  || match getsize E p with Some _ => true | None => false end.

(** The digest tool prints a digest for the path [p]. *)
Definition digestible (E : env) (p : pystr) : bool :=
  match sha1sum_output E p with Some _ => true | None => false end.

(** The download loop meets no path without a size or a digest. *)
Definition fetch_returns (E : env) (dir : pystr) (files : list pystr) : bool :=
  sizable E (dir ++ sep ++ CHECKSUMS_FILE)
  && forallb (fun f => sizable E (dir ++ sep ++ f)
                       && digestible E (dir ++ sep ++ f)) files.

(** The digest that the tool prints for [p] is not the digest [h]. *)
Definition digest_differs (E : env) (p h : pystr) : Prop :=
  exists d, sha1sum_output E p = Some d
            /\ str_eqb (str_lower E d) (str_lower E h) = false.

(** ** Vocabulary for the installation *)

(** A return code of dpkg that the installation loop counts as an error. *)
Definition failed (error_code : Z) : bool := negb (error_code =? 0)%Z.

(** The return codes that the calls of dpkg in a run have consumed. *)
Definition consumed (codes : list Z) (t : list event) : list Z :=
  firstn (length (dpkg_calls t)) codes.

(** A user who accepts the installation and the reboot. *)
Definition eager_user : user :=
  {| install_answer := Yes; reboot_answer := Yes;
     lock_events := []; dpkg_codes := [] |}.

(** ** The prompts, line by line *)

(** What a prompt writes. *)
Inductive said : Type :=
| SayYesNoAbort                   (* Please enter [Y]es, [N]o, or [A]bort ... *)
| SaySelection (line : pystr)     (* Your selection: <line> *)
| SayInvalid                      (* Invalid input made. Please enter ... *)
| SayDecision (d : decision)      (* Your decision was: Yes, No or Abort *)
| SayAbort                        (* Abort script selected. Terminating script. *)
| SayMenu (objects : list pystr)  (* [i] = <object>, for every object *)
| SayYourSelection                (* Your selection: *)
| SayNotNumber                    (* Not a number entered. ... *)
| SayOutOfRange.                  (* Out of range number selected. ... *)

(** How a prompt ends: it returns, with the lines that it has not read;
    an exception leaves it; or the input ends, and the loop turns for
    ever on the empty line that [readline] returns from then on. What it
    writes while it hangs is not listed. *)
Inductive prompt_end (A : Type) : Type :=
| Returns (a : A) (rest : list pystr)
| Leaves (e : exn)
| Hangs.
Arguments Returns {A} a rest.
Arguments Leaves {A} e.
Arguments Hangs {A}.

(** [l[i]] for an integer [i]: a negative index counts from the end. *)
Definition getitem_int {A} (l : list A) (i : Z) : result A :=
  let i := if (i <? 0)%Z then (i + Z.of_nat (length l))%Z else i in
  if (i <? 0)%Z then Raise IndexError else getitem l (Z.to_nat i).

(** The prompts as functions of the lines that the user types: each
    [read_ln()] takes the next line. *)
Module Stdin.

(** [request_user_yes_no_abort_script()] *)
Fixpoint yes_no_abort_loop (E : env) (lines : list pystr)
    : list said * prompt_end nat :=
  match lines with
  | [] => ([], Hangs)
  | line :: rest =>
      let user_input_line := str_lower E (rstrip line) in
      let (t, r) :=
        if negb (contains user_input_line (lit "yna"))
           && negb (list_contains user_input_line
                      [lit "yes"; lit "no"; lit "abort"])
        then
          let (t, r) := yes_no_abort_loop E rest in (SayInvalid :: t, r)
        else if str_eqb user_input_line (lit "a")
                || str_eqb user_input_line (lit "abort")
        then ([SayDecision Abort; SayAbort], Leaves (SystemExit 1))
        else if str_eqb user_input_line (lit "y")
                || str_eqb user_input_line (lit "yes")
        then ([SayDecision Yes], Returns YES_PRESSED rest)
        else if str_eqb user_input_line (lit "n")
                || str_eqb user_input_line (lit "no")
        then ([SayDecision No], Returns NO_PRESSED rest)
        else yes_no_abort_loop E rest
      in (SaySelection user_input_line :: t, r)
  end.

Definition request_user_yes_no_abort_script (E : env) (lines : list pystr)
    : list said * prompt_end nat :=
  let (t, r) := yes_no_abort_loop E lines in (SayYesNoAbort :: t, r).

Section Numbers.

(** [str.isdigit] and [int], as the Python that runs the script has
    them; [int] raises on digits that are not decimal. *)
Variable isdigit : pystr -> bool.
Variable int : pystr -> result Z.

Fixpoint number_loop (objects_to_enumerate : list pystr)
    (max_input_number max_digit_len : nat) (lines : list pystr)
    : list said * prompt_end Z :=
  match lines with
  | [] => ([], Hangs)
  | line :: rest =>
      let user_input_number := rstrip line in
      let (t, r) :=
        if negb (isdigit user_input_number) then
          let (t, r) := number_loop objects_to_enumerate max_input_number
                          max_digit_len rest in
          (SayNotNumber :: t, r)
        else
          match int user_input_number with
          | Raise e => ([], Leaves e)
          | Ok n =>
              let invalid_input :=
                (n <? 0)%Z || (n >? Z.of_nat max_input_number)%Z
                || (max_digit_len <? strlen_unicode user_input_number) in
              (* [int(user_input_number) is 0]: CPython has one object
                 for each small integer *)
              if (n =? 0)%Z then
                ((if invalid_input then [SayOutOfRange] else [])
                 ++ [SayAbort], Leaves (SystemExit 1))
              else if invalid_input then
                let (t, r) := number_loop objects_to_enumerate
                                max_input_number max_digit_len rest in
                (SayOutOfRange :: t, r)
              else ([], Returns (n - 1)%Z rest)
          end
      in (SayMenu objects_to_enumerate :: SayYourSelection :: t, r)
  end.

(** [request_user_input_number_exit_on_fail(objects_to_enumerate,
    max_input_number, max_digit_len)] *)
Definition request_user_input_number_exit_on_fail
    (objects_to_enumerate : list pystr)
    (max_input_number max_digit_len : nat) (lines : list pystr)
    : list said * prompt_end Z :=
  number_loop (lit "Abort script" :: objects_to_enumerate)
    max_input_number max_digit_len lines.

(** The selection of main: the prompt for a number over a list, then
    the element of the list at the number returned. *)
Definition select (objects : list pystr) (lines : list pystr)
    : list said * prompt_end pystr :=
  let (t, r) := request_user_input_number_exit_on_fail objects
                  (length objects) (length objects) lines in
  (t, match r with
      | Returns user_selection_number rest =>
          match getitem_int objects user_selection_number with
          | Ok x => Returns x rest
          | Raise e => Leaves e
          end
      | Leaves e => Leaves e
      | Hangs => Hangs
      end).

End Numbers.

End Stdin.

(** [str.isdigit] and [int] on ASCII text. *)
Definition ascii_isdigit (s : pystr) : bool :=
  negb (length s =? 0) && forallb (fun c => (48 <=? c) && (c <=? 57))%N s.

Definition ascii_int (s : pystr) : result Z :=
  if ascii_isdigit s
  then Ok (fold_left (fun n c => 10 * n + Z.of_N (c - 48)) s 0)%Z
  else Raise ValueError.

(** ** Vocabulary for the prompts *)

(** What a typed line says at the prompt for yes, no or abort. *)
Definition decides (E : env) (line : pystr) : option decision :=
  let u := str_lower E (rstrip line) in
  if list_contains u [lit "y"; lit "yes"] then Some Yes
  else if list_contains u [lit "n"; lit "no"] then Some No
  else if list_contains u [lit "a"; lit "abort"] then Some Abort
  else None.

(** The first line that says something, and the lines after it. *)
Fixpoint first_decision (E : env) (lines : list pystr)
    : option (decision * list pystr) :=
  match lines with
  | [] => None
  | line :: rest =>
      match decides E line with
      | Some d => Some (d, rest)
      | None => first_decision E rest
      end
  end.

(** The lines that the prompt takes for input without a word about it. *)
Definition silent_lines : list pystr :=
  [[]; lit "yn"; lit "na"; lit "yna"].

(** A typed line that the prompt for a number refuses and reads on. *)
Definition refused (isdigit : pystr -> bool) (int : pystr -> result Z)
    (max_input_number max_digit_len : nat) (line : pystr) : Prop :=
  isdigit (rstrip line) = false
  \/ exists n, int (rstrip line) = Ok n /\ n <> 0%Z
       /\ ((n < 0)%Z \/ (Z.of_nat max_input_number < n)%Z
           \/ max_digit_len < strlen_unicode (rstrip line)).

(** A typed line at which the prompt for a number is left by [e]: a
    zero, or digits that [int] does not take. *)
Definition leaves_at (isdigit : pystr -> bool) (int : pystr -> result Z)
    (line : pystr) (e : exn) : Prop :=
  isdigit (rstrip line) = true
  /\ ((int (rstrip line) = Ok 0%Z /\ e = SystemExit 1)
      \/ int (rstrip line) = Raise e).

(** ** The connection to the internet *)

Definition SERVERS_TO_PROBE_FOR_CONNECTION : list pystr :=
  [lit "www.ubuntu.com"; lit "www.kernel.org"; lit "www.gnu.org"].
Definition SERVER_PORT_TO_PROBE : Z := 80.
Definition SERVER_TIMEOUT_CYCLES_IN_SEC : list Z := [1; 5; 10]%Z.

(** One attempt to connect: the server and the timeout in seconds. *)
Definition attempt : Type := (pystr * Z)%type.

(** The loop over the timeouts for one server: the attempts made, and
    whether the last one connected. [connects server timeout] says
    whether the attempt goes through; one that raises is passed over
    ([except: pass]). *)
Fixpoint probe_server (connects : pystr -> Z -> bool) (server_address : pystr)
    (timeouts : list Z) : list attempt * bool :=
  match timeouts with
  | [] => ([], false)
  | connection_timeout :: rest =>
      if connects server_address connection_timeout
      then ([(server_address, connection_timeout)], true)
      else
        let (t, r) := probe_server connects server_address rest in
        ((server_address, connection_timeout) :: t, r)
  end.

Fixpoint probe_servers (connects : pystr -> Z -> bool) (servers : list pystr)
    (timeouts : list Z) : list attempt * option (pystr * Z) :=
  match servers with
  | [] => ([], None)
  | server_address :: rest =>
      let (t, connected) := probe_server connects server_address timeouts in
      if connected then (t, Some (server_address, SERVER_PORT_TO_PROBE))
      else
        let (t', r) := probe_servers connects rest timeouts in (t ++ t', r)
  end.

(** [is_internet_available()]: the attempts made, and what it returns. *)
Definition is_internet_available (connects : pystr -> Z -> bool)
    : list attempt * option (pystr * Z) :=
  probe_servers connects SERVERS_TO_PROBE_FOR_CONNECTION
    SERVER_TIMEOUT_CYCLES_IN_SEC.

(** One round of the check in main: what connects at that time, and what
    the user answers when nothing does. *)
Definition net_round : Type := ((pystr -> Z -> bool) * decision)%type.

(** The loop of main around the check. Past the rounds listed a server
    answers. *)
Fixpoint connection_loop (rounds : list net_round) : M unit :=
  match rounds with
  | [] => stop_progress_spinner ;; emit (Print MsgSuccess)
  | (connects, d) :: rest =>
      match snd (is_internet_available connects) with
      | Some _ => stop_progress_spinner ;; emit (Print MsgSuccess)
      | None =>
          stop_progress_spinner ;;
          emit (Print MsgFailed) ;;
          user_decision <- request_user_yes_no_abort_script d ;;
          if user_decision =? YES_PRESSED then connection_loop rest
          else ret tt
      end
  end.

(** main from the check of the connection on: the loop, then the [try]
    statement around the download rounds. *)
Definition main_from_connection (E : env) (rounds : list net_round)
    (body : M unit) : M unit :=
  connection_loop rounds ;; main_try E body.

(** All attempts, in the order of the loops. *)
Definition all_attempts (servers : list pystr) (timeouts : list Z)
    : list attempt :=
  flat_map (fun s => map (pair s) timeouts) servers.

(** The seconds that the attempts of a check can wait in all. *)
Definition seconds (t : list attempt) : Z :=
  fold_right Z.add 0%Z (map snd t).

(** The user aborts at the prompt of the check: no server answers in a
    round, and in the rounds before, and the answer is to abort after
    answers to retry. *)
Fixpoint aborts_offline (rounds : list net_round) : bool :=
  match rounds with
  | [] => false
  | (connects, d) :: rest =>
      match snd (is_internet_available connects), d with
      | None, Yes => aborts_offline rest
      | None, Abort => true
      | _, _ => false
      end
  end.

(** ** The progress spinner *)

(** The fields of [SpinningProgress] that [start] and [stop] read and
    write, and the number of threads started so far. *)
Record SpinningProgress : Type := {
  abort_progress_sentinel : option bool;
  spinner_threads : nat
}.

Definition progress_spinner : SpinningProgress :=
  {| abort_progress_sentinel := None; spinner_threads := 0 |}.

(** [start(self)]: [not None] and [not False] hold. *)
Definition start (self : SpinningProgress) : SpinningProgress :=
  match abort_progress_sentinel self with
  | Some true => self
  | _ => {| abort_progress_sentinel := Some false;
            spinner_threads := S (spinner_threads self) |}
  end.

(** [stop(self)] *)
Definition stop (self : SpinningProgress) : SpinningProgress :=
  {| abort_progress_sentinel := Some true;
     spinner_threads := spinner_threads self |}.

Inductive spinner_call : Type := CallStart | CallStop.

Definition call (self : SpinningProgress) (c : spinner_call)
    : SpinningProgress :=
  match c with CallStart => start self | CallStop => stop self end.

(** The calls of [start] before the first call of [stop]. *)
Fixpoint starts_before_stop (calls : list spinner_call) : nat :=
  match calls with
  | CallStart :: rest => S (starts_before_stop rest)
  | _ => 0
  end.

(** * Properties *)

(** ** Text *)

Lemma str_eqb_eq (a b : pystr) : str_eqb a b = true <-> a = b.
Proof.
  revert b; induction a as [|x a IH]; intros [|y b]; simpl;
    try (split; [discriminate | discriminate]); try tauto.
  rewrite andb_true_iff, N.eqb_eq, IH. split.
  - intros [-> ->]; reflexivity.
  - intros H; inversion H; auto.
Qed.

Lemma str_eqb_refl (a : pystr) : str_eqb a a = true.
Proof. apply str_eqb_eq; reflexivity. Qed.

Lemma str_eqb_neq (a b : pystr) : str_eqb a b = false <-> a <> b.
Proof.
  rewrite <- str_eqb_eq. destruct (str_eqb a b); split; congruence.
Qed.

Lemma list_contains_In (x : pystr) (l : list pystr) :
  list_contains x l = true <-> In x l.
Proof.
  unfold list_contains. rewrite existsb_exists. split.
  - intros (y & Hy & E). apply str_eqb_eq in E. subst; assumption.
  - intros H. exists x. split; [assumption | apply str_eqb_refl].
Qed.

Lemma endswith_iff (s suf : pystr) :
  endswith s suf = true <-> exists p, s = p ++ suf.
Proof.
  unfold endswith. rewrite andb_true_iff, Nat.leb_le, str_eqb_eq. split.
  - intros [_ H]. exists (firstn (length s - length suf) s).
    pose proof (firstn_skipn (length s - length suf) s) as F.
    rewrite H in F. symmetry; exact F.
  - intros [p ->]. rewrite length_app. split; [lia|].
    replace (length p + length suf - length suf) with (length p + 0) by lia.
    rewrite skipn_app, Nat.add_0_r, skipn_all.
    replace (length p - length p) with 0 by lia. reflexivity.
Qed.

Lemma endswith_false_iff (s suf : pystr) :
  endswith s suf = false <-> ~ exists p, s = p ++ suf.
Proof.
  rewrite <- endswith_iff. destruct (endswith s suf); split; congruence.
Qed.

(** *** The primitives on small inputs *)

Example split_ws_sample :
  split_ws (lit "  ab  cd e ") = [lit "ab"; lit "cd"; lit "e"].
Proof. reflexivity. Qed.

Example strip_sample : strip (lit "  ab  cd e " ++ nl) = lit "ab  cd e".
Proof. reflexivity. Qed.

Example split_char_sample :
  split_char (chr "_") (lit "_a__b_") = [[]; lit "a"; []; lit "b"; []].
Proof. reflexivity. Qed.

Example readlines_sample :
  readlines (lit "ab" ++ nl ++ nl ++ lit "c")
  = [lit "ab" ++ nl; nl; lit "c"].
Proof. reflexivity. Qed.

Example basename_sample :
  basename (lit "/root/Downloads/v4.9.5/CHECKSUMS") = CHECKSUMS_FILE
  /\ basename (lit "Downloads/") = [].
Proof. split; reflexivity. Qed.

Example strlen_unicode_sample :
  strlen_unicode [233%N] = 2 /\ strlen_unicode (lit "abc") = 3
  /\ strlen_unicode [8364%N; 128512%N] = 7.
Proof. repeat split; reflexivity. Qed.

Example re_search_deb_sample :
  re_search_deb (lit "a_b_c.DeB") = true
  /\ re_search_deb (lit "a_b_c.deb" ++ nl) = true
  /\ re_search_deb (lit "a_b_c.deb ") = false
  /\ re_search_deb (lit "a_b_c.debs") = false.
Proof. repeat split; reflexivity. Qed.

Example find_position_sample :
  find_position_of_nth_string_occurence (lit "a-b-c-d-e") (chr "-") 4 = 7
  /\ find_position_of_nth_string_occurence (lit "a-b-c") (chr "-") 4 = 0
  /\ find_position_of_nth_string_occurence [] (chr "-") 4 = 0.
Proof. repeat split; reflexivity. Qed.

Example extract_flavor_sample :
  extract_flavor headers_generic = Ok (lit "generic")
  /\ extract_flavor (lit "a-b-c-d-e.deb") = Raise ValueError.
Proof. split; vm_compute; reflexivity. Qed.

Example sort_by_len_sample :
  sort_by_len [lit "ccc"; lit "a"; lit "bb"; lit "d"; lit "ee"]
  = [lit "a"; lit "d"; lit "bb"; lit "ee"; lit "ccc"].
Proof. reflexivity. Qed.

(** *** White space, [strip] and [split] *)

Lemma push_app (cur : pystr) (done : list pystr) (t : pystr) :
  push cur (done ++ [t]) = push cur done ++ [t].
Proof. destruct cur; reflexivity. Qed.

Lemma tokens_cons (c : pychar) (s : pystr) :
  tokens (c :: s) =
  if is_space c then ([], split_ws s) else (c :: fst (tokens s), snd (tokens s)).
Proof.
  unfold split_ws; simpl. destruct (tokens s) as [cur done]; reflexivity.
Qed.

Lemma split_ws_cons_space (c : pychar) (s : pystr) :
  is_space c = true -> split_ws (c :: s) = split_ws s.
Proof.
  intros H. unfold split_ws at 1. rewrite tokens_cons, H. reflexivity.
Qed.

Lemma tokens_all_space (s : pystr) :
  forallb is_space s = true -> tokens s = ([], []).
Proof.
  induction s as [|c s IH]; simpl; [reflexivity|].
  rewrite andb_true_iff. intros [Hc Hs].
  rewrite (IH Hs), Hc. reflexivity.
Qed.

Lemma tokens_no_space (t : pystr) :
  no_space t = true -> tokens t = (t, []).
Proof.
  induction t as [|c t IH]; simpl; [reflexivity|].
  rewrite andb_true_iff, negb_true_iff. intros [Hc Ht].
  rewrite (IH Ht), Hc. reflexivity.
Qed.

Lemma split_ws_lstrip (s : pystr) : split_ws (lstrip s) = split_ws s.
Proof.
  induction s as [|c s IH]; [reflexivity|]. simpl.
  destruct (is_space c) eqn:Hc; [|reflexivity].
  rewrite split_ws_cons_space by assumption. exact IH.
Qed.

Lemma rstrip_nil (s : pystr) :
  rstrip s = [] -> forallb is_space s = true.
Proof.
  induction s as [|c s IH]; simpl; [reflexivity|].
  destruct (rstrip s) eqn:R; [|discriminate].
  destruct (is_space c); [intros _; auto | discriminate].
Qed.

Lemma tokens_rstrip (s : pystr) : tokens (rstrip s) = tokens s.
Proof.
  induction s as [|c s IH]; [reflexivity|].
  change (rstrip (c :: s)) with
    (match rstrip s with [] => if is_space c then [] else [c] | r => c :: r end).
  destruct (rstrip s) as [|x r] eqn:R.
  - apply rstrip_nil in R. rewrite tokens_cons. unfold split_ws.
    rewrite (tokens_all_space _ R). destruct (is_space c) eqn:Hc.
    + reflexivity.
    + simpl. rewrite Hc. reflexivity.
  - rewrite (tokens_cons c (x :: r)), (tokens_cons c s).
    unfold split_ws. rewrite IH. reflexivity.
Qed.

Lemma split_ws_strip (s : pystr) : split_ws (strip s) = split_ws s.
Proof.
  unfold strip, split_ws at 1. rewrite tokens_rstrip.
  apply split_ws_lstrip.
Qed.

Lemma rstrip_last (s : pystr) :
  rstrip s <> [] -> is_space (last (rstrip s) 0%N) = false.
Proof.
  induction s as [|c s IH]; [intros H; contradiction|].
  change (rstrip (c :: s)) with
    (match rstrip s with [] => if is_space c then [] else [c] | r => c :: r end).
  destruct (rstrip s) as [|x r] eqn:R.
  - destruct (is_space c) eqn:Hc; [intros H; contradiction|].
    intros _. exact Hc.
  - intros _. change (last (c :: x :: r) 0%N) with (last (x :: r) 0%N).
    apply IH. discriminate.
Qed.

Lemma tokens_app_token (pre : pystr) (w : pychar) (t : pystr) :
  is_space w = true -> no_space t = true -> t <> [] ->
  tokens (pre ++ w :: t) = (fst (tokens pre), snd (tokens pre) ++ [t]).
Proof.
  intros Hw Ht Hne. induction pre as [|c pre IH].
  - simpl app. rewrite tokens_cons, Hw. unfold split_ws.
    rewrite (tokens_no_space _ Ht). destruct t; [contradiction|reflexivity].
  - simpl app. rewrite !tokens_cons. unfold split_ws. rewrite IH.
    destruct (tokens pre) as [cur done]. simpl.
    destruct (is_space c); [rewrite push_app|]; reflexivity.
Qed.

Lemma split_ws_app_token (pre : pystr) (w : pychar) (t : pystr) :
  is_space w = true -> no_space t = true -> t <> [] ->
  split_ws (pre ++ w :: t) = split_ws pre ++ [t].
Proof.
  intros Hw Ht Hne. unfold split_ws.
  rewrite (tokens_app_token pre w t Hw Ht Hne).
  destruct (tokens pre) as [cur done]. simpl. apply push_app.
Qed.

Lemma split_ws_no_space (t : pystr) :
  no_space t = true -> t <> [] -> split_ws t = [t].
Proof.
  intros Ht Hne. unfold split_ws. rewrite (tokens_no_space _ Ht).
  destruct t; [contradiction|reflexivity].
Qed.

(** A string that does not end with white space is one token, or ends
    with a white space character and one token. *)
Lemma last_run (s : pystr) :
  s <> [] -> is_space (last s 0%N) = false ->
  no_space s = true \/
  exists pre w t, s = pre ++ w :: t /\ is_space w = true
                  /\ no_space t = true /\ t <> [].
Proof.
  induction s as [|c s IH]; [intros H; contradiction|].
  intros _ Hl. destruct s as [|x s'].
  - left. simpl in *. rewrite Hl. reflexivity.
  - change (last (c :: x :: s') 0%N) with (last (x :: s') 0%N) in Hl.
    destruct (IH ltac:(discriminate) Hl) as [Hs | (pre & w & t & E & Hw & Ht & Hne)].
    + destruct (is_space c) eqn:Hc.
      * right. exists [], c, (x :: s'). repeat split; try assumption.
        discriminate.
      * left. change (no_space (c :: x :: s'))
          with (negb (is_space c) && no_space (x :: s')).
        rewrite Hc, Hs. reflexivity.
    + right. exists (c :: pre), w, t. rewrite E. repeat split; assumption.
Qed.

Lemma in_no_space (t : pystr) (c : pychar) :
  no_space t = true -> In c t -> is_space c = false.
Proof.
  unfold no_space. rewrite forallb_forall. intros H Hin.
  apply negb_true_iff. apply H; assumption.
Qed.

(** A suffix without the character [w] lies after the last [w]. *)
Lemma endswith_after (pre : pystr) (w : pychar) (t suf : pystr) :
  ~ In w suf -> endswith (pre ++ w :: t) suf = endswith t suf.
Proof.
  intros Hw. apply eq_true_iff_eq. rewrite !endswith_iff. split.
  - intros [p E]. apply app_eq_app in E.
    destruct E as [l [[E1 E2] | [E1 E2]]].
    + exfalso. apply Hw. rewrite E2. apply in_or_app. right. left. reflexivity.
    + destruct l as [|y l].
      * exfalso. apply Hw. simpl in E2. rewrite <- E2. left; reflexivity.
      * simpl in E2. inversion E2; subst. exists l; reflexivity.
  - intros [p ->]. exists (pre ++ w :: p). rewrite <- app_assoc. reflexivity.
Qed.

(** *** The pattern [.deb] at the end of a stripped line *)

Lemma lower_ascii_space (c : pychar) :
  is_space c = true -> lower_ascii c = c.
Proof.
  unfold lower_ascii, is_space. intros H.
  destruct ((65 <=? c)%N && (c <=? 90)%N) eqn:R; [|reflexivity].
  exfalso. apply andb_true_iff in R. destruct R as [R1 R2].
  apply N.leb_le in R1. apply N.leb_le in R2.
  bool_to_prop H. lia.
Qed.

Lemma lower_ascii_newline (c : pychar) :
  lower_ascii c = 10%N -> c = 10%N.
Proof.
  unfold lower_ascii.
  destruct ((65 <=? c)%N && (c <=? 90)%N) eqn:R; [|auto].
  apply andb_true_iff in R. destruct R as [R1 R2].
  apply N.leb_le in R1. apply N.leb_le in R2. lia.
Qed.

Lemma last_map_lower (s : pystr) :
  last (map lower_ascii s) 0%N = lower_ascii (last s 0%N).
Proof.
  induction s as [|c s IH]; [reflexivity|].
  destruct s as [|x s']; [reflexivity|]. exact IH.
Qed.

Lemma no_newline_at_end (s : pystr) :
  is_space (last s 0%N) = false ->
  endswith (map lower_ascii s) (lit ".deb" ++ [10%N]) = false.
Proof.
  intros Hl. apply endswith_false_iff. intros [p E].
  apply (f_equal (fun x => last x 0%N)) in E.
  rewrite app_assoc, last_last, last_map_lower in E.
  apply lower_ascii_newline in E. rewrite E in Hl. discriminate.
Qed.

Lemma ends_with_deb_after (pre : pystr) (w : pychar) (t : pystr) :
  is_space w = true ->
  ends_with_deb (pre ++ w :: t) = ends_with_deb t.
Proof.
  intros Hw. unfold ends_with_deb. rewrite map_app. simpl map.
  rewrite (lower_ascii_space w Hw). apply endswith_after.
  intros Hin. simpl in Hin.
  destruct Hin as [E | [E | [E | [E | []]]]]; rewrite <- E in Hw;
    discriminate.
Qed.

Lemma re_search_deb_stripped (s : pystr) :
  s = [] \/ is_space (last s 0%N) = false ->
  re_search_deb s = ends_with_deb (last (split_ws s) []).
Proof.
  intros [-> | Hl]; [reflexivity|].
  destruct s as [|c s']; [reflexivity|]. set (s := c :: s') in *.
  unfold re_search_deb. rewrite (no_newline_at_end s Hl), orb_false_r.
  fold (ends_with_deb s).
  destruct (last_run s ltac:(discriminate) Hl)
    as [Hs | (pre & w & t & E & Hw & Ht & Hne)].
  - rewrite (split_ws_no_space s Hs) by discriminate. reflexivity.
  - rewrite E, (split_ws_app_token pre w t Hw Ht Hne), last_last.
    apply ends_with_deb_after. exact Hw.
Qed.

Lemma strip_last (line : pystr) :
  strip line = [] \/ is_space (last (strip line) 0%N) = false.
Proof.
  unfold strip. destruct (rstrip (lstrip line)) eqn:R; [left; reflexivity|].
  right. rewrite <- R. apply rstrip_last. rewrite R. discriminate.
Qed.

(** The pattern matches the stripped line exactly when the last token of
    the line ends with [.deb]. *)
Lemma re_search_deb_strip (line : pystr) :
  re_search_deb (strip line) = ends_with_deb (last_token line).
Proof.
  rewrite (re_search_deb_stripped _ (strip_last line)), split_ws_strip.
  reflexivity.
Qed.

(** ** The manifest parser *)

Lemma split_char_not_nil (sep : pychar) (s : pystr) : split_char sep s <> [].
Proof.
  destruct s as [|c s]; simpl; [discriminate|].
  destruct (c =? sep)%N; [discriminate|].
  destruct (split_char sep s); discriminate.
Qed.

Lemma dict_set_In (d : dict) (k v : pystr) (e : pystr * pystr) :
  In e (dict_set d k v) -> In e d \/ e = (k, v).
Proof.
  induction d as [|[k' v'] d IH]; simpl.
  - intros [<- | []]. right; reflexivity.
  - destruct (str_eqb k' k) eqn:K.
    + apply str_eqb_eq in K. subst k'. intros [<- | H]; auto.
    + intros [<- | H]; [auto|]. destruct (IH H); auto.
Qed.

Lemma dict_set_has (d : dict) (k v : pystr) : In (k, v) (dict_set d k v).
Proof.
  induction d as [|[k' v'] d IH]; simpl; [auto|].
  destruct (str_eqb k' k) eqn:K.
  - apply str_eqb_eq in K. subst k'. left; reflexivity.
  - right; exact IH.
Qed.

(** A line that fails a test leaves the index and the architectures as
    they are. *)
Lemma parse_line_skip (st : parsed) (line : pystr) :
  line_qualifies line = false -> parse_line st line = Ok st.
Proof.
  unfold line_qualifies, parse_line, last_token, first_token.
  destruct st as [idx archs].
  rewrite re_search_deb_strip, split_ws_strip. unfold last_token.
  destruct (ends_with_deb (last (split_ws line) [])) eqn:D; [|reflexivity].
  destruct (split_ws line) as [|h r]; [discriminate D|].
  simpl. intros ->. reflexivity.
Qed.

(** A line that passes both tests is read as a record. *)
Lemma parse_line_keep (idx : dict) (archs : list pystr) (line : pystr) :
  line_qualifies line = true ->
  parse_line (idx, archs) line =
  match split_ws line with
  | h :: f :: _ =>
      match arch_segment f with
      | Some a => Ok (dict_set idx h f, add_arch archs a)
      | None => Raise IndexError
      end
  | _ => Raise IndexError
  end.
Proof.
  unfold line_qualifies, parse_line, last_token, first_token, arch_segment.
  rewrite re_search_deb_strip, split_ws_strip. unfold last_token.
  rewrite andb_true_iff. intros [D L]. rewrite D.
  destruct (split_ws line) as [|h [|f r]]; [discriminate D| |].
  - cbn [hd] in L. change (getitem [h] 0) with (@Ok pystr h).
    cbn [rbind]. rewrite L. reflexivity.
  - cbn [hd] in L. change (getitem (h :: f :: r) 0) with (@Ok pystr h).
    cbn [rbind]. rewrite L.
    change (getitem (h :: f :: r) 1) with (@Ok pystr f).
    cbn [rbind]. unfold getitem.
    destruct (nth_error (split_char (chr "_") f) 2) as [seg|]; [|reflexivity].
    cbn [rbind].
    destruct (nth_error (split_char (chr ".") seg) 0) as [a|]; [|reflexivity].
    cbn [rbind]. unfold add_arch.
    destruct (negb (list_contains a archs) && negb (str_eqb a (lit "all")));
      reflexivity.
Qed.

Lemma arch_segment_complete (f : pystr) :
  (3 <=? length (split_char (chr "_") f)) = true <->
  exists a, arch_segment f = Some a.
Proof.
  unfold arch_segment. rewrite Nat.leb_le. split.
  - intros H.
    destruct (nth_error (split_char (chr "_") f) 2) as [seg|] eqn:N.
    + pose proof (split_char_not_nil (chr ".") seg) as NE.
      destruct (split_char (chr ".") seg) as [|a r]; [contradiction|].
      exists a; reflexivity.
    + apply nth_error_None in N. lia.
  - intros [a H].
    destruct (nth_error (split_char (chr "_") f) 2) as [seg|] eqn:N;
      [|discriminate].
    assert (2 < length (split_char (chr "_") f)); [|lia].
    apply nth_error_Some. rewrite N. discriminate.
Qed.

Lemma parse_line_entries (idx : dict) (archs : list pystr) (line : pystr)
    (idx' : dict) (archs' : list pystr) :
  parse_line (idx, archs) line = Ok (idx', archs') ->
  forall k v, In (k, v) idx' -> In (k, v) idx \/ yields line k v.
Proof.
  intros H k v Hin. destruct (line_qualifies line) eqn:Q.
  - rewrite (parse_line_keep idx archs line Q) in H.
    destruct (split_ws line) as [|h [|f r]] eqn:T; try discriminate.
    destruct (arch_segment f); [|discriminate].
    inversion H; subst. apply dict_set_In in Hin.
    destruct Hin as [Hin | E]; [left; exact Hin|]. right.
    inversion E; subst. unfold yields. rewrite T. auto.
  - rewrite (parse_line_skip (idx, archs) line Q) in H.
    inversion H; subst. left; exact Hin.
Qed.

Lemma parse_lines_entries (lines : list pystr) :
  forall idx archs idx' archs',
  parse_lines (idx, archs) lines = Ok (idx', archs') ->
  forall k v, In (k, v) idx' ->
  In (k, v) idx \/ exists line, In line lines /\ yields line k v.
Proof.
  induction lines as [|l ls IH]; intros idx archs idx' archs' H k v Hin.
  - inversion H; subst. left; exact Hin.
  - cbn [parse_lines] in H.
    destruct (parse_line (idx, archs) l) as [[idx1 archs1]|e] eqn:P;
      [|discriminate].
    cbn [rbind] in H. destruct (IH _ _ _ _ H k v Hin) as [H1 | (line & Hl & Hy)].
    + destruct (parse_line_entries _ _ _ _ _ P k v H1) as [H0 | Hy].
      * left; exact H0.
      * right. exists l. split; [left; reflexivity | exact Hy].
    + right. exists line. split; [right; exact Hl | exact Hy].
Qed.

Lemma strlen_unicode_ascii (s : pystr) :
  is_ascii s = true -> strlen_unicode s = length s.
Proof.
  unfold strlen_unicode. induction s as [|c s IH]; simpl; [reflexivity|].
  rewrite andb_true_iff. intros [Hc Hs]. unfold utf8_width at 1.
  rewrite Hc, (IH Hs). reflexivity.
Qed.

Lemma parse_lines_app (l1 l2 : list pystr) (st : parsed) :
  parse_lines st (l1 ++ l2) =
  (st' <- parse_lines st l1 ;; parse_lines st' l2)%py.
Proof.
  revert st; induction l1 as [|l l1 IH]; intros st; [reflexivity|].
  cbn [app parse_lines]. destruct (parse_line st l) as [st1|e]; cbn [rbind];
    [apply IH | reflexivity].
Qed.

(** Only the lines that pass both tests matter to the parser. *)
Lemma parse_lines_filter (lines : list pystr) (st : parsed) :
  parse_lines st lines = parse_lines st (filter line_qualifies lines).
Proof.
  revert st; induction lines as [|l ls IH]; intros st; [reflexivity|].
  cbn [filter]. destruct (line_qualifies l) eqn:Q.
  - cbn [parse_lines]. destruct (parse_line st l); cbn [rbind];
      [apply IH | reflexivity].
  - cbn [parse_lines]. rewrite (parse_line_skip st l Q). cbn [rbind].
    apply IH.
Qed.

Lemma parse_line_complete (st : parsed) (line : pystr) :
  line_qualifies line = true -> record_complete line = true ->
  exists st', parse_line st line = Ok st'.
Proof.
  destruct st as [idx archs]. intros Q C.
  rewrite (parse_line_keep idx archs line Q). unfold record_complete in C.
  destruct (split_ws line) as [|h [|f r]]; try discriminate.
  apply arch_segment_complete in C. destruct C as [a ->]. eauto.
Qed.

Lemma parse_line_incomplete (st : parsed) (line : pystr) :
  line_qualifies line = true -> record_complete line = false ->
  parse_line st line = Raise IndexError.
Proof.
  destruct st as [idx archs]. intros Q C.
  rewrite (parse_line_keep idx archs line Q). unfold record_complete in C.
  destruct (split_ws line) as [|h [|f r]]; try reflexivity.
  destruct (arch_segment f) as [a|] eqn:A; [|reflexivity].
  assert (H : exists a, arch_segment f = Some a) by eauto.
  apply arch_segment_complete in H. congruence.
Qed.

Lemma parse_line_raises (st : parsed) (line : pystr) (e : exn) :
  parse_line st line = Raise e -> e = IndexError.
Proof.
  intros H. destruct (line_qualifies line) eqn:Q.
  - destruct (record_complete line) eqn:C.
    + destruct (parse_line_complete st line Q C) as [st' E]. congruence.
    + rewrite (parse_line_incomplete st line Q C) in H. congruence.
  - rewrite (parse_line_skip st line Q) in H. discriminate.
Qed.

Lemma parse_lines_complete (lines : list pystr) :
  forall st,
  (forall line, In line lines ->
     line_qualifies line = true -> record_complete line = true) ->
  exists st', parse_lines st lines = Ok st'.
Proof.
  induction lines as [|l ls IH]; intros st H; [eexists; reflexivity|].
  cbn [parse_lines]. assert (exists st1, parse_line st l = Ok st1) as [st1 E].
  { destruct (line_qualifies l) eqn:Q.
    - apply parse_line_complete; [exact Q|]. apply H; [left; reflexivity|exact Q].
    - exists st. apply parse_line_skip. exact Q. }
  rewrite E. cbn [rbind]. apply IH. intros line Hin. apply H. right; exact Hin.
Qed.

Lemma parse_lines_incomplete (lines : list pystr) :
  forall st line,
  In line lines -> line_qualifies line = true ->
  record_complete line = false ->
  parse_lines st lines = Raise IndexError.
Proof.
  induction lines as [|l ls IH]; intros st line Hin Q C; [contradiction|].
  cbn [parse_lines]. destruct (parse_line st l) as [st1|e] eqn:E; cbn [rbind].
  - destruct Hin as [-> | Hin].
    + rewrite (parse_line_incomplete st line Q C) in E. discriminate.
    + apply (IH st1 line Hin Q C).
  - apply parse_line_raises in E. subst; reflexivity.
Qed.

(** Where the entries of the index come from. Every entry of the index
    that the parser returns was in the index before, or is the record of
    a line of the manifest whose last token ends with [.deb] in any case
    and whose first token has a UTF-8 encoding of exactly 40 bytes, which
    are 40 characters when the token is ASCII; and the lines that fail
    either test contribute nothing: the parser returns what it returns
    on the other lines alone. *)
Theorem index_entries_qualify :
  forall (index0 : dict) (text : pystr) (index : dict) (archs : list pystr),
    parse_manifest index0 text = Ok (index, archs) ->
    (forall k v, In (k, v) index ->
       In (k, v) index0 \/
       exists line, In line (readlines text)
         /\ ends_with_deb (last_token line) = true
         /\ first_token line = k
         /\ strlen_unicode k = 40
         /\ (is_ascii k = true -> length k = 40)
         /\ nth_error (split_ws line) 1 = Some v)
    /\ parse_lines (index0, []) (filter line_qualifies (readlines text))
       = Ok (index, archs)
    /\ (forall st line, line_qualifies line = false ->
          parse_line st line = Ok st).
Proof.
  intros index0 text index archs H. split; [|split].
  - intros k v Hin. unfold parse_manifest in H.
    destruct (parse_lines_entries _ _ _ _ _ H k v Hin)
      as [H0 | (line & Hl & Q & T0 & T1)]; [left; exact H0|].
    right. exists line. unfold line_qualifies in Q.
    apply andb_true_iff in Q. destruct Q as [D L]. apply Nat.eqb_eq in L.
    assert (F : first_token line = k).
    { unfold first_token. destruct (split_ws line); [discriminate|].
      simpl in T0. inversion T0; reflexivity. }
    rewrite F in L. repeat split; try assumption.
    intros A. rewrite <- (strlen_unicode_ascii k A). exact L.
  - rewrite <- parse_lines_filter. exact H.
  - intros st line. apply parse_line_skip.
Qed.

Lemma index_entries_qualify_witness :
  (forall k v, In (k, v) release_index ->
     In (k, v) [] \/
     exists line, In line (readlines release_manifest)
       /\ ends_with_deb (last_token line) = true
       /\ first_token line = k
       /\ strlen_unicode k = 40
       /\ (is_ascii k = true -> length k = 40)
       /\ nth_error (split_ws line) 1 = Some v)
  /\ parse_lines ([], []) (filter line_qualifies (readlines release_manifest))
     = Ok (release_index, [lit "amd64"])
  /\ (forall st line, line_qualifies line = false ->
        parse_line st line = Ok st).
Proof.
  apply (index_entries_qualify [] release_manifest release_index [lit "amd64"]).
  vm_compute. reflexivity.
Defined.

(** C4 fails on the code. The comment at the test says that only the
    digests of 40 characters are wanted, but [strlen_unicode] measures
    the first token in bytes of UTF-8. The one line of this manifest has
    a first token of twenty characters, no line of it has a first token
    of 40 characters, and its record is in the index. *)
Lemma index_entry_of_twenty_characters :
  parse_manifest [] accented_manifest
    = Ok ([(accented_digest, lit "a_b_c.deb")], [lit "c"])
  /\ length accented_digest = 20
  /\ (forall line, In line (readlines accented_manifest) ->
        length (first_token line) <> 40).
Proof.
  split; [vm_compute; reflexivity|]. split; [reflexivity|].
  intros line [<- | []]. vm_compute. discriminate.
Qed.

(** Where the parser does return. It returns an index and the
    architectures, and raises nothing, on every manifest text in which
    each line that passes both tests has a second token with at least
    three pieces between underscores; the lines that fail a test are
    ignored whatever they hold. *)
Theorem parse_manifest_total_on_records :
  forall (index0 : dict) (text : pystr),
    (forall line, In line (readlines text) ->
       line_qualifies line = true -> record_complete line = true) ->
    exists index archs, parse_manifest index0 text = Ok (index, archs).
Proof.
  intros index0 text H. unfold parse_manifest.
  destruct (parse_lines_complete (readlines text) (index0, []) H)
    as [[index archs] E].
  exists index, archs. exact E.
Qed.

Lemma parse_manifest_total_on_records_witness :
  (forall line, In line (readlines release_manifest) ->
     line_qualifies line = true -> record_complete line = true)
  /\ exists index archs,
       parse_manifest [] release_manifest = Ok (index, archs).
Proof.
  assert (H : forall line, In line (readlines release_manifest) ->
                line_qualifies line = true -> record_complete line = true).
  { intros line Hin Q.
    repeat (destruct Hin as [<- | Hin]; [vm_compute in Q |- *; congruence|]).
    destruct Hin. }
  split; [exact H|].
  exact (parse_manifest_total_on_records [] release_manifest H).
Defined.

(** On the other manifests the parser raises IndexError. *)
Lemma parse_manifest_raises_on_incomplete (index0 : dict) (text : pystr) :
  (exists line, In line (readlines text)
     /\ line_qualifies line = true /\ record_complete line = false) ->
  parse_manifest index0 text = Raise IndexError.
Proof.
  intros (line & Hin & Q & C). unfold parse_manifest.
  apply (parse_lines_incomplete _ _ line Hin Q C).
Qed.

(** C5 fails on the code. The loop filters the lines with its two tests
    and then reads the second token and the third piece of the file name
    without a test of its own. A line of one token that has 40 bytes and
    ends with [.deb], and a line whose file name has two pieces between
    underscores, pass both tests; the parser then reads what is not
    there, raises IndexError on these manifests and returns no index. *)
Lemma parse_manifest_raises :
  line_qualifies one_token_manifest = true
  /\ length (split_ws one_token_manifest) = 1
  /\ parse_manifest [] one_token_manifest = Raise IndexError
  /\ line_qualifies two_piece_manifest = true
  /\ nth_error (split_ws two_piece_manifest) 1 = Some (lit "a_b.deb")
  /\ length (split_char (chr "_") (lit "a_b.deb")) = 2
  /\ parse_manifest [] two_piece_manifest = Raise IndexError.
Proof. repeat split; vm_compute; reflexivity. Qed.

(** ** The flavor of a file name *)

Lemma split_char_length (c : pychar) (s : pystr) :
  length (split_char c s) = S (count_char c s).
Proof.
  unfold count_char. induction s as [|x s IH]; [reflexivity|].
  cbn [split_char filter]. rewrite (N.eqb_sym c x).
  destruct (x =? c)%N.
  - cbn [length]. rewrite IH. reflexivity.
  - pose proof (split_char_not_nil c s) as NE.
    destruct (split_char c s) as [|t ts]; [contradiction|].
    cbn [length] in *. exact IH.
Qed.

Lemma count_char_In (c : pychar) (s : pystr) :
  0 < count_char c s -> In c s.
Proof.
  unfold count_char. intros H.
  destruct (filter (N.eqb c) s) as [|x r] eqn:F; [simpl in H; lia|].
  assert (Hx : In x (filter (N.eqb c) s)) by (rewrite F; left; reflexivity).
  apply filter_In in Hx. destruct Hx as [Hx E]. apply N.eqb_eq in E.
  subst; exact Hx.
Qed.

(** With three pieces between underscores there is an underscore after
    the first character. *)
Lemma underscore_after_first (f : pystr) :
  (3 <=? length (split_char (chr "_") f)) = true ->
  In (chr "_") (skipn 1 f).
Proof.
  rewrite Nat.leb_le, split_char_length. intros H.
  destruct f as [|x f']; [unfold count_char in H; simpl in H; lia|].
  cbn [skipn]. apply count_char_In. unfold count_char in *.
  cbn [filter] in H. destruct (chr "_" =? x)%N; cbn [length] in H; lia.
Qed.

(** [str.index] for one character: where it first occurs. *)
Lemma find_single (c : pychar) (s : pystr) :
  In c s ->
  exists pre post, s = pre ++ c :: post /\ ~ In c pre
                   /\ find [c] s = Some (length pre).
Proof.
  induction s as [|x s IH]; [intros []|]. intros Hin.
  cbn [find startswith]. destruct (x =? c)%N eqn:X.
  - apply N.eqb_eq in X. subst x. exists [], s. simpl. auto.
  - apply N.eqb_neq in X. destruct Hin as [E | Hin]; [contradiction|].
    destruct (IH Hin) as (pre & post & E & Hpre & F).
    exists (x :: pre), post. rewrite F, E. cbn [andb]. repeat split.
    intros [H | H]; [apply X; exact H | exact (Hpre H)].
Qed.

Lemma find_nth_loop_few (s : pystr) (char : pychar) (nthpos : nat) :
  forall index count,
  count + count_char char s < nthpos ->
  find_nth_loop s char nthpos index count = 0.
Proof.
  unfold count_char.
  induction s as [|x s IH]; intros index count H; [reflexivity|].
  cbn [find_nth_loop]. cbn [filter] in H. rewrite (N.eqb_sym char x) in H.
  destruct (x =? char)%N.
  - cbn [length] in H. destruct (S count =? nthpos) eqn:E.
    + apply Nat.eqb_eq in E. lia.
    + apply IH. lia.
  - apply IH. exact H.
Qed.

Lemma find_position_few (f : pystr) (char : pychar) (nthpos : nat) :
  count_char char f < nthpos ->
  find_position_of_nth_string_occurence f char nthpos = 0.
Proof.
  intros H. unfold find_position_of_nth_string_occurence.
  destruct (strlen_unicode f =? 0); [reflexivity|].
  apply find_nth_loop_few. exact H.
Qed.

Lemma parse_line_three_pieces (st st' : parsed) (line : pystr) :
  parse_line st line = Ok st' ->
  Forall three_pieces (map snd (fst st)) ->
  Forall three_pieces (map snd (fst st')).
Proof.
  destruct st as [idx archs]. intros H Hall.
  destruct (line_qualifies line) eqn:Q.
  - rewrite (parse_line_keep idx archs line Q) in H.
    destruct (split_ws line) as [|h [|f r]]; try discriminate.
    destruct (arch_segment f) as [a|] eqn:A; [|discriminate].
    inversion H; subst. cbn [fst] in *.
    apply Forall_forall. intros v Hv. apply in_map_iff in Hv.
    destruct Hv as ([k v'] & <- & Hin). cbn [snd].
    apply dict_set_In in Hin. destruct Hin as [Hin | E].
    + rewrite Forall_forall in Hall. apply Hall.
      apply in_map_iff. exists (k, v'). auto.
    + inversion E; subst. apply arch_segment_complete. eauto.
  - rewrite (parse_line_skip _ line Q) in H. inversion H; subst. exact Hall.
Qed.

Lemma parse_lines_three_pieces (lines : list pystr) :
  forall st st',
  parse_lines st lines = Ok st' ->
  Forall three_pieces (map snd (fst st)) ->
  Forall three_pieces (map snd (fst st')).
Proof.
  induction lines as [|l ls IH]; intros st st' H Hall.
  - inversion H; subst. exact Hall.
  - cbn [parse_lines] in H. destruct (parse_line st l) as [st1|e] eqn:P;
      [|discriminate].
    cbn [rbind] in H. apply (IH st1 st' H).
    apply (parse_line_three_pieces st st1 l P Hall).
Qed.

(** C6, as amended. For a file name of the index that has no fourth [-],
    the position search returns 0, so the extraction starts at position
    1: the flavor is what stands between the first character of the
    name and the first underscore after it, and the extraction does not
    raise. *)
Theorem flavor_without_fourth_dash :
  forall (text : pystr) (index : dict) (archs : list pystr) (h f : pystr),
    parse_manifest [] text = Ok (index, archs) ->
    In (h, f) index ->
    count_char (chr "-") f < 4 ->
    find_position_of_nth_string_occurence f (chr "-") 4 = 0
    /\ exists flavor rest,
         extract_flavor f = Ok flavor
         /\ skipn 1 f = flavor ++ chr "_" :: rest
         /\ ~ In (chr "_") flavor.
Proof.
  intros text index archs h f H Hin Hc.
  pose proof (find_position_few f (chr "-") 4 Hc) as P. split; [exact P|].
  assert (T : three_pieces f).
  { pose proof (parse_lines_three_pieces _ _ _ H (Forall_nil _)) as A.
    cbn [fst] in A. rewrite Forall_forall in A. apply A.
    apply in_map_iff. exists (h, f). auto. }
  apply underscore_after_first in T.
  destruct (find_single _ _ T) as (pre & post & E & Hpre & F).
  exists pre, post. unfold extract_flavor. rewrite P. cbn [Nat.add].
  unfold get_string_index. change (lit "_") with [chr "_"]. rewrite F.
  cbn [rbind]. repeat split; try assumption.
  rewrite E, firstn_app, firstn_all, Nat.sub_diag. cbn [firstn].
  rewrite app_nil_r. reflexivity.
Qed.

Lemma flavor_without_fourth_dash_witness :
  find_position_of_nth_string_occurence dashless_file (chr "-") 4 = 0
  /\ exists flavor rest,
       extract_flavor dashless_file = Ok flavor
       /\ skipn 1 dashless_file = flavor ++ chr "_" :: rest
       /\ ~ In (chr "_") flavor.
Proof.
  apply (flavor_without_fourth_dash dashless_manifest
           [(digest_a, dashless_file)] [lit "amd64"] digest_a dashless_file).
  - vm_compute. reflexivity.
  - left. reflexivity.
  - vm_compute. lia.
Defined.

(** C6, as stated, fails: the extraction adds one to the position it is
    given, so without a fourth [-] the flavor starts at position 1, not
    at position 0. The flavor of this file name, which has one [-], is
    not a beginning of the name. *)
Lemma flavor_starts_at_one :
  count_char (chr "-") dashless_file = 1
  /\ find_position_of_nth_string_occurence dashless_file (chr "-") 4 = 0
  /\ extract_flavor dashless_file = Ok (lit "inux-image")
  /\ ~ is_prefix (lit "inux-image") (skipn 0 dashless_file)
  /\ is_prefix (lit "inux-image") (skipn 1 dashless_file).
Proof.
  split; [reflexivity|]. split; [reflexivity|].
  split; [vm_compute; reflexivity|]. split.
  - intros [r H]. vm_compute in H. discriminate H.
  - exists (lit "_4.9.5_amd64.deb"). vm_compute. reflexivity.
Qed.

(** ** Manifests made of records *)

Lemma tokens_app_no_space (t rest : pystr) :
  no_space t = true ->
  tokens (t ++ rest) = (t ++ fst (tokens rest), snd (tokens rest)).
Proof.
  induction t as [|c t IH]; intros H.
  - cbn [app]. destruct (tokens rest); reflexivity.
  - cbn [no_space forallb] in H. apply andb_true_iff in H.
    destruct H as [Hc Ht]. apply negb_true_iff in Hc.
    cbn [app]. rewrite tokens_cons, Hc, (IH Ht). reflexivity.
Qed.

Lemma split_ws_record_line (d f : pystr) :
  is_token d -> is_token f -> split_ws (record_line d f) = [d; f].
Proof.
  intros [Dn Ds] [Fn Fs]. unfold record_line, split_ws.
  rewrite (tokens_app_no_space d _ Ds).
  change (lit "  " ++ f ++ nl) with (32%N :: 32%N :: f ++ nl).
  rewrite (tokens_cons 32%N). change (is_space 32%N) with true. cbv iota.
  cbn [fst snd]. rewrite split_ws_cons_space by reflexivity.
  unfold split_ws. rewrite (tokens_app_no_space f nl Fs).
  change (tokens nl) with (@nil pychar, @nil pystr). cbn [fst snd].
  rewrite !app_nil_r. destruct f; [contradiction|]. destruct d; [contradiction|].
  reflexivity.
Qed.

Lemma readlines_line (body rest : pystr) :
  ~ In 10%N body ->
  readlines (body ++ 10%N :: rest) = (body ++ [10%N]) :: readlines rest.
Proof.
  induction body as [|c body IH]; intros H; [reflexivity|].
  cbn [app readlines]. destruct (c =? 10)%N eqn:C.
  - apply N.eqb_eq in C. exfalso. apply H. left. exact C.
  - rewrite IH by (intros X; apply H; right; exact X). reflexivity.
Qed.

Lemma token_no_newline (s : pystr) : is_token s -> ~ In 10%N s.
Proof.
  intros [_ S] H. pose proof (in_no_space s 10%N S H) as X. discriminate X.
Qed.

Lemma readlines_record_line (d f rest : pystr) :
  is_token d -> is_token f ->
  readlines (record_line d f ++ rest) = record_line d f :: readlines rest.
Proof.
  intros D F. unfold record_line, nl.
  replace ((d ++ lit "  " ++ f ++ [10%N]) ++ rest)
    with ((d ++ lit "  " ++ f) ++ 10%N :: rest)
    by (rewrite <- !app_assoc; reflexivity).
  rewrite readlines_line.
  - rewrite <- !app_assoc. reflexivity.
  - intros H. apply in_app_or in H. destruct H as [H | H];
      [exact (token_no_newline d D H)|].
    apply in_app_or in H. destruct H as [H | H];
      [|exact (token_no_newline f F H)].
    vm_compute in H. destruct H as [H | [H | []]]; discriminate H.
Qed.

(** The parser on a record line: the record goes to the index when the
    digest has 40 bytes. *)
Lemma parse_line_record (idx : dict) (archs : list pystr) (d f a : pystr) :
  is_token d -> is_token f ->
  ends_with_deb f = true -> arch_segment f = Some a ->
  parse_line (idx, archs) (record_line d f)
  = if strlen_unicode d =? 40
    then Ok (dict_set idx d f, add_arch archs a) else Ok (idx, archs).
Proof.
  intros D F Deb A.
  assert (Q : line_qualifies (record_line d f) = (strlen_unicode d =? 40)).
  { unfold line_qualifies, last_token, first_token.
    rewrite (split_ws_record_line d f D F). cbn [last hd]. rewrite Deb.
    reflexivity. }
  destruct (strlen_unicode d =? 40) eqn:L.
  - rewrite (parse_line_keep idx archs _ Q),
      (split_ws_record_line d f D F), A. reflexivity.
  - apply parse_line_skip. exact Q.
Qed.

Lemma dict_set_new (idx : dict) (k v : pystr) :
  ~ In k (map fst idx) -> dict_set idx k v = idx ++ [(k, v)].
Proof.
  induction idx as [|[k' v'] idx IH]; intros H; [reflexivity|].
  cbn [dict_set]. destruct (str_eqb k' k) eqn:K.
  - apply str_eqb_eq in K. exfalso. apply H. left. exact K.
  - cbn [app]. f_equal. apply IH. intros X. apply H. right. exact X.
Qed.

(** The round of the sample release. With the file names of the sample,
    two amd64 packages of the generic flavor, the headers of all
    architectures and a fourth line with a digest of 39 characters,
    whatever the digests are as long as the first three differ: the
    index has exactly the three entries, the architectures are exactly
    [amd64], its flavors exactly [generic], and exactly the three
    package files are selected and fetched, after the CHECKSUMS file. *)
Theorem release_end_to_end :
  forall d1 d2 d3 d4 : pystr,
    is_token d1 -> is_token d2 -> is_token d3 -> is_token d4 ->
    strlen_unicode d1 = 40 -> strlen_unicode d2 = 40 ->
    strlen_unicode d3 = 40 -> strlen_unicode d4 = 39 ->
    d1 <> d2 -> d1 <> d3 -> d2 <> d3 ->
    let text :=
      record_line d1 headers_generic ++ record_line d2 image_generic
      ++ record_line d3 headers_all ++ record_line d4 image_lowlatency in
    let index :=
      [(d1, headers_generic); (d2, image_generic); (d3, headers_all)] in
    parse_manifest [] text = Ok (index, [lit "amd64"])
    /\ length index = 3
    /\ derive_flavors index (lit "amd64") = Ok [lit "generic"]
    /\ selected_files index (lit "amd64") (lit "generic")
       = [headers_generic; image_generic; headers_all]
    /\ downloads (trace (fetch_all kind_world (lit "v4.9.5") download_dir
                           (lit "amd64") (lit "generic") index))
       = paths_in download_dir
           [CHECKSUMS_FILE; headers_generic; image_generic; headers_all]
    /\ outcome (fetch_all kind_world (lit "v4.9.5") download_dir
                  (lit "amd64") (lit "generic") index)
       = Ok (paths_in download_dir
               [CHECKSUMS_FILE; headers_generic; image_generic; headers_all]).
Proof.
  intros d1 d2 d3 d4 T1 T2 T3 T4 L1 L2 L3 L4 N12 N13 N23 text index.
  assert (F : forall f, In f [headers_generic; image_generic; headers_all;
                              image_lowlatency] -> is_token f).
  { intros f [<- | [<- | [<- | [<- | []]]]]; split;
      solve [discriminate | vm_compute; reflexivity]. }
  split.
  { unfold parse_manifest, text.
    rewrite readlines_record_line, readlines_record_line,
      readlines_record_line by (first [assumption | apply F; simpl; tauto]).
    replace (record_line d4 image_lowlatency)
      with (record_line d4 image_lowlatency ++ []) by apply app_nil_r.
    rewrite readlines_record_line by (first [assumption | apply F; simpl; tauto]).
    cbn [readlines parse_lines].
    rewrite (parse_line_record [] [] d1 headers_generic (lit "amd64"));
      [|assumption | apply F; simpl; tauto | vm_compute; reflexivity ..].
    rewrite L1. cbn [Nat.eqb rbind].
    rewrite dict_set_new by (simpl; tauto).
    rewrite (parse_line_record _ _ d2 image_generic (lit "amd64"));
      [|assumption | apply F; simpl; tauto | vm_compute; reflexivity ..].
    rewrite L2. cbn [Nat.eqb rbind].
    rewrite dict_set_new by (simpl; intuition congruence).
    rewrite (parse_line_record _ _ d3 headers_all (lit "all"));
      [|assumption | apply F; simpl; tauto | vm_compute; reflexivity ..].
    rewrite L3. cbn [Nat.eqb rbind].
    rewrite dict_set_new by (simpl; intuition congruence).
    rewrite (parse_line_record _ _ d4 image_lowlatency (lit "amd64"));
      [|assumption | apply F; simpl; tauto | vm_compute; reflexivity ..].
    rewrite L4. cbn [Nat.eqb rbind]. reflexivity. }
  split; [reflexivity|].
  split; [vm_compute; reflexivity|].
  split; [vm_compute; reflexivity|].
  split; vm_compute; reflexivity.
Qed.

Lemma release_end_to_end_witness :
  parse_manifest [] release_manifest = Ok (release_index, [lit "amd64"])
  /\ length release_index = 3
  /\ derive_flavors release_index (lit "amd64") = Ok [lit "generic"]
  /\ selected_files release_index (lit "amd64") (lit "generic")
     = [headers_generic; image_generic; headers_all]
  /\ downloads (trace (fetch_all kind_world (lit "v4.9.5") download_dir
                         (lit "amd64") (lit "generic") release_index))
     = paths_in download_dir
         [CHECKSUMS_FILE; headers_generic; image_generic; headers_all]
  /\ outcome (fetch_all kind_world (lit "v4.9.5") download_dir
                (lit "amd64") (lit "generic") release_index)
     = Ok (paths_in download_dir
             [CHECKSUMS_FILE; headers_generic; image_generic; headers_all]).
Proof.
  apply (release_end_to_end digest_a digest_b digest_c digest_short);
    try (split; [discriminate | vm_compute; reflexivity]);
    try (vm_compute; reflexivity);
    vm_compute; discriminate.
Defined.

(** The download loop selects names that end with [.deb] in small
    letters only. *)
Lemma selected_deb (arch flavor f : pystr) :
  selected arch flavor f = true -> endswith f (lit ".deb") = true.
Proof.
  unfold selected. rewrite orb_true_iff, andb_true_iff. intros H.
  apply endswith_iff.
  destruct H as [H | [H _]]; apply endswith_iff in H; destruct H as [p ->].
  - exists (p ++ lit "_all"). rewrite <- app_assoc. reflexivity.
  - exists (p ++ lit "_" ++ arch). rewrite <- !app_assoc. reflexivity.
Qed.

(** C7 fails on the code. The scenario holds for the file names of the
    sample, not for every manifest of its kind. The parser takes a line
    for a package when it ends with [.deb] in any case, and the download
    loop tests the end of the name in small letters: with the generic
    image named [..._amd64.DEB] the index has the three entries, the
    architectures are [amd64] and the flavors [generic], but two package
    files are selected and fetched, not three. The flavor is cut after
    the fourth [-]: with the generic image named
    [linux-image-unsigned-...-generic_..._amd64.deb] the flavors of
    amd64 are [generic] and [040905-generic], not one, and either of
    them selects the same three files. *)
Theorem release_names_decide_the_round :
  line_qualifies (record_line digest_b image_generic_upper) = true
  /\ parse_manifest [] upper_manifest = Ok (upper_index, [lit "amd64"])
  /\ length upper_index = 3
  /\ derive_flavors upper_index (lit "amd64") = Ok [lit "generic"]
  /\ selected_files upper_index (lit "amd64") (lit "generic")
     = [headers_generic; headers_all]
  /\ downloads (trace (fetch_all kind_world (lit "v4.9.5") download_dir
                         (lit "amd64") (lit "generic") upper_index))
     = paths_in download_dir [CHECKSUMS_FILE; headers_generic; headers_all]
  /\ (forall arch flavor f,
        selected arch flavor f = true -> endswith f (lit ".deb") = true)
  /\ parse_manifest [] unsigned_manifest
     = Ok (unsigned_index, [lit "amd64"])
  /\ length unsigned_index = 3
  /\ derive_flavors unsigned_index (lit "amd64")
     = Ok [lit "generic"; lit "040905-generic"]
  /\ selected_files unsigned_index (lit "amd64") (lit "generic")
     = [headers_generic; image_unsigned; headers_all]
  /\ selected_files unsigned_index (lit "amd64") (lit "040905-generic")
     = [headers_generic; image_unsigned; headers_all].
Proof.
  split; [vm_compute; reflexivity|]. split; [vm_compute; reflexivity|].
  split; [reflexivity|]. split; [vm_compute; reflexivity|].
  split; [vm_compute; reflexivity|]. split; [vm_compute; reflexivity|].
  split; [exact selected_deb|].
  split; [vm_compute; reflexivity|]. split; [reflexivity|].
  split; [vm_compute; reflexivity|].
  split; vm_compute; reflexivity.
Qed.

(** ** The flavors of an architecture *)

(** What the derivation does guarantee: every flavor it returns is the
    flavor of a file of the index whose name holds the chosen
    architecture somewhere and does not hold [_all.deb]. *)
Lemma flavor_loop_origin (arch : pystr) (items : dict) :
  forall flavors result,
  flavor_loop arch flavors items = Ok result ->
  forall x, In x result ->
  In x flavors
  \/ exists h f, In (h, f) items /\ flavor_candidate arch f = true
                 /\ extract_flavor f = Ok x.
Proof.
  induction items as [|[h f] rest IH]; intros flavors result H x Hx.
  - inversion H; subst. left; exact Hx.
  - cbn [flavor_loop] in H.
    destruct (flavor_step arch flavors (h, f)) as [fl|e] eqn:S;
      [|discriminate].
    cbn [rbind] in H.
    destruct (IH fl result H x Hx) as [Hin | (h' & f' & Hin & C & X)].
    + unfold flavor_step in S. cbn [snd] in S.
      destruct (flavor_candidate arch f) eqn:C.
      * destruct (extract_flavor f) as [y|e] eqn:X; [|discriminate].
        cbn [rbind] in S.
        destruct (negb (list_contains y flavors)); inversion S; subst;
          [|left; exact Hin].
        apply in_app_or in Hin. destruct Hin as [Hin | [<- | []]];
          [left; exact Hin|].
        right. exists h, f. split; [left; reflexivity|]. split; [exact C|exact X].
      * inversion S; subst. left; exact Hin.
    + right. exists h', f'. split; [right; exact Hin|]. split; [exact C|exact X].
Qed.

Lemma derive_flavors_origin (index : dict) (arch : pystr)
    (flavors : list pystr) :
  derive_flavors index arch = Ok flavors ->
  forall x, In x flavors ->
  exists h f, In (h, f) index /\ flavor_candidate arch f = true
              /\ extract_flavor f = Ok x.
Proof.
  intros H x Hx.
  destruct (flavor_loop_origin arch index [] flavors H x Hx) as [[] | R].
  exact R.
Qed.

(** C8 fails on the code. The derivation admits a file when the chosen
    architecture occurs anywhere in its name; the download loop tests the
    architecture segment. For the architectures [arm] and [armhf] the
    flavors of [arm] include [lowlatency], which only an [armhf] file
    has, and no file is selected for [arm] with that flavor. *)
Theorem flavors_of_arm_include_armhf :
  parse_manifest [] arm_manifest = Ok (arm_index, [lit "arm"; lit "armhf"])
  /\ derive_flavors arm_index (lit "arm")
     = Ok [lit "generic"; lit "lowlatency"]
  /\ (forall h f, In (h, f) arm_index ->
        extract_flavor f = Ok (lit "lowlatency") ->
        arch_segment f = Some (lit "armhf"))
  /\ selected_files arm_index (lit "arm") (lit "lowlatency") = [].
Proof.
  split; [vm_compute; reflexivity|]. split; [vm_compute; reflexivity|].
  split; [|vm_compute; reflexivity].
  intros h f [E | [E | []]]; inversion E; subst; vm_compute;
    [discriminate | reflexivity].
Qed.

(** ** Runs *)

Lemma bind_ok {A B} (t : list event) (a : A) (f : A -> M B) :
  bind (t, Ok a) f = (t ++ trace (f a), outcome (f a)).
Proof. unfold bind, trace, outcome. destruct (f a); reflexivity. Qed.

Lemma bind_raise {A B} (t : list event) (e : exn) (f : A -> M B) :
  bind (t, Raise e) f = (t, Raise e).
Proof. reflexivity. Qed.

Lemma trace_bind {A B} (m : M A) (f : A -> M B) :
  trace (bind m f) =
  trace m ++ match outcome m with Ok a => trace (f a) | Raise _ => [] end.
Proof.
  destruct m as [t [a|e]].
  - rewrite bind_ok. reflexivity.
  - rewrite bind_raise. unfold trace, outcome; simpl. rewrite app_nil_r.
    reflexivity.
Qed.

Lemma outcome_bind {A B} (m : M A) (f : A -> M B) :
  outcome (bind m f) =
  match outcome m with Ok a => outcome (f a) | Raise e => Raise e end.
Proof.
  destruct m as [t [a|e]]; [rewrite bind_ok|rewrite bind_raise]; reflexivity.
Qed.

Lemma dpkg_calls_app (t1 t2 : list event) :
  dpkg_calls (t1 ++ t2) = dpkg_calls t1 ++ dpkg_calls t2.
Proof. apply flat_map_app. Qed.

(** ** The top level: the exit status *)

(** Whatever leaves the [try] block, [main] is left by [SystemExit(0)],
    after the events of the block, those of a handler, and the cleanup. *)
Lemma main_try_run (E : env) (body : M unit) :
  exists t,
    main_try E body = (trace body ++ t ++ [StopSpinner], Raise (SystemExit 0)).
Proof.
  unfold main_try, try_finally, try_except.
  destruct body as [t0 [[]|e]]; cbn [trace fst].
  - exists []. reflexivity.
  - destruct (main_handlers E e) as [[th rh]|].
    + exists th. cbn. rewrite app_assoc. reflexivity.
    + exists []. reflexivity.
Qed.

(** What the handlers alone would make of an exception. *)
Lemma handlers_exit_one (E : env) (t : list event) :
  exit_status (try_except (t, Raise KeyboardInterrupt) (main_handlers E)) = 1%Z
  /\ exit_status (try_except (t, Raise WebFileDownloadError) (main_handlers E))
     = 1%Z
  /\ (forall e, e = IndexError \/ e = ValueError \/ e = AttributeError
                \/ e = TypeError ->
        exit_status (try_except (t, Raise e) (main_handlers E)) = 1%Z).
Proof.
  repeat split.
  intros e [-> | [-> | [-> | ->]]]; unfold try_except, main_handlers;
    destruct (IS_PYTHON3 E); reflexivity.
Qed.

(** C10. Once the [try] block of main is entered, the exit status is 0
    however the block is left: by returning, by [exit_script] with any
    code (an abort at a prompt, an empty release), by KeyboardInterrupt,
    by WebFileDownloadError or by any other exception. The [finally]
    clause ends in [exit_script(0)], whose SystemExit replaces what was
    in flight. *)
Theorem exit_status_is_zero :
  forall (E : env) (body : M unit),
    exit_status (main_try E body) = 0%Z
    /\ outcome (main_try E body) = Raise (SystemExit 0)
    /\ exists t, trace (main_try E body) = trace body ++ t ++ [StopSpinner].
Proof.
  intros E body. destruct (main_try_run E body) as [t H]. rewrite H.
  repeat split. exists t. reflexivity.
Qed.

(** An IndexError of the parser, a WebFileDownloadError, an abort at a
    prompt and the end of an empty release, inside the [try] block. *)
Example exit_status_of_faults :
  exit_status (main_try kind_world
                 (bind (lift (parse_manifest [] one_token_manifest))
                    (fun _ => ret tt))) = 0%Z
  /\ exit_status (main_try kind_world (raise WebFileDownloadError)) = 0%Z
  /\ exit_status (main_try kind_world
                    (bind (request_user_yes_no_abort_script Abort)
                       (fun _ => ret tt))) = 0%Z
  /\ exit_status (main_try kind_world (exit_script 0)) = 0%Z.
Proof. repeat split; vm_compute; reflexivity. Qed.

(** C3 fails on the code. Left to themselves, the handlers of
    KeyboardInterrupt and of Exception end in [exit_script(1)]; but the
    [finally] clause of the same statement ends in [exit_script(0)], and
    the process exits with status 0 after an interrupt and after an
    internal fault. *)
Theorem interrupt_and_fault_exit_zero :
  forall (E : env) (t : list event),
    exit_status (try_except (t, Raise KeyboardInterrupt) (main_handlers E))
      = 1%Z
    /\ exit_status (main_try E (t, Raise KeyboardInterrupt)) = 0%Z
    /\ exit_status (try_except (t, Raise IndexError) (main_handlers E)) = 1%Z
    /\ exit_status (main_try E (t, Raise IndexError)) = 0%Z
    /\ trace (main_try kind_world (raise KeyboardInterrupt))
       = [StopSpinner; Print MsgManuallyAborted; StopSpinner].
Proof.
  intros E t. destruct (handlers_exit_one E t) as (K & _ & F).
  split; [exact K|]. split.
  { destruct (main_try_run E (t, Raise KeyboardInterrupt)) as [t' H].
    rewrite H. reflexivity. }
  split; [apply F; auto|]. split.
  { destruct (main_try_run E (t, Raise IndexError)) as [t' H].
    rewrite H. reflexivity. }
  reflexivity.
Qed.

(** ** After the downloads: the test for nothing downloaded *)

Lemma path_not_checksums (dir n : pystr) : dir ++ sep ++ n <> CHECKSUMS_FILE.
Proof.
  intros H. assert (S : In 47%N (dir ++ sep ++ n)).
  { apply in_or_app. right. left. reflexivity. }
  rewrite H in S. vm_compute in S.
  repeat (destruct S as [S | S]; [discriminate S|]). exact S.
Qed.

(** The list of downloaded files holds paths, so the name CHECKSUMS is
    never an element of it. *)
Lemma checksums_not_listed (dir : pystr) (names : list pystr) :
  list_contains CHECKSUMS_FILE (paths_in dir names) = false.
Proof.
  destruct (list_contains CHECKSUMS_FILE (paths_in dir names)) eqn:L;
    [|reflexivity].
  apply list_contains_In in L. unfold paths_in in L. apply in_map_iff in L.
  destruct L as (n & E & _). exfalso. exact (path_not_checksums dir n E).
Qed.

Lemma nothing_downloaded_paths (dir : pystr) (names : list pystr) :
  nothing_downloaded (paths_in dir names) = (length names =? 0).
Proof.
  unfold nothing_downloaded. rewrite checksums_not_listed, andb_false_r,
    orb_false_r. unfold paths_in. rewrite length_map. reflexivity.
Qed.

(** C1 fails on the code for the list that holds the CHECKSUMS file only.
    The test looks for the name CHECKSUMS among full paths and is false
    for every list of paths that is not empty. With only the CHECKSUMS
    file downloaded, the run does not print that nothing was downloaded
    and does not end: it lists the file and, as root, offers the
    installation, probes the lock, installs nothing and offers a reboot.
    For the empty list the run prints the message and leaves by
    [exit_script(0)]. *)
Theorem checksums_only_offers_installation :
  (forall dir names,
     nothing_downloaded (paths_in dir names) = (length names =? 0))
  /\ outcome (fetch_all stale_world (lit "v4.9.5") download_dir
                (lit "amd64") (lit "generic") release_index)
     = Ok (paths_in download_dir [CHECKSUMS_FILE])
  /\ post_download stale_world willing_user
       (paths_in download_dir [CHECKSUMS_FILE])
     = ([Print MsgDownloadedHeader; Print (MsgDownloadedFile CHECKSUMS_FILE);
         Print MsgInstallOffer; Ask; ProbeLock; Print MsgRebootOffer; Ask],
        Ok tt)
  /\ post_download plain_world willing_user
       (paths_in download_dir [CHECKSUMS_FILE])
     = ([Print MsgDownloadedHeader; Print (MsgDownloadedFile CHECKSUMS_FILE)],
        Ok tt)
  /\ (forall E U,
        post_download E U []
        = ([Print MsgDownloadedHeader; Print MsgNoKernelFiles],
           Raise (SystemExit 0))).
Proof.
  split; [exact nothing_downloaded_paths|].
  split; [vm_compute; reflexivity|].
  split; [vm_compute; reflexivity|].
  split; [vm_compute; reflexivity|].
  intros E U. reflexivity.
Qed.

(** ** The download loop *)

Section Downloads.

Variable E : env.
Variables version_dir dir : pystr.

(** Without a digest for the file, the turn of the loop ends in an
    AttributeError, whatever the download did: from
    [local_sha1_checksum.lower()], or before that, under Python 3, from
    [get_file_size]. *)
Lemma fetch_file_without_digest (downloaded : list pystr) (h f : pystr) :
  sha1sum_output E (dir ++ sep ++ f) = None ->
  outcome (fetch_file E version_dir dir downloaded h f) = Raise AttributeError.
Proof.
  intros D. unfold fetch_file, report_download, get_file_size.
  rewrite D.
  destruct (builtin_downloader E), (getsize E (dir ++ sep ++ f)),
    (IS_PYTHON3 E); reflexivity.
Qed.

(** With a digest for every file, a turn of the loop returns, with the
    file added to the list when its download succeeded. *)
Lemma fetch_file_with_digest (downloaded : list pystr) (h f : pystr) :
  answers E ->
  outcome (fetch_file E version_dir dir downloaded h f)
    = Ok (if got E version_dir dir f then downloaded ++ [dir ++ sep ++ f]
          else downloaded)
  /\ downloads (trace (fetch_file E version_dir dir downloaded h f))
     = [dir ++ sep ++ f].
Proof.
  intros [D G]. unfold fetch_file, report_download, get_file_size, got.
  specialize (D (dir ++ sep ++ f)).
  destruct (sha1sum_output E (dir ++ sep ++ f)) as [d|]; [|contradiction].
  destruct (IS_PYTHON3 E) eqn:P.
  - specialize (G eq_refl (dir ++ sep ++ f)).
    destruct (getsize E (dir ++ sep ++ f)); [|contradiction].
    destruct (builtin_downloader E); split; reflexivity.
  - destruct (getsize E (dir ++ sep ++ f)), (builtin_downloader E);
      split; reflexivity.
Qed.

Lemma downloads_app (t1 t2 : list event) :
  downloads (t1 ++ t2) = downloads t1 ++ downloads t2.
Proof. apply flat_map_app. Qed.

(** With such a digest tool the loop visits every selected file, and
    the list it returns holds those whose download succeeded: a failed
    download is left out and the loop goes on. *)
Lemma fetch_loop_goes_on (arch flavor : pystr) (items : dict) :
  answers E ->
  forall downloaded,
  outcome (fetch_loop E version_dir dir arch flavor items downloaded)
    = Ok (downloaded
          ++ paths_in dir (filter (got E version_dir dir)
                             (selected_files items arch flavor)))
  /\ downloads (trace (fetch_loop E version_dir dir arch flavor items
                         downloaded))
     = paths_in dir (selected_files items arch flavor).
Proof.
  intros A. unfold selected_files.
  induction items as [|[h f] rest IH]; intros downloaded.
  - cbn. rewrite app_nil_r. split; reflexivity.
  - cbn [fetch_loop map snd filter].
    destruct (selected arch flavor f) eqn:S; [|apply IH].
    destruct (fetch_file_with_digest downloaded h f A)
      as [O T].
    rewrite outcome_bind, trace_bind, O, downloads_app, T.
    cbn [filter]. destruct (got E version_dir dir f).
    + destruct (IH (downloaded ++ [dir ++ sep ++ f])) as [O' T'].
      rewrite O', T'. cbn [paths_in map]. rewrite <- app_assoc.
      split; reflexivity.
    + destruct (IH downloaded) as [O' T']. rewrite O', T'. split; reflexivity.
Qed.

(** *** What the download loop puts on the list *)

Lemma selected_downloadable (arch flavor f : pystr) :
  selected arch flavor f = true -> downloadable f.
Proof.
  unfold selected. rewrite orb_true_iff, andb_true_iff. intros H. right.
  apply endswith_iff.
  destruct H as [H | [H _]]; apply endswith_iff in H; destruct H as [p ->].
  - exists (p ++ lit "_all"). rewrite <- app_assoc. reflexivity.
  - exists (p ++ lit "_" ++ arch). rewrite <- !app_assoc. reflexivity.
Qed.

Lemma fetch_file_list (downloaded : list pystr) (h f : pystr)
    (l : list pystr) :
  outcome (fetch_file E version_dir dir downloaded h f) = Ok l ->
  l = downloaded \/ l = downloaded ++ [dir ++ sep ++ f].
Proof.
  unfold fetch_file, report_download, get_file_size.
  destruct (download_file E _ (dir ++ sep ++ f)),
    (builtin_downloader E), (getsize E (dir ++ sep ++ f)), (IS_PYTHON3 E),
    (sha1sum_output E (dir ++ sep ++ f)); cbn;
    intros H; inversion H; auto.
Qed.

Lemma fetch_loop_list (arch flavor : pystr) (items : dict) :
  forall names l,
  (forall n, In n names -> downloadable n) ->
  outcome (fetch_loop E version_dir dir arch flavor items (paths_in dir names))
    = Ok l ->
  exists names', l = paths_in dir names'
                 /\ forall n, In n names' -> downloadable n.
Proof.
  induction items as [|[h f] rest IH]; intros names l D H.
  - inversion H; subst. exists names. auto.
  - cbn [fetch_loop] in H. destruct (selected arch flavor f) eqn:S;
      [|apply (IH names l D H)].
    rewrite outcome_bind in H.
    destruct (outcome (fetch_file E version_dir dir (paths_in dir names) h f))
      as [l1|e] eqn:F; [|discriminate].
    apply fetch_file_list in F. destruct F as [-> | ->].
    + apply (IH names l D H).
    + apply (IH (names ++ [f]) l).
      * intros n Hn. apply in_app_or in Hn. destruct Hn as [Hn | [<- | []]];
          [apply D; exact Hn | apply (selected_downloadable arch flavor); exact S].
      * unfold paths_in in *. rewrite map_app. exact H.
Qed.

(** The list that the downloads of a round leave holds paths of the
    download directory, of the CHECKSUMS file and of [.deb] files. *)
Lemma fetch_all_list (arch flavor : pystr) (index : dict) (l : list pystr) :
  outcome (fetch_all E version_dir dir arch flavor index) = Ok l ->
  exists names, l = paths_in dir names
                /\ forall n, In n names -> downloadable n.
Proof.
  unfold fetch_all. rewrite outcome_bind.
  destruct (outcome (fetch_checksums E version_dir dir)) as [l0|e] eqn:C;
    [|discriminate].
  assert (exists names0, l0 = paths_in dir names0
                         /\ forall n, In n names0 -> downloadable n)
    as (names0 & -> & D0).
  { unfold fetch_checksums, report_download, get_file_size in C.
    destruct (download_file E _ (dir ++ sep ++ CHECKSUMS_FILE)),
      (builtin_downloader E), (getsize E (dir ++ sep ++ CHECKSUMS_FILE)),
      (IS_PYTHON3 E); cbn in C; inversion C; subst;
      first [ exists [CHECKSUMS_FILE]; split;
              [reflexivity | intros m [<- | []]; left; reflexivity]
            | exists []; split; [reflexivity | intros m []] ]. }
  apply fetch_loop_list. exact D0.
Qed.

End Downloads.

(** C2 fails on the code. The download of the generic image fails and
    leaves no file, so the digest tool prints nothing for it: the loop
    has fetched the CHECKSUMS file and the generic headers, and ends in
    an AttributeError at the failed file, before the headers for all
    architectures are tried; under Python 2 from the digest that is
    None, under Python 3 already from [get_file_size]. The run then
    leaves main with status 0. *)
Theorem failed_download_ends_batch :
  let run := fetch_all harsh_world (lit "v4.9.5") download_dir
               (lit "amd64") (lit "generic") release_index in
  let run3 := fetch_all harsh_world_py3 (lit "v4.9.5") download_dir
                (lit "amd64") (lit "generic") release_index in
  selected_files release_index (lit "amd64") (lit "generic")
    = [headers_generic; image_generic; headers_all]
  /\ got harsh_world (lit "v4.9.5") download_dir image_generic = false
  /\ outcome run = Raise AttributeError
  /\ downloads (trace run)
     = paths_in download_dir [CHECKSUMS_FILE; headers_generic; image_generic]
  /\ In (Sha1sum (download_dir ++ sep ++ image_generic)) (trace run)
  /\ outcome run3 = Raise AttributeError
  /\ downloads (trace run3) = downloads (trace run)
  /\ ~ In (Sha1sum (download_dir ++ sep ++ image_generic)) (trace run3)
  /\ exit_status (main_try harsh_world (bind run (fun _ => ret tt))) = 0%Z.
Proof.
  repeat split; try (vm_compute; reflexivity).
  - vm_compute. tauto.
  - vm_compute. intuition discriminate.
Qed.

(** ** The order of installation *)

Lemma insert_by_len_perm (x : pystr) (l : list pystr) :
  Permutation (x :: l) (insert_by_len x l).
Proof.
  induction l as [|y l IH]; [reflexivity|]. cbn [insert_by_len].
  destruct (length x <=? length y); [reflexivity|].
  rewrite perm_swap. apply perm_skip. exact IH.
Qed.

Lemma sort_by_len_perm (l : list pystr) : Permutation l (sort_by_len l).
Proof.
  induction l as [|x l IH]; [reflexivity|]. cbn [sort_by_len fold_right].
  fold (sort_by_len l). rewrite <- insert_by_len_perm. apply perm_skip.
  exact IH.
Qed.

Lemma insert_by_len_sorted (x : pystr) (l : list pystr) :
  StronglySorted by_len l -> StronglySorted by_len (insert_by_len x l).
Proof.
  induction l as [|y l IH]; intros S.
  - repeat constructor.
  - cbn [insert_by_len]. destruct (length x <=? length y) eqn:C.
    + apply Nat.leb_le in C. constructor; [exact S|].
      inversion S as [|? ? S' F]; subst. constructor; [exact C|].
      eapply Forall_impl; [|exact F]. unfold by_len. intros; lia.
    + apply Nat.leb_gt in C. inversion S as [|? ? S' F]; subst.
      constructor; [apply IH; exact S'|].
      rewrite <- insert_by_len_perm. constructor; [unfold by_len; lia|exact F].
Qed.

Lemma sort_by_len_sorted (l : list pystr) :
  StronglySorted by_len (sort_by_len l).
Proof.
  induction l as [|x l IH]; [constructor|].
  apply insert_by_len_sorted. exact IH.
Qed.

(** The sort keeps the order of the names of one length: it is stable. *)
Lemma insert_by_len_stable (n : nat) (x : pystr) (l : list pystr) :
  filter (fun s => length s =? n) (insert_by_len x l)
  = filter (fun s => length s =? n) (x :: l).
Proof.
  induction l as [|y l IH]; [reflexivity|]. cbn [insert_by_len].
  destruct (length x <=? length y) eqn:C; [reflexivity|].
  apply Nat.leb_gt in C. cbn [filter] in *. rewrite IH.
  destruct (length x =? n) eqn:X, (length y =? n) eqn:Y; try reflexivity.
  apply Nat.eqb_eq in X. apply Nat.eqb_eq in Y. lia.
Qed.

Lemma sort_by_len_stable (n : nat) (l : list pystr) :
  filter (fun s => length s =? n) (sort_by_len l)
  = filter (fun s => length s =? n) l.
Proof.
  induction l as [|x l IH]; [reflexivity|].
  cbn [sort_by_len fold_right]. fold (sort_by_len l).
  rewrite insert_by_len_stable. cbn [filter]. rewrite IH. reflexivity.
Qed.

(** Sorting the paths of one directory sorts the names. *)
Lemma insert_by_len_paths (dir x : pystr) (l : list pystr) :
  insert_by_len (dir ++ sep ++ x) (paths_in dir l)
  = paths_in dir (insert_by_len x l).
Proof.
  induction l as [|y l IH]; [reflexivity|].
  cbn [paths_in map insert_by_len]. rewrite !length_app.
  replace (length dir + (length sep + length x)
           <=? length dir + (length sep + length y))
    with (length x <=? length y).
  - destruct (length x <=? length y); [reflexivity|].
    cbn [map]. f_equal. exact IH.
  - destruct (length x <=? length y) eqn:C; symmetry.
    + apply Nat.leb_le in C. apply Nat.leb_le. lia.
    + apply Nat.leb_gt in C. apply Nat.leb_gt. lia.
Qed.

Lemma sort_by_len_paths (dir : pystr) (names : list pystr) :
  sort_by_len (paths_in dir names) = paths_in dir (sort_by_len names).
Proof.
  induction names as [|x l IH]; [reflexivity|].
  cbn [paths_in map sort_by_len fold_right].
  fold (sort_by_len l). fold (paths_in dir l). fold (sort_by_len (paths_in dir l)).
  rewrite IH. apply insert_by_len_paths.
Qed.

(** *** [basename] *)

Lemma basename_no_slash (n : pystr) :
  existsb (N.eqb 47) n = false -> basename n = n.
Proof.
  destruct n as [|c n]; [reflexivity|]. cbn [existsb basename].
  rewrite orb_false_iff. intros [C N]. rewrite N, (N.eqb_sym c 47), C.
  reflexivity.
Qed.

Lemma basename_join (dir n : pystr) :
  basename (dir ++ sep ++ n) = basename n.
Proof.
  induction dir as [|c dir IH].
  - change ([] ++ sep ++ n) with (47%N :: n). cbn [basename].
    destruct (existsb (N.eqb 47) n) eqn:X; [reflexivity|].
    rewrite N.eqb_refl. symmetry. apply basename_no_slash. exact X.
  - cbn [app basename].
    assert (X : existsb (N.eqb 47) (dir ++ sep ++ n) = true).
    { apply existsb_exists. exists 47%N. split; [|apply N.eqb_refl].
      apply in_or_app. right. left. reflexivity. }
    rewrite X. exact IH.
Qed.

Lemma basename_suffix (n : pystr) : exists q, n = q ++ basename n.
Proof.
  induction n as [|c n IH]; [exists []; reflexivity|]. cbn [basename].
  destruct (existsb (N.eqb 47) n).
  - destruct IH as [q IH]. exists (c :: q). cbn [app]. f_equal. exact IH.
  - destruct (c =? 47)%N; [exists [c] | exists []]; reflexivity.
Qed.

(** The base name of a package file is not CHECKSUMS. *)
Lemma basename_deb (n : pystr) :
  endswith n (lit ".deb") = true -> basename n <> CHECKSUMS_FILE.
Proof.
  intros D B. apply endswith_iff in D. destruct D as [p D].
  destruct (basename_suffix n) as [q Q]. rewrite B in Q.
  assert (L : last (p ++ lit ".deb") 0%N = last (q ++ CHECKSUMS_FILE) 0%N).
  { rewrite <- D, <- Q. reflexivity. }
  change (lit ".deb") with ([46; 100; 101]%N ++ [98%N]) in L.
  change CHECKSUMS_FILE with (lit "CHECKSUM" ++ [83%N]) in L.
  rewrite !app_assoc, !last_last in L. discriminate L.
Qed.

Lemma is_package_path (dir n : pystr) :
  downloadable n ->
  negb (str_eqb (basename (dir ++ sep ++ n)) CHECKSUMS_FILE) = is_package n.
Proof.
  unfold is_package. rewrite basename_join. intros [-> | D]; [reflexivity|].
  pose proof (basename_deb n D) as B. apply str_eqb_neq in B. rewrite B.
  symmetry. apply negb_true_iff. apply str_eqb_neq. intros ->.
  vm_compute in D. discriminate.
Qed.

(** *** The calls of dpkg *)

Lemma calls_bind {A B} (m : M A) (f : A -> M B) :
  dpkg_calls (trace (bind m f)) =
  dpkg_calls (trace m)
  ++ match outcome m with
     | Ok a => dpkg_calls (trace (f a))
     | Raise _ => []
     end.
Proof.
  rewrite trace_bind, dpkg_calls_app. destruct (outcome m); reflexivity.
Qed.

Lemma emit_all_run (evs : list event) : emit_all evs = (evs, Ok tt).
Proof.
  induction evs as [|ev evs IH]; [reflexivity|].
  cbn [emit_all]. rewrite IH. reflexivity.
Qed.

Lemma prints_no_calls {A} (g : A -> message) (l : list A) :
  dpkg_calls (map (fun x => Print (g x)) l) = [].
Proof. induction l as [|x l IH]; [reflexivity|exact IH]. Qed.

Lemma request_no_calls (d : decision) :
  dpkg_calls (trace (request_user_yes_no_abort_script d)) = [].
Proof. destruct d; reflexivity. Qed.

Lemma wait_for_lock_no_calls (locks : list lock_event) :
  dpkg_calls (trace (wait_for_lock locks)) = [].
Proof.
  induction locks as [|[|d] rest IH]; try reflexivity.
  cbn [wait_for_lock]. destruct d; try reflexivity.
  unfold bind, emit, request_user_yes_no_abort_script, ret. cbn.
  destruct (wait_for_lock rest) as [t r]. exact IH.
Qed.

Lemma is_prefix_nil {A} (l : list A) : is_prefix [] l.
Proof. exists l. reflexivity. Qed.

Lemma is_prefix_cons {A} (x : A) (l1 l2 : list A) :
  is_prefix l1 l2 -> is_prefix (x :: l1) (x :: l2).
Proof. intros [r ->]. exists r. reflexivity. Qed.

Create HintDb prefix.
#[local] Hint Resolve is_prefix_nil is_prefix_cons : prefix.

Section Installation.

Variable E : env.

(** The loop hands to dpkg, in the order of the list, files whose base
    name is not CHECKSUMS: all of them, or those before the one at which
    the installation was given up. *)
Lemma install_loop_calls (files : list pystr) :
  forall locks codes errors last,
  is_prefix
    (dpkg_calls (trace (install_loop E files locks codes errors last)))
    (map (quote E) (filter not_checksums files)).
Proof.
  induction files as [|p rest IH]; intros locks codes errors last.
  - auto with prefix.
  - cbn [install_loop]. rewrite calls_bind, wait_for_lock_no_calls.
    cbn [app]. destruct (outcome (wait_for_lock locks)) as [[stop locks']|e];
      [|auto with prefix].
    destruct stop; [auto with prefix|]. cbn [filter].
    unfold not_checksums at 1.
    destruct (negb (str_eqb (basename p) CHECKSUMS_FILE)).
    + rewrite !calls_bind. cbn [emit trace outcome fst snd dpkg_calls flat_map app map].
      destruct (next_code codes) as [c codes'].
      destruct (negb (c =? 0)%Z); auto with prefix.
    + apply IH.
Qed.

(** With the lock free at every probe the loop hands all of them. *)
Lemma install_loop_free (files : list pystr) :
  forall codes errors last,
  dpkg_calls (trace (install_loop E files [] codes errors last))
    = map (quote E) (filter not_checksums files)
  /\ exists st,
       outcome (install_loop E files [] codes errors last) = Ok st
       /\ exit_installation st = false.
Proof.
  induction files as [|p rest IH]; intros codes errors last.
  - split; [reflexivity|]. eexists. split; reflexivity.
  - cbn [install_loop wait_for_lock]. rewrite calls_bind, outcome_bind.
    cbn [emit ret bind trace outcome fst snd app dpkg_calls flat_map filter].
    unfold not_checksums at 1.
    destruct (negb (str_eqb (basename p) CHECKSUMS_FILE)).
    + destruct (next_code codes) as [c codes'].
      destruct (negb (c =? 0)%Z).
      * destruct (IH codes' (S errors) c) as [C O].
        destruct (install_loop E rest [] codes' (S errors) c) as [t r].
        cbn in *. rewrite C. split; [reflexivity | exact O].
      * destruct (IH codes' errors last) as [C O].
        destruct (install_loop E rest [] codes' errors last) as [t r].
        cbn in *. rewrite C. split; [reflexivity | exact O].
    + destruct (IH codes errors last) as [C O].
      destruct (install_loop E rest [] codes errors last) as [t r].
      cbn in *. rewrite C. split; [reflexivity | exact O].
Qed.

Lemma post_download_calls (U : user) (downloaded : list pystr) :
  is_prefix (dpkg_calls (trace (post_download E U downloaded)))
    (map (quote E) (filter not_checksums (sort_by_len downloaded))).
Proof.
  unfold post_download. rewrite calls_bind.
  cbn [emit trace outcome fst snd dpkg_calls flat_map app].
  rewrite calls_bind. destruct (nothing_downloaded downloaded).
  - apply is_prefix_nil.
  - rewrite emit_all_run. cbn [trace outcome fst snd].
    rewrite prints_no_calls. cbn [app].
    destruct (geteuid E =? 0)%Z; [|apply is_prefix_nil].
    rewrite calls_bind. cbn [emit trace outcome fst snd dpkg_calls flat_map app].
    rewrite calls_bind, emit_all_run. cbn [trace outcome fst snd].
    rewrite prints_no_calls. cbn [app].
    rewrite calls_bind, request_no_calls. cbn [app].
    destruct (install_answer U);
      cbn [request_user_yes_no_abort_script bind emit ret outcome snd
           exit_script raise];
      try apply is_prefix_nil.
    change (YES_PRESSED =? YES_PRESSED) with true. cbv iota.
    rewrite calls_bind.
    match goal with |- is_prefix (_ ++ ?tail) _ => assert (T : tail = []) end.
    { destruct (outcome (install_loop E (sort_by_len downloaded)
                           (lock_events U) (dpkg_codes U) 0 0%Z)) as [st|e];
        [|reflexivity].
      destruct (negb (error_occurred st =? 0)); [reflexivity|].
      destruct (negb (exit_installation st)); [|reflexivity].
      destruct (reboot_answer U); reflexivity. }
    rewrite T, app_nil_r. apply install_loop_calls.
Qed.

(** As root, with the installation accepted and the lock free, every
    downloaded file but CHECKSUMS is handed to dpkg. *)
Lemma post_download_installs_all (U : user) (downloaded : list pystr) :
  nothing_downloaded downloaded = false ->
  geteuid E = 0%Z -> install_answer U = Yes -> lock_events U = [] ->
  dpkg_calls (trace (post_download E U downloaded))
    = map (quote E) (filter not_checksums (sort_by_len downloaded)).
Proof.
  intros N R Y L. unfold post_download. rewrite calls_bind.
  cbn [emit trace outcome fst snd dpkg_calls flat_map app].
  rewrite calls_bind, N, emit_all_run. cbn [trace outcome fst snd].
  rewrite prints_no_calls, R. cbn [app].
  change (0 =? 0)%Z with true. cbv iota.
  rewrite calls_bind. cbn [emit trace outcome fst snd dpkg_calls flat_map app].
  rewrite calls_bind, emit_all_run. cbn [trace outcome fst snd].
  rewrite prints_no_calls. cbn [app].
  rewrite calls_bind, request_no_calls, Y, L. cbn [app].
  cbn [request_user_yes_no_abort_script bind emit ret outcome snd].
  change (YES_PRESSED =? YES_PRESSED) with true. cbv iota.
  rewrite calls_bind.
  destruct (install_loop_free (sort_by_len downloaded) (dpkg_codes U) 0 0%Z)
    as (C & st & O & X).
  rewrite C, O, X.
  destruct (negb (error_occurred st =? 0)); [apply app_nil_r|].
  cbn [negb]. destruct (reboot_answer U); apply app_nil_r.
Qed.

Lemma filter_sorted (f : pystr -> bool) (l : list pystr) :
  StronglySorted by_len l -> StronglySorted by_len (filter f l).
Proof.
  induction 1 as [|x l S IH F]; [constructor|]. cbn [filter].
  destruct (f x); [|exact IH]. constructor; [exact IH|].
  rewrite Forall_forall in *. intros y Hy. apply filter_In in Hy.
  apply F. tauto.
Qed.

Lemma filter_paths (dir : pystr) (l : list pystr) :
  (forall n, In n l -> downloadable n) ->
  filter not_checksums (paths_in dir l) = paths_in dir (filter is_package l).
Proof.
  induction l as [|n l IH]; intros D; [reflexivity|].
  cbn [paths_in map filter]. unfold not_checksums at 1.
  rewrite (is_package_path dir n) by (apply D; left; reflexivity).
  fold (paths_in dir l). rewrite IH by (intros m Hm; apply D; right; exact Hm).
  destruct (is_package n); reflexivity.
Qed.

Lemma is_prefix_map {A B} (g : A -> B) (l1 : list B) (L : list A) :
  is_prefix l1 (map g L) ->
  l1 = map g (firstn (length l1) L) /\ is_prefix (firstn (length l1) L) L.
Proof.
  intros [r H]. apply map_eq_app in H. destruct H as (L1 & L2 & -> & <- & _).
  rewrite length_map, firstn_app, firstn_all, Nat.sub_diag. cbn [firstn].
  rewrite app_nil_r. split; [reflexivity|]. exists L2. reflexivity.
Qed.

(** C9. The list of downloaded files is sorted by the length of the file
    names, shortest first, before the installation. What is handed to
    dpkg are package files of that sorted list, from its beginning and
    in its order; the CHECKSUMS file is never among them; the first one
    handed over has a name no longer than that of any other package
    file: the shortest when the lengths differ. As root, with the
    installation accepted and the lock free, all package files are
    handed over. *)
Theorem shortest_name_is_installed_first :
  forall (U : user) (dir : pystr) (names : list pystr),
    (forall n, In n names -> downloadable n) ->
    sort_by_len (paths_in dir names) = paths_in dir (sort_by_len names)
    /\ StronglySorted by_len (sort_by_len names)
    /\ Permutation names (sort_by_len names)
    /\ exists installed,
         dpkg_calls (trace (post_download E U (paths_in dir names)))
           = map (quote E) (paths_in dir installed)
         /\ is_prefix installed (filter is_package (sort_by_len names))
         /\ ~ In CHECKSUMS_FILE installed
         /\ (forall first rest, installed = first :: rest ->
               forall n, In n names -> n <> CHECKSUMS_FILE ->
               length first <= length n)
         /\ (names <> [] -> geteuid E = 0%Z -> install_answer U = Yes ->
             lock_events U = [] ->
             installed = filter is_package (sort_by_len names)).
Proof.
  intros U dir names D.
  pose proof (sort_by_len_perm names) as P.
  pose proof (sort_by_len_sorted names) as S.
  split; [apply sort_by_len_paths|]. split; [exact S|]. split; [exact P|].
  assert (D' : forall n, In n (sort_by_len names) -> downloadable n).
  { intros n Hn. apply D. apply (Permutation_in n (Permutation_sym P) Hn). }
  set (L := filter is_package (sort_by_len names)).
  assert (FL : filter not_checksums (sort_by_len (paths_in dir names))
               = paths_in dir L).
  { rewrite sort_by_len_paths. apply filter_paths. exact D'. }
  pose proof (post_download_calls U (paths_in dir names)) as C.
  rewrite FL in C. unfold paths_in in C at 2. rewrite map_map in C.
  apply is_prefix_map in C. destruct C as [C Pre].
  set (calls := dpkg_calls (trace (post_download E U (paths_in dir names))))
    in *.
  exists (firstn (length calls) L). split; [|split; [|split; [|split]]].
  - unfold paths_in at 1. rewrite map_map. exact C.
  - exact Pre.
  - intros Hin. destruct Pre as [r Pre].
    assert (Hin' : In CHECKSUMS_FILE L).
    { rewrite Pre. apply in_or_app. left. exact Hin. }
    apply filter_In in Hin'. destruct Hin' as [_ X]. discriminate X.
  - intros first rest F n Hn Hne. destruct Pre as [r Pre0].
    assert (Pre : L = (first :: rest) ++ r) by (rewrite <- F; exact Pre0).
    assert (SL : StronglySorted by_len L) by (apply filter_sorted; exact S).
    assert (Hin : In n L).
    { apply filter_In. split; [apply (Permutation_in n P Hn)|].
      unfold is_package. apply negb_true_iff. apply str_eqb_neq. exact Hne. }
    rewrite Pre in SL, Hin. cbn [app] in SL, Hin.
    inversion SL as [|? ? _ Fa]; subst.
    destruct Hin as [<- | Hin]; [lia|].
    rewrite Forall_forall in Fa. apply (Fa n Hin).
  - intros NE R Y Lk.
    assert (N : nothing_downloaded (paths_in dir names) = false).
    { rewrite nothing_downloaded_paths. destruct names; [contradiction|].
      reflexivity. }
    pose proof (post_download_installs_all U _ N R Y Lk) as A.
    fold calls in A. rewrite FL in A.
    assert (Len : length calls = length L).
    { rewrite A. unfold paths_in. rewrite !length_map. reflexivity. }
    rewrite Len. apply firstn_all.
Qed.

End Installation.

Lemma shortest_name_is_installed_first_witness :
  (forall n, In n downloaded_names -> downloadable n)
  /\ sort_by_len (paths_in download_dir downloaded_names)
     = paths_in download_dir (sort_by_len downloaded_names)
  /\ StronglySorted by_len (sort_by_len downloaded_names)
  /\ Permutation downloaded_names (sort_by_len downloaded_names)
  /\ exists installed,
       dpkg_calls (trace (post_download kind_world willing_user
                            (paths_in download_dir downloaded_names)))
         = map (quote kind_world) (paths_in download_dir installed)
       /\ is_prefix installed
            (filter is_package (sort_by_len downloaded_names))
       /\ ~ In CHECKSUMS_FILE installed
       /\ (forall first rest, installed = first :: rest ->
             forall n, In n downloaded_names -> n <> CHECKSUMS_FILE ->
             length first <= length n)
       /\ (downloaded_names <> [] -> geteuid kind_world = 0%Z ->
           install_answer willing_user = Yes ->
           lock_events willing_user = [] ->
           installed = filter is_package (sort_by_len downloaded_names)).
Proof.
  assert (D : forall n, In n downloaded_names -> downloadable n).
  { intros n [<- | [<- | [<- | [<- | []]]]];
      [left; reflexivity | right; vm_compute; reflexivity ..]. }
  split; [exact D|].
  exact (shortest_name_is_installed_first kind_world willing_user
           download_dir downloaded_names D).
Defined.

(** The round of the sample release: the headers for all architectures
    have the shortest name and are installed first, CHECKSUMS is not
    installed. *)
Example install_order_of_release :
  dpkg_calls (trace (post_download kind_world willing_user
                       (paths_in download_dir downloaded_names)))
  = paths_in download_dir [headers_all; image_generic; headers_generic].
Proof. vm_compute. reflexivity. Qed.

(** Two probes find the lock held and the user retries, the third finds
    it free: one call of dpkg, after the third probe. *)
Example lock_contention :
  trace (install_loop kind_world [download_dir ++ sep ++ headers_all]
           [Held Yes; Held Yes; Free] [] 0 0%Z)
  = [ProbeLock; Print MsgLockHeld; Ask;
     ProbeLock; Print MsgLockHeld; Ask;
     ProbeLock; Print (MsgInstalling headers_all);
     Dpkg (download_dir ++ sep ++ headers_all)].
Proof. vm_compute. reflexivity. Qed.

(** * More properties *)

(** ** [strlen_unicode] *)

Lemma utf8_width_bounds (c : pychar) : 1 <= utf8_width c <= 4.
Proof.
  unfold utf8_width.
  destruct (c <? 128)%N, (c <? 2048)%N, (c <? 65536)%N; lia.
Qed.

Lemma utf8_width_one (c : pychar) : utf8_width c = 1 <-> (c <? 128)%N = true.
Proof.
  unfold utf8_width.
  destruct (c <? 128)%N, (c <? 2048)%N, (c <? 65536)%N;
    split; intros; try reflexivity; try discriminate.
Qed.

Lemma strlen_unicode_cons (c : pychar) (s : pystr) :
  strlen_unicode (c :: s) = utf8_width c + strlen_unicode s.
Proof. reflexivity. Qed.

Lemma strlen_unicode_range (s : pystr) :
  length s <= strlen_unicode s <= 4 * length s.
Proof.
  induction s as [|c s IH]; [simpl; unfold strlen_unicode; simpl; lia|].
  rewrite strlen_unicode_cons. cbn [length].
  pose proof (utf8_width_bounds c). lia.
Qed.

(** X1. The length that [strlen_unicode] measures is at least the number
    of characters and at most four times that number, and it is the
    number of characters exactly when the string is ASCII. *)
Theorem strlen_unicode_bounds :
  forall s : pystr,
    length s <= strlen_unicode s <= 4 * length s
    /\ (strlen_unicode s = length s <-> is_ascii s = true).
Proof.
  intros s. split; [apply strlen_unicode_range|].
  induction s as [|c s IH]; [split; reflexivity|].
  rewrite strlen_unicode_cons. cbn [length is_ascii forallb].
  change (forallb (fun c0 => (c0 <? 128)%N) s) with (is_ascii s).
  pose proof (utf8_width_bounds c) as B.
  pose proof (strlen_unicode_range s) as R.
  rewrite andb_true_iff, <- IH, <- utf8_width_one. lia.
Qed.

(** ** [find_position_of_nth_string_occurence] *)

Lemma count_char_app (c : pychar) (a b : pystr) :
  count_char c (a ++ b) = count_char c a + count_char c b.
Proof. unfold count_char. rewrite filter_app, length_app. reflexivity. Qed.

Lemma count_char_cons (c x : pychar) (s : pystr) :
  count_char c (x :: s) = (if (x =? c)%N then 1 else 0) + count_char c s.
Proof.
  unfold count_char. cbn [filter]. rewrite (N.eqb_sym c x).
  destruct (x =? c)%N; reflexivity.
Qed.

(** The loop stops at the occurrence that makes the count. *)
Lemma find_nth_loop_at (pre post : pystr) (c : pychar) (nthpos : nat) :
  forall index count,
  count + count_char c pre + 1 = nthpos ->
  find_nth_loop (pre ++ c :: post) c nthpos index count = index + length pre.
Proof.
  induction pre as [|x pre IH]; intros index count H.
  - cbn [app find_nth_loop length]. rewrite N.eqb_refl.
    unfold count_char in H. cbn in H.
    replace (S count =? nthpos) with true by (symmetry; apply Nat.eqb_eq; lia).
    lia.
  - cbn [app find_nth_loop length]. rewrite count_char_cons in H.
    destruct (x =? c)%N.
    + replace (S count =? nthpos) with false
        by (symmetry; apply Nat.eqb_neq; lia).
      rewrite IH by lia. lia.
    + rewrite IH by lia. lia.
Qed.

(** A string with [n] occurrences or more splits at the [n]th. *)
Lemma nth_occurrence (c : pychar) (n : nat) (s : pystr) :
  1 <= n -> n <= count_char c s ->
  exists pre post, s = pre ++ c :: post /\ count_char c pre + 1 = n.
Proof.
  revert n. induction s as [|x s IH]; intros n H1 H2.
  - unfold count_char in H2. simpl in H2. lia.
  - rewrite count_char_cons in H2. destruct (x =? c)%N eqn:X.
    + apply N.eqb_eq in X. subst x. destruct (Nat.eq_dec n 1) as [-> | N1].
      * exists [], s. split; reflexivity.
      * destruct (IH (n - 1)) as (pre & post & E & C); [lia | lia |].
        exists (c :: pre), post. rewrite E. split; [reflexivity|].
        rewrite count_char_cons, N.eqb_refl. lia.
    + destruct (IH n H1) as (pre & post & E & C); [lia|].
      exists (x :: pre), post. rewrite E. split; [reflexivity|].
      rewrite count_char_cons, X. lia.
Qed.

Lemma strlen_unicode_zero (s : pystr) : strlen_unicode s = 0 <-> s = [].
Proof.
  split; [|intros ->; reflexivity]. destruct s as [|c s]; [reflexivity|].
  pose proof (strlen_unicode_range (c :: s)) as R. cbn [length] in R. lia.
Qed.

(** X2. For a count of two or more, the position search returns 0
    exactly when the character occurs fewer times than asked; otherwise
    it returns the position of the occurrence asked for. *)
Theorem find_position_is_nth_occurrence :
  forall (f : pystr) (c : pychar) (n : nat),
    2 <= n ->
    (find_position_of_nth_string_occurence f c n = 0 <-> count_char c f < n)
    /\ (n <= count_char c f ->
        exists pre post,
          f = pre ++ c :: post /\ count_char c pre = n - 1
          /\ find_position_of_nth_string_occurence f c n = length pre).
Proof.
  intros f c n Hn.
  assert (At : n <= count_char c f ->
               exists pre post,
                 f = pre ++ c :: post /\ count_char c pre = n - 1
                 /\ find_position_of_nth_string_occurence f c n = length pre).
  { intros H. destruct (nth_occurrence c n f) as (pre & post & E & C);
      [lia | exact H |].
    exists pre, post. split; [exact E|]. split; [lia|].
    unfold find_position_of_nth_string_occurence.
    destruct (strlen_unicode f =? 0) eqn:Z.
    - apply Nat.eqb_eq, strlen_unicode_zero in Z. rewrite E in Z.
      destruct pre; discriminate Z.
    - rewrite E. rewrite find_nth_loop_at by lia. reflexivity. }
  split; [|exact At]. split.
  - intros Z. destruct (Nat.lt_ge_cases (count_char c f) n) as [L | G];
      [exact L|].
    destruct (At G) as (pre & post & E & C & P). rewrite P in Z.
    destruct pre; [|discriminate Z]. unfold count_char in C. simpl in C. lia.
  - apply find_position_few.
Qed.

Lemma find_position_is_nth_occurrence_witness :
  (find_position_of_nth_string_occurence (lit "a-b-c-d-e") (chr "-") 4 = 0
   <-> count_char (chr "-") (lit "a-b-c-d-e") < 4)
  /\ (4 <= count_char (chr "-") (lit "a-b-c-d-e") ->
      exists pre post,
        lit "a-b-c-d-e" = pre ++ chr "-" :: post
        /\ count_char (chr "-") pre = 4 - 1
        /\ find_position_of_nth_string_occurence (lit "a-b-c-d-e") (chr "-") 4
           = length pre).
Proof.
  apply (find_position_is_nth_occurrence (lit "a-b-c-d-e") (chr "-") 4). lia.
Defined.

(** ** [extract_flavor] *)

Lemma find_single_at (c : pychar) (pre post : pystr) :
  ~ In c pre -> find [c] (pre ++ c :: post) = Some (length pre).
Proof.
  induction pre as [|x pre IH]; intros H.
  - cbn [app find startswith length]. rewrite N.eqb_refl. reflexivity.
  - cbn [app find startswith length].
    destruct (x =? c)%N eqn:X.
    + apply N.eqb_eq in X. exfalso. apply H. left. exact X.
    + cbn [andb]. rewrite IH by (intros Y; apply H; right; exact Y).
      reflexivity.
Qed.

Lemma find_single_none (c : pychar) (s : pystr) :
  ~ In c s -> find [c] s = None.
Proof.
  induction s as [|x s IH]; intros H; [reflexivity|].
  cbn [find startswith]. destruct (x =? c)%N eqn:X.
  - apply N.eqb_eq in X. exfalso. apply H. left. exact X.
  - cbn [andb]. rewrite IH by (intros Y; apply H; right; exact Y).
    reflexivity.
Qed.

(** What the extraction returns, and when it raises. *)
Lemma extract_flavor_spec (f : pystr) :
  (In (chr "_") (skipn (flavor_start f) f) ->
   exists x rest,
     extract_flavor f = Ok x
     /\ skipn (flavor_start f) f = x ++ chr "_" :: rest
     /\ ~ In (chr "_") x)
  /\ (~ In (chr "_") (skipn (flavor_start f) f) ->
      extract_flavor f = Raise ValueError).
Proof.
  unfold extract_flavor. fold (flavor_start f). unfold get_string_index.
  change (lit "_") with [chr "_"]. split; intros H.
  - destruct (find_single _ _ H) as (pre & post & E & Hpre & F).
    exists pre, post. rewrite F. cbn [rbind]. split; [|split; assumption].
    rewrite E, firstn_app, firstn_all, Nat.sub_diag. cbn [firstn].
    rewrite app_nil_r. reflexivity.
  - rewrite (find_single_none _ _ H). reflexivity.
Qed.

Lemma extract_flavor_ok (f x : pystr) :
  extract_flavor f = Ok x ->
  ~ In (chr "_") x
  /\ exists rest, skipn (flavor_start f) f = x ++ chr "_" :: rest.
Proof.
  intros H. destruct (extract_flavor_spec f) as [S1 S2].
  destruct (in_dec N.eq_dec (chr "_") (skipn (flavor_start f) f)) as [I | NI].
  - destruct (S1 I) as (y & rest & E & K & Hy). rewrite H in E.
    inversion E; subst. split; [exact Hy|]. exists rest. exact K.
  - rewrite (S2 NI) in H. discriminate H.
Qed.

(** X3. For a file name with a fourth [-] followed, before any [_], by a
    flavor and then a [_], the extraction returns that flavor. *)
Theorem extract_flavor_between :
  forall pre flavor rest : pystr,
    count_char (chr "-") pre = 3 ->
    ~ In (chr "_") flavor ->
    extract_flavor (pre ++ chr "-" :: flavor ++ chr "_" :: rest) = Ok flavor.
Proof.
  intros pre flavor rest C NF. unfold extract_flavor.
  assert (P : find_position_of_nth_string_occurence
                (pre ++ chr "-" :: flavor ++ chr "_" :: rest) (chr "-") 4
              = length pre).
  { unfold find_position_of_nth_string_occurence.
    destruct (strlen_unicode _ =? 0) eqn:Z.
    - apply Nat.eqb_eq, strlen_unicode_zero in Z. destruct pre; discriminate Z.
    - rewrite find_nth_loop_at by lia. reflexivity. }
  rewrite P.
  replace (skipn (length pre + 1) (pre ++ chr "-" :: flavor ++ chr "_" :: rest))
    with (flavor ++ chr "_" :: rest).
  - unfold get_string_index. change (lit "_") with [chr "_"].
    rewrite (find_single_at _ _ _ NF). cbn [rbind].
    rewrite firstn_app, firstn_all, Nat.sub_diag. cbn [firstn].
    rewrite app_nil_r. reflexivity.
  - rewrite skipn_app, skipn_all2 by lia.
    replace (length pre + 1 - length pre) with 1 by lia. reflexivity.
Qed.

Lemma extract_flavor_between_witness :
  count_char (chr "-") (lit "linux-image-4.9.5-040905") = 3
  /\ ~ In (chr "_") (lit "lowlatency")
  /\ extract_flavor image_lowlatency = Ok (lit "lowlatency").
Proof.
  assert (C : count_char (chr "-") (lit "linux-image-4.9.5-040905") = 3)
    by reflexivity.
  assert (N : ~ In (chr "_") (lit "lowlatency")).
  { intros H. vm_compute in H.
    repeat (destruct H as [H | H]; [discriminate H|]). exact H. }
  split; [exact C|]. split; [exact N|].
  exact (extract_flavor_between (lit "linux-image-4.9.5-040905")
           (lit "lowlatency") (lit "4.9.5-040905.201701200532_amd64.deb") C N).
Defined.

(** ** Substrings *)

Lemma startswith_iff (s pre : pystr) :
  startswith s pre = true <-> exists r, s = pre ++ r.
Proof.
  revert s; induction pre as [|p pre IH]; intros s.
  - split; [intros _; exists s; reflexivity | reflexivity].
  - destruct s as [|c s]; cbn [startswith].
    + split; [discriminate | intros [r H]; discriminate H].
    + rewrite andb_true_iff, N.eqb_eq, IH. split.
      * intros [-> [r ->]]. exists r. reflexivity.
      * intros [r H]. inversion H; subst. split; [reflexivity|].
        exists r. reflexivity.
Qed.

Lemma contains_cons (sub : pystr) (c : pychar) (s : pystr) :
  contains sub s = true -> contains sub (c :: s) = true.
Proof.
  unfold contains. cbn [find]. destruct (startswith (c :: s) sub);
    [reflexivity|].
  destruct (find sub s); [reflexivity | discriminate].
Qed.

(** [sub in s]: [s] holds [sub] somewhere. *)
Lemma contains_iff (sub s : pystr) :
  contains sub s = true <-> exists p q, s = p ++ sub ++ q.
Proof.
  split.
  - induction s as [|c s IH]; unfold contains; cbn [find].
    + destruct (startswith [] sub) eqn:S; [|discriminate]. intros _.
      apply startswith_iff in S. destruct S as [r S]. exists [], r. exact S.
    + destruct (startswith (c :: s) sub) eqn:S.
      * intros _. apply startswith_iff in S. destruct S as [r S].
        exists [], r. exact S.
      * intros H. destruct (find sub s) eqn:F; [|discriminate H].
        destruct IH as (p & q & ->); [unfold contains; rewrite F; reflexivity|].
        exists (c :: p), q. reflexivity.
  - intros (p & q & ->). induction p as [|c p IH].
    + unfold contains. destruct (sub ++ q) eqn:X; cbn [app find];
        rewrite <- X;
        (replace (startswith (sub ++ q) sub) with true; [reflexivity|]);
        symmetry; apply startswith_iff; exists q; reflexivity.
    + cbn [app]. apply contains_cons. exact IH.
Qed.

(** ** The flavors of an architecture, exactly *)

Lemma extract_flavor_raises (f : pystr) (e : exn) :
  extract_flavor f = Raise e -> e = ValueError.
Proof.
  intros H. destruct (extract_flavor_spec f) as [S1 S2].
  destruct (in_dec N.eq_dec (chr "_") (skipn (flavor_start f) f)) as [I | NI].
  - destruct (S1 I) as (x & rest & E & _). rewrite E in H. discriminate H.
  - rewrite (S2 NI) in H. inversion H; reflexivity.
Qed.

Lemma flavor_loop_spec (arch : pystr) (items : dict) :
  forall flavors, NoDup flavors ->
  match flavor_loop arch flavors items with
  | Ok result =>
      NoDup result
      /\ forall x, In x result <->
           In x flavors
           \/ exists h f, In (h, f) items /\ flavor_candidate arch f = true
                          /\ extract_flavor f = Ok x
  | Raise e =>
      e = ValueError
      /\ exists h f, In (h, f) items /\ flavor_candidate arch f = true
                     /\ extract_flavor f = Raise ValueError
  end.
Proof.
  induction items as [|[h f] rest IH]; intros flavors ND.
  - cbn [flavor_loop]. split; [exact ND|]. intros x. split; [auto|].
    intros [H | (h & f & [] & _)]. exact H.
  - cbn [flavor_loop]. unfold flavor_step. cbn [snd].
    destruct (flavor_candidate arch f) eqn:C.
    + destruct (extract_flavor f) as [y|e] eqn:X; cbn [rbind].
      * assert (Step : forall fl,
                  NoDup fl -> (forall x, In x fl <-> In x flavors \/ x = y) ->
                  match flavor_loop arch fl rest with
                  | Ok result =>
                      NoDup result
                      /\ forall x, In x result <->
                           In x flavors
                           \/ exists h0 f0, In (h0, f0) ((h, f) :: rest)
                                /\ flavor_candidate arch f0 = true
                                /\ extract_flavor f0 = Ok x
                  | Raise e =>
                      e = ValueError
                      /\ exists h0 f0, In (h0, f0) ((h, f) :: rest)
                           /\ flavor_candidate arch f0 = true
                           /\ extract_flavor f0 = Raise ValueError
                  end).
        { intros fl NDfl Mem. specialize (IH fl NDfl).
          destruct (flavor_loop arch fl rest) as [result|e].
          - destruct IH as [NDr Hr]. split; [exact NDr|]. intros x.
            rewrite Hr, Mem. split.
            + intros [[H | ->] | (h0 & f0 & I & C0 & X0)].
              * left; exact H.
              * right. exists h, f. split; [left; reflexivity|]. auto.
              * right. exists h0, f0. split; [right; exact I|]. auto.
            + intros [H | (h0 & f0 & [I | I] & C0 & X0)].
              * left; left; exact H.
              * inversion I; subst. rewrite X in X0. inversion X0; subst.
                left; right; reflexivity.
              * right. exists h0, f0. auto.
          - destruct IH as [-> (h0 & f0 & I & C0 & X0)].
            split; [reflexivity|]. exists h0, f0.
            split; [right; exact I|]. auto. }
        destruct (list_contains y flavors) eqn:L; cbn [negb].
        -- apply Step; [exact ND|]. intros x. split; [auto|].
           intros [H | ->]; [exact H|]. apply list_contains_In. exact L.
        -- apply Step.
           ++ apply NoDup_app; [exact ND | repeat constructor; intros [] |].
              intros x Hx [<- | []].
              apply list_contains_In in Hx. congruence.
           ++ intros x. rewrite in_app_iff. cbn [In]. split.
              ** intros [H | [<- | []]]; auto.
              ** intros [H | ->]; auto.
      * apply extract_flavor_raises in X as Ev. subst e.
        split; [reflexivity|]. exists h, f. split; [left; reflexivity|]. auto.
    + cbn [rbind]. specialize (IH flavors ND).
      destruct (flavor_loop arch flavors rest) as [result|e].
      * destruct IH as [NDr Hr]. split; [exact NDr|]. intros x. rewrite Hr.
        split.
        -- intros [H | (h0 & f0 & I & C0 & X0)]; [left; exact H|].
           right. exists h0, f0. split; [right; exact I|]. auto.
        -- intros [H | (h0 & f0 & [I | I] & C0 & X0)]; [left; exact H | |].
           ++ inversion I; subst. congruence.
           ++ right. exists h0, f0. auto.
      * destruct IH as [-> (h0 & f0 & I & C0 & X0)]. split; [reflexivity|].
        exists h0, f0. split; [right; exact I|]. auto.
Qed.

(** X4. The flavors derived for an architecture: when the derivation
    returns, its list has no flavor twice and holds exactly the flavors
    extracted from the files of the index that pass the test of the
    derivation; otherwise it raises ValueError, and then a file of the
    index that passes the test has no [_] after the place where its
    flavor starts. *)
Theorem derive_flavors_exact :
  forall (index : dict) (arch : pystr),
    match derive_flavors index arch with
    | Ok flavors =>
        NoDup flavors
        /\ forall x, In x flavors <->
             exists h f, In (h, f) index /\ flavor_candidate arch f = true
                         /\ extract_flavor f = Ok x
    | Raise e =>
        e = ValueError
        /\ exists h f, In (h, f) index /\ flavor_candidate arch f = true
             /\ ~ In (chr "_") (skipn (flavor_start f) f)
    end.
Proof.
  intros index arch. unfold derive_flavors.
  pose proof (flavor_loop_spec arch index [] (NoDup_nil _)) as H.
  destruct (flavor_loop arch [] index) as [flavors|e].
  - destruct H as [ND M]. split; [exact ND|]. intros x. rewrite M.
    split; [intros [[] | H]; exact H | intros H; right; exact H].
  - destruct H as [-> (h & f & I & C & X)]. split; [reflexivity|].
    exists h, f. split; [exact I|]. split; [exact C|]. intros Hin.
    destruct (extract_flavor_spec f) as [S1 _].
    destruct (S1 Hin) as (x & rest & E & _). rewrite E in X. discriminate X.
Qed.

(** A file name with four [-] holds its flavor between a [-] and a [_]. *)
Lemma extract_flavor_contained (f x : pystr) :
  4 <= count_char (chr "-") f -> extract_flavor f = Ok x ->
  contains (lit "-" ++ x ++ lit "_") f = true.
Proof.
  intros D X.
  destruct (nth_occurrence (chr "-") 4 f) as (pre & post & E & C);
    [lia | exact D |].
  assert (P : flavor_start f = length pre + 1).
  { unfold flavor_start, find_position_of_nth_string_occurence.
    destruct (strlen_unicode f =? 0) eqn:Z.
    - apply Nat.eqb_eq, strlen_unicode_zero in Z. rewrite E in Z.
      destruct pre; discriminate Z.
    - rewrite E, find_nth_loop_at by lia. reflexivity. }
  destruct (extract_flavor_ok f x X) as [_ [rest S]].
  rewrite P in S. rewrite E in S.
  rewrite skipn_app, skipn_all2 in S by lia.
  replace (length pre + 1 - length pre) with 1 in S by lia.
  cbn [app skipn] in S.
  apply contains_iff. exists pre, rest. rewrite E, S.
  change (lit "-") with [chr "-"]. change (lit "_") with [chr "_"].
  cbn [app]. rewrite <- app_assoc. reflexivity.
Qed.

(** X5. A file of the index with four [-] in its name that ends with
    [_<arch>.deb] is among the files selected for that architecture and
    the flavor extracted from its own name. *)
Theorem file_selected_under_own_flavor :
  forall (index : dict) (arch h f x : pystr),
    In (h, f) index ->
    4 <= count_char (chr "-") f ->
    endswith f (lit "_" ++ arch ++ lit ".deb") = true ->
    extract_flavor f = Ok x ->
    In f (selected_files index arch x).
Proof.
  intros index arch h f x I D S X. unfold selected_files.
  apply filter_In. split.
  - apply in_map_iff. exists (h, f). split; [reflexivity | exact I].
  - unfold selected. rewrite S, (extract_flavor_contained f x D X).
    apply orb_true_r.
Qed.

Lemma file_selected_under_own_flavor_witness :
  In image_generic
     (selected_files release_index (lit "amd64") (lit "generic")).
Proof.
  apply (file_selected_under_own_flavor release_index (lit "amd64")
           digest_b image_generic (lit "generic")).
  - right; left; reflexivity.
  - vm_compute. lia.
  - reflexivity.
  - reflexivity.
Defined.

Lemma suffix_is_candidate (arch f : pystr) :
  endswith f (lit "_" ++ arch ++ lit ".deb") = true ->
  contains (lit "_all.deb") f = false ->
  flavor_candidate arch f = true.
Proof.
  intros S A. unfold flavor_candidate. rewrite A. cbn [negb andb].
  apply endswith_iff in S. destruct S as [p ->].
  apply contains_iff. exists (p ++ lit "_"), (lit ".deb").
  rewrite <- !app_assoc. reflexivity.
Qed.

(** X6. No flavor of the chosen architecture is lost: when the
    derivation returns, every file of the index that ends with
    [_<arch>.deb] and does not hold [_all.deb] has a flavor, and the
    derivation offers it. *)
Theorem flavors_of_arch_offered :
  forall (index : dict) (arch : pystr) (flavors : list pystr) (h f : pystr),
    derive_flavors index arch = Ok flavors ->
    In (h, f) index ->
    endswith f (lit "_" ++ arch ++ lit ".deb") = true ->
    contains (lit "_all.deb") f = false ->
    exists x, extract_flavor f = Ok x /\ In x flavors.
Proof.
  intros index arch flavors h f H I S A.
  pose proof (suffix_is_candidate arch f S A) as C.
  unfold derive_flavors in H.
  pose proof (flavor_loop_spec arch index [] (NoDup_nil _)) as Sp.
  rewrite H in Sp. destruct Sp as [_ M].
  destruct (extract_flavor f) as [x|e] eqn:X.
  - exists x. split; [reflexivity|]. apply M. right. exists h, f. auto.
  - exfalso. clear M. revert H.
    generalize (@nil pystr). induction index as [|[h0 f0] rest IH];
      [destruct I|]. intros fl H. cbn [flavor_loop] in H.
    destruct I as [I | I].
    + inversion I; subst. unfold flavor_step in H. cbn [snd] in H.
      rewrite C, X in H. discriminate H.
    + destruct (flavor_step arch fl (h0, f0)) as [fl'|e']; [|discriminate H].
      apply (IH I fl' H).
Qed.

Lemma flavors_of_arch_offered_witness :
  exists x, extract_flavor image_generic = Ok x /\ In x [lit "generic"].
Proof.
  apply (flavors_of_arch_offered release_index (lit "amd64") [lit "generic"]
           digest_b image_generic); try reflexivity.
  right; left; reflexivity.
Defined.

(** ** The index as a dict *)

Lemma dict_set_keys (d : dict) (k v : pystr) :
  (In k (map fst d) /\ map fst (dict_set d k v) = map fst d)
  \/ (~ In k (map fst d) /\ map fst (dict_set d k v) = map fst d ++ [k]).
Proof.
  induction d as [|[k' v'] d IH]; [right; split; [intros []|reflexivity]|].
  cbn [dict_set]. destruct (str_eqb k' k) eqn:K.
  - apply str_eqb_eq in K. subst k'. left. split; [left|]; reflexivity.
  - apply str_eqb_neq in K. cbn [map fst].
    destruct IH as [[I E] | [I E]]; rewrite E.
    + left. split; [right; exact I | reflexivity].
    + right. split; [|reflexivity]. intros [X | X]; [exact (K X) | exact (I X)].
Qed.

Lemma dict_set_keys_prefix (d : dict) (k v : pystr) :
  is_prefix (map fst d) (map fst (dict_set d k v)).
Proof.
  destruct (dict_set_keys d k v) as [[_ E] | [_ E]]; rewrite E.
  - exists []. symmetry. apply app_nil_r.
  - exists [k]. reflexivity.
Qed.

Lemma dict_set_nodup (d : dict) (k v : pystr) :
  NoDup (map fst d) -> NoDup (map fst (dict_set d k v)).
Proof.
  intros ND. destruct (dict_set_keys d k v) as [[_ E] | [I E]]; rewrite E;
    [exact ND|].
  apply NoDup_app; [exact ND | repeat constructor; intros [] |].
  intros x Hx [<- | []]. exact (I Hx).
Qed.

Lemma dict_set_lookup (d : dict) (k v v' : pystr) :
  NoDup (map fst d) -> In (k, v') (dict_set d k v) -> v' = v.
Proof.
  induction d as [|[k0 v0] d IH]; intros ND H.
  - destruct H as [H | []]. inversion H; reflexivity.
  - cbn [dict_set] in H. inversion ND as [|? ? NI ND']; subst.
    destruct (str_eqb k0 k) eqn:K.
    + apply str_eqb_eq in K. subst k0. destruct H as [H | H].
      * inversion H; reflexivity.
      * exfalso. apply NI. apply in_map_iff. exists (k, v'). auto.
    + apply str_eqb_neq in K. destruct H as [H | H].
      * inversion H; subst. contradiction.
      * apply IH; assumption.
Qed.

Lemma dict_set_other (d : dict) (k v k0 v0 : pystr) :
  k0 <> k -> (In (k0, v0) (dict_set d k v) <-> In (k0, v0) d).
Proof.
  intros NE. induction d as [|[k1 v1] d IH]; cbn [dict_set].
  - split; [intros [H | []]; inversion H; subst; contradiction | intros []].
  - destruct (str_eqb k1 k) eqn:K.
    + apply str_eqb_eq in K. subst k1. cbn [In]. split.
      * intros [H | H]; [inversion H; subst; contradiction | right; exact H].
      * intros [H | H]; [inversion H; subst; contradiction | right; exact H].
    + cbn [In]. rewrite IH. reflexivity.
Qed.

(** One turn of the parser: the line is skipped, or its record is
    written to the index and its architecture is noted. *)
Lemma parse_line_step (idx : dict) (archs : list pystr) (line : pystr)
    (idx' : dict) (archs' : list pystr) :
  parse_line (idx, archs) line = Ok (idx', archs') ->
  (line_qualifies line = false /\ idx' = idx /\ archs' = archs)
  \/ exists h f a,
       yields line h f /\ first_token line = h /\ arch_segment f = Some a
       /\ idx' = dict_set idx h f /\ archs' = add_arch archs a.
Proof.
  intros H. destruct (line_qualifies line) eqn:Q.
  - right. rewrite (parse_line_keep idx archs line Q) in H.
    unfold yields, first_token.
    destruct (split_ws line) as [|h [|f r]] eqn:T; try discriminate H.
    destruct (arch_segment f) as [a|] eqn:A; [|discriminate H].
    inversion H; subst. exists h, f, a. cbn [nth_error hd]. auto 10.
  - left. rewrite (parse_line_skip (idx, archs) line Q) in H.
    inversion H; subst. auto.
Qed.

Lemma yields_first_token (line k v : pystr) :
  yields line k v -> line_qualifies line = true /\ first_token line = k.
Proof.
  intros (Q & T0 & _). split; [exact Q|]. unfold first_token.
  destruct (split_ws line); [discriminate T0|]. inversion T0; reflexivity.
Qed.

Lemma parse_lines_nodup (lines : list pystr) :
  forall idx archs idx' archs',
  parse_lines (idx, archs) lines = Ok (idx', archs') ->
  NoDup (map fst idx) -> NoDup (map fst idx').
Proof.
  induction lines as [|l ls IH]; intros idx archs idx' archs' H ND.
  - inversion H; subst. exact ND.
  - cbn [parse_lines] in H.
    destruct (parse_line (idx, archs) l) as [[idx1 archs1]|e] eqn:P;
      [|discriminate H].
    cbn [rbind] in H. apply (IH _ _ _ _ H).
    destruct (parse_line_step _ _ _ _ _ P)
      as [(_ & -> & _) | (h & f & a & _ & _ & _ & -> & _)];
      [exact ND | apply dict_set_nodup; exact ND].
Qed.

Lemma parse_lines_keys_prefix (lines : list pystr) :
  forall idx archs idx' archs',
  parse_lines (idx, archs) lines = Ok (idx', archs') ->
  is_prefix (map fst idx) (map fst idx').
Proof.
  induction lines as [|l ls IH]; intros idx archs idx' archs' H.
  - inversion H; subst. exists []. symmetry. apply app_nil_r.
  - cbn [parse_lines] in H.
    destruct (parse_line (idx, archs) l) as [[idx1 archs1]|e] eqn:P;
      [|discriminate H].
    cbn [rbind] in H. destruct (IH _ _ _ _ H) as [r2 E2].
    assert (P1 : is_prefix (map fst idx) (map fst idx1)).
    { destruct (parse_line_step _ _ _ _ _ P)
        as [(_ & -> & _) | (h & f & a & _ & _ & _ & -> & _)].
      - exists []. symmetry. apply app_nil_r.
      - apply dict_set_keys_prefix. }
    destruct P1 as [r1 E1]. exists (r1 ++ r2). rewrite E2, E1.
    symmetry. apply app_assoc.
Qed.

(** Lines that do not write the key [k] leave its entries as they are. *)
Lemma parse_lines_other (lines : list pystr) (k : pystr) :
  (forall l, In l lines -> line_qualifies l = true -> first_token l <> k) ->
  forall idx archs idx' archs',
  parse_lines (idx, archs) lines = Ok (idx', archs') ->
  forall v, In (k, v) idx' <-> In (k, v) idx.
Proof.
  induction lines as [|l ls IH]; intros O idx archs idx' archs' H v.
  - inversion H; subst. reflexivity.
  - cbn [parse_lines] in H.
    destruct (parse_line (idx, archs) l) as [[idx1 archs1]|e] eqn:P;
      [|discriminate H].
    cbn [rbind] in H.
    rewrite (IH (fun l' I => O l' (or_intror I)) _ _ _ _ H v).
    destruct (parse_line_step _ _ _ _ _ P)
      as [(_ & -> & _) | (h & f & a & Y & F & _ & -> & _)]; [reflexivity|].
    apply dict_set_other. intros ->.
    destruct (yields_first_token _ _ _ Y) as [Q _].
    exact (O l (or_introl eq_refl) Q F).
Qed.

(** X7. Of the lines that write a digest, the last one wins: when the
    parser returns, the index has every digest once, and a digest that a
    line of the manifest records, and no later line records again, is
    mapped to the file name of that line and to no other. *)
Theorem index_keeps_last_record :
  forall (index0 : dict) (text : pystr) (index : dict) (archs : list pystr)
         (pre : list pystr) (line : pystr) (post : list pystr) (k v : pystr),
    parse_manifest index0 text = Ok (index, archs) ->
    NoDup (map fst index0) ->
    readlines text = pre ++ line :: post ->
    yields line k v ->
    (forall l, In l post -> line_qualifies l = true -> first_token l <> k) ->
    NoDup (map fst index)
    /\ forall v', In (k, v') index <-> v' = v.
Proof.
  intros index0 text index archs pre line post k v H ND R Y O.
  unfold parse_manifest in H. split; [exact (parse_lines_nodup _ _ _ _ _ H ND)|].
  rewrite R, parse_lines_app in H.
  destruct (parse_lines (index0, []) pre) as [[idx1 archs1]|e] eqn:P1;
    [|discriminate H].
  cbn [rbind parse_lines] in H.
  destruct (parse_line (idx1, archs1) line) as [[idx2 archs2]|e] eqn:P2;
    [|discriminate H].
  cbn [rbind] in H. intros v'.
  rewrite (parse_lines_other post k O _ _ _ _ H v').
  pose proof (parse_lines_nodup _ _ _ _ _ P1 ND) as ND1.
  destruct (yields_first_token _ _ _ Y) as [Q F].
  destruct (parse_line_step _ _ _ _ _ P2)
    as [(Q' & _) | (h & f & a & (_ & T0 & T1) & _ & _ & -> & _)];
    [congruence|].
  destruct Y as (_ & Y0 & Y1).
  assert (h = k) by congruence. assert (f = v) by congruence. subst h f.
  split.
  - apply dict_set_lookup. exact ND1.
  - intros ->. apply dict_set_has.
Qed.

Lemma index_keeps_last_record_witness :
  NoDup (map fst release_index)
  /\ forall v', In (digest_b, v') release_index <-> v' = image_generic.
Proof.
  apply (index_keeps_last_record [] release_manifest release_index
           [lit "amd64"]
           (firstn 1 (readlines release_manifest))
           (nth 1 (readlines release_manifest) [])
           (skipn 2 (readlines release_manifest))).
  - vm_compute. reflexivity.
  - constructor.
  - vm_compute. reflexivity.
  - vm_compute. auto.
  - intros l Hl Q.
    repeat (destruct Hl as [<- | Hl]; [vm_compute; discriminate|]).
    destruct Hl.
Defined.

(** ** The architectures of a manifest *)

Lemma add_arch_spec (archs : list pystr) (a : pystr) :
  NoDup archs ->
  NoDup (add_arch archs a)
  /\ forall x, In x (add_arch archs a) <->
       In x archs \/ (x = a /\ a <> lit "all").
Proof.
  intros ND. unfold add_arch.
  destruct (list_contains a archs) eqn:L; cbn [negb andb].
  - apply list_contains_In in L. split; [exact ND|]. intros x.
    split; [auto|]. intros [H | [-> _]]; assumption.
  - assert (NI : ~ In a archs).
    { intros H. apply list_contains_In in H. congruence. }
    destruct (str_eqb a (lit "all")) eqn:A; cbn [negb].
    + apply str_eqb_eq in A. split; [exact ND|]. intros x.
      split; [auto|]. intros [H | [_ H]]; [exact H | contradiction].
    + apply str_eqb_neq in A. split.
      * apply NoDup_app; [exact ND | repeat constructor; intros [] |].
        intros x Hx [<- | []]. exact (NI Hx).
      * intros x. rewrite in_app_iff. cbn [In]. split.
        -- intros [H | [<- | []]]; auto.
        -- intros [H | [-> _]]; auto.
Qed.

Lemma parse_lines_archs (lines : list pystr) :
  forall idx archs idx' archs',
  parse_lines (idx, archs) lines = Ok (idx', archs') ->
  NoDup archs ->
  NoDup archs'
  /\ forall a, In a archs' <->
       In a archs
       \/ (a <> lit "all"
           /\ exists line h f, In line lines /\ yields line h f
                               /\ arch_segment f = Some a).
Proof.
  induction lines as [|l ls IH]; intros idx archs idx' archs' H ND.
  - inversion H; subst. split; [exact ND|]. intros a. split; [auto|].
    intros [I | (_ & line & h & f & [] & _)]. exact I.
  - cbn [parse_lines] in H.
    destruct (parse_line (idx, archs) l) as [[idx1 archs1]|e] eqn:P;
      [|discriminate H].
    cbn [rbind] in H.
    destruct (parse_line_step _ _ _ _ _ P)
      as [(Q & _ & ->) | (h & f & a0 & Y & _ & A & _ & ->)].
    + destruct (IH _ _ _ _ H ND) as [ND' M]. split; [exact ND'|].
      intros a. rewrite M. split.
      * intros [I | (NA & line & h & f & I & Y & A)]; [left; exact I|].
        right. split; [exact NA|]. exists line, h, f. split; [right|]; auto.
      * intros [I | (NA & line & h & f & [<- | I] & Y & A)]; [left; exact I | |].
        -- destruct (yields_first_token _ _ _ Y) as [Q' _]. congruence.
        -- right. split; [exact NA|]. exists line, h, f. auto.
    + destruct (add_arch_spec archs a0 ND) as [ND1 M1].
      destruct (IH _ _ _ _ H ND1) as [ND' M]. split; [exact ND'|].
      intros a. rewrite M, M1. split.
      * intros [[I | [-> NA]] | (NA & line & h1 & f1 & I & Y1 & A1)].
        -- left; exact I.
        -- right. split; [exact NA|]. exists l, h, f.
           split; [left; reflexivity|]. auto.
        -- right. split; [exact NA|]. exists line, h1, f1.
           split; [right; exact I|]. auto.
      * intros [I | (NA & line & h1 & f1 & [<- | I] & Y1 & A1)].
        -- left; left; exact I.
        -- left; right. destruct Y as (_ & _ & T1). destruct Y1 as (_ & _ & T1').
           assert (f1 = f) by congruence. subst f1.
           split; [congruence|]. congruence.
        -- right. split; [exact NA|]. exists line, h1, f1. auto.
Qed.

(** X8. The architectures of a manifest: when the parser returns, its
    list of architectures has none twice, never holds [all], and holds
    exactly the architecture segments, other than [all], of the file
    names that the lines passing both tests record. *)
Theorem architectures_exact :
  forall (index0 : dict) (text : pystr) (index : dict) (archs : list pystr),
    parse_manifest index0 text = Ok (index, archs) ->
    NoDup archs
    /\ ~ In (lit "all") archs
    /\ forall a, In a archs <->
         a <> lit "all"
         /\ exists line h f, In line (readlines text) /\ yields line h f
                             /\ arch_segment f = Some a.
Proof.
  intros index0 text index archs H. unfold parse_manifest in H.
  destruct (parse_lines_archs _ _ _ _ _ H (NoDup_nil _)) as [ND M].
  split; [exact ND|].
  assert (M' : forall a, In a archs <->
                 a <> lit "all"
                 /\ exists line h f, In line (readlines text)
                      /\ yields line h f /\ arch_segment f = Some a).
  { intros a. rewrite M. split; [intros [[] | X]; exact X | auto]. }
  split; [|exact M']. intros I. apply M' in I. destruct I as [NA _].
  apply NA. reflexivity.
Qed.

Lemma architectures_exact_witness :
  NoDup [lit "arm"; lit "armhf"]
  /\ ~ In (lit "all") [lit "arm"; lit "armhf"]
  /\ forall a, In a [lit "arm"; lit "armhf"] <->
       a <> lit "all"
       /\ exists line h f, In line (readlines arm_manifest) /\ yields line h f
                           /\ arch_segment f = Some a.
Proof.
  apply (architectures_exact [] arm_manifest arm_index).
  vm_compute. reflexivity.
Defined.

(** ** The index from one round to the next *)

Lemma parse_lines_keeps (lines : list pystr) :
  forall idx archs idx' archs',
  parse_lines (idx, archs) lines = Ok (idx', archs') ->
  forall k v, In (k, v) idx ->
  (forall line v', In line lines -> ~ yields line k v') ->
  In (k, v) idx'.
Proof.
  intros idx archs idx' archs' H k v I O.
  apply (parse_lines_other lines k) with (v := v) in H; [apply H; exact I|].
  intros l Hl Q F.
  destruct (split_ws l) as [|h [|f r]] eqn:T.
  - unfold line_qualifies, last_token, ends_with_deb in Q. rewrite T in Q.
    discriminate Q.
  - (* one token: the parser would have raised *)
    clear O I. revert idx archs H. induction lines as [|l0 ls IH];
      [destruct Hl|]. intros idx archs H. cbn [parse_lines] in H.
    destruct (parse_line (idx, archs) l0) as [[idx1 archs1]|e] eqn:P;
      [|discriminate H].
    cbn [rbind] in H. destruct Hl as [-> | Hl]; [|apply (IH Hl _ _ H)].
    destruct (parse_line_step _ _ _ _ _ P)
      as [(Q' & _) | (h' & f' & a & (_ & _ & T1) & _)].
    + congruence.
    + rewrite T in T1. discriminate T1.
  - apply (O l f Hl). unfold yields. rewrite T.
    cbn [nth_error]. unfold first_token in F. rewrite T in F. cbn [hd] in F.
    subst h. auto.
Qed.

(** X9. The index is never emptied. When the parser returns, the
    digests that the index held before are still its first digests, in
    their order, and an entry whose digest no line of the manifest
    records is still there: what an earlier round read stays in the
    index of the next. *)
Theorem index_persists :
  forall (index0 : dict) (text : pystr) (index : dict) (archs : list pystr),
    parse_manifest index0 text = Ok (index, archs) ->
    is_prefix (map fst index0) (map fst index)
    /\ forall k v, In (k, v) index0 ->
         (forall line v', In line (readlines text) -> ~ yields line k v') ->
         In (k, v) index.
Proof.
  intros index0 text index archs H. unfold parse_manifest in H. split.
  - exact (parse_lines_keys_prefix _ _ _ _ _ H).
  - exact (parse_lines_keeps _ _ _ _ _ H).
Qed.

Lemma index_persists_witness :
  is_prefix (map fst [(digest_short, image_arm)])
    (map fst ((digest_short, image_arm) :: release_index))
  /\ forall k v, In (k, v) [(digest_short, image_arm)] ->
       (forall line v', In line (readlines release_manifest) ->
          ~ yields line k v') ->
       In (k, v) ((digest_short, image_arm) :: release_index).
Proof.
  apply (index_persists [(digest_short, image_arm)] release_manifest
           ((digest_short, image_arm) :: release_index) [lit "amd64"]).
  vm_compute. reflexivity.
Defined.

(** ** A release without packages *)

Lemma parse_lines_has_key (lines : list pystr) :
  forall idx archs idx' archs',
  parse_lines (idx, archs) lines = Ok (idx', archs') ->
  forall line h f, In line lines -> yields line h f -> In h (map fst idx').
Proof.
  induction lines as [|l ls IH]; intros idx archs idx' archs' H line h f I Y;
    [destruct I|].
  cbn [parse_lines] in H.
  destruct (parse_line (idx, archs) l) as [[idx1 archs1]|e] eqn:P;
    [|discriminate H].
  cbn [rbind] in H. destruct I as [-> | I]; [|apply (IH _ _ _ _ H line h f I Y)].
  destruct (parse_lines_keys_prefix _ _ _ _ _ H) as [r ->].
  apply in_or_app. left.
  destruct (yields_first_token _ _ _ Y) as [Q F].
  destruct (parse_line_step _ _ _ _ _ P)
    as [(Q' & _) | (h' & f' & a & _ & F' & _ & -> & _)]; [congruence|].
  assert (E : h' = h) by congruence. rewrite E.
  apply in_map_iff. exists (h, f'). split; [reflexivity | apply dict_set_has].
Qed.

(** X10. The test for an empty release looks at the architectures only:
    after the parser has returned, the script goes on when a line of the
    manifest that passes both tests records a file for an architecture
    other than [all], and ends with [exit_script(0)] when none does,
    whatever the index holds. *)
Theorem release_needs_an_architecture :
  forall (index0 : dict) (text : pystr) (index : dict) (archs : list pystr),
    parse_manifest index0 text = Ok (index, archs) ->
    ((exists line h f a, In line (readlines text) /\ yields line h f
                         /\ arch_segment f = Some a /\ a <> lit "all") ->
     check_release (index, archs) = ret tt)
    /\ ((forall line h f a, In line (readlines text) -> yields line h f ->
           arch_segment f = Some a -> a = lit "all") ->
        check_release (index, archs) = exit_script 0).
Proof.
  intros index0 text index archs H. unfold parse_manifest in H.
  destruct (parse_lines_archs _ _ _ _ _ H (NoDup_nil _)) as [_ M].
  unfold check_release. split.
  - intros (line & h & f & a & I & Y & A & NA).
    assert (Ia : In a archs).
    { apply M. right. split; [exact NA|]. exists line, h, f. auto. }
    pose proof (parse_lines_has_key _ _ _ _ _ H line h f I Y) as Ik.
    destruct index; [destruct Ik|]. destruct archs; [destruct Ia|].
    reflexivity.
  - intros All. destruct archs as [|a r];
      [rewrite orb_true_r; reflexivity|].
    exfalso. assert (Ia : In a (a :: r)) by (left; reflexivity).
    apply M in Ia. destruct Ia as [[] | (NA & line & h & f & I & Y & A)].
    apply NA. apply (All line h f a I Y A).
Qed.

Lemma release_needs_an_architecture_witness :
  ((exists line h f a, In line (readlines release_manifest)
      /\ yields line h f /\ arch_segment f = Some a /\ a <> lit "all") ->
   check_release (release_index, [lit "amd64"]) = ret tt)
  /\ ((forall line h f a, In line (readlines release_manifest) ->
         yields line h f -> arch_segment f = Some a -> a = lit "all") ->
      check_release (release_index, [lit "amd64"]) = exit_script 0).
Proof.
  apply (release_needs_an_architecture [] release_manifest release_index
           [lit "amd64"]).
  vm_compute. reflexivity.
Defined.

(** ** The download loop, exactly *)

Section Fetching.

Variable E : env.
Variables version_dir dir : pystr.

Lemma fetch_file_outcome (downloaded : list pystr) (h f : pystr) :
  outcome (fetch_file E version_dir dir downloaded h f)
    = (if sizable E (dir ++ sep ++ f) && digestible E (dir ++ sep ++ f)
       then Ok (if got E version_dir dir f
                then downloaded ++ [dir ++ sep ++ f] else downloaded)
       else Raise AttributeError)
  /\ downloads (trace (fetch_file E version_dir dir downloaded h f))
     = [dir ++ sep ++ f].
Proof.
  unfold fetch_file, report_download, get_file_size, sizable, digestible, got.
  destruct (download_file E _ (dir ++ sep ++ f)),
    (builtin_downloader E), (getsize E (dir ++ sep ++ f)), (IS_PYTHON3 E),
    (sha1sum_output E (dir ++ sep ++ f)); split; reflexivity.
Qed.

Lemma fetch_checksums_outcome :
  outcome (fetch_checksums E version_dir dir)
    = (if sizable E (dir ++ sep ++ CHECKSUMS_FILE)
       then Ok (if got E version_dir dir CHECKSUMS_FILE
                then [dir ++ sep ++ CHECKSUMS_FILE] else [])
       else Raise AttributeError)
  /\ downloads (trace (fetch_checksums E version_dir dir))
     = [dir ++ sep ++ CHECKSUMS_FILE].
Proof.
  unfold fetch_checksums, report_download, get_file_size, sizable, got.
  destruct (download_file E _ (dir ++ sep ++ CHECKSUMS_FILE)),
    (builtin_downloader E), (getsize E (dir ++ sep ++ CHECKSUMS_FILE)),
    (IS_PYTHON3 E); split; reflexivity.
Qed.

Lemma fetch_loop_outcome (arch flavor : pystr) (items : dict) :
  forall downloaded,
  outcome (fetch_loop E version_dir dir arch flavor items downloaded)
    = (if forallb (fun f => sizable E (dir ++ sep ++ f)
                            && digestible E (dir ++ sep ++ f))
            (selected_files items arch flavor)
       then Ok (downloaded
                ++ paths_in dir (filter (got E version_dir dir)
                                   (selected_files items arch flavor)))
       else Raise AttributeError)
  /\ is_prefix
       (downloads (trace (fetch_loop E version_dir dir arch flavor items
                            downloaded)))
       (paths_in dir (selected_files items arch flavor)).
Proof.
  unfold selected_files.
  induction items as [|[h f] rest IH]; intros downloaded.
  - cbn. rewrite app_nil_r. split; [reflexivity | apply is_prefix_nil].
  - cbn [fetch_loop map snd filter].
    destruct (selected arch flavor f) eqn:S; [|apply IH].
    destruct (fetch_file_outcome downloaded h f) as [O T].
    rewrite outcome_bind, trace_bind, O, downloads_app, T.
    cbn [forallb filter paths_in map app].
    destruct (sizable E (dir ++ sep ++ f) && digestible E (dir ++ sep ++ f)).
    + cbn [andb].
      destruct (got E version_dir dir f).
      * destruct (IH (downloaded ++ [dir ++ sep ++ f])) as [O' T'].
        rewrite O'. split; [|apply is_prefix_cons; exact T'].
        destruct (forallb _ _); [|reflexivity].
        cbn [paths_in map]. rewrite <- app_assoc. reflexivity.
      * destruct (IH downloaded) as [O' T'].
        rewrite O'. split; [reflexivity | apply is_prefix_cons; exact T'].
    + cbn [andb]. split; [reflexivity|].
      apply is_prefix_cons, is_prefix_nil.
Qed.

Lemma fetch_loop_all_downloads (arch flavor : pystr) (items : dict) :
  forall downloaded l,
  outcome (fetch_loop E version_dir dir arch flavor items downloaded) = Ok l ->
  downloads (trace (fetch_loop E version_dir dir arch flavor items downloaded))
    = paths_in dir (selected_files items arch flavor).
Proof.
  unfold selected_files.
  induction items as [|[h f] rest IH]; intros downloaded l H; [reflexivity|].
  cbn [fetch_loop map snd filter] in *.
  destruct (selected arch flavor f) eqn:S; [|apply (IH _ _ H)].
  destruct (fetch_file_outcome downloaded h f) as [O T].
  rewrite outcome_bind in H. rewrite trace_bind, downloads_app, T.
  destruct (outcome (fetch_file E version_dir dir downloaded h f)) as [l1|e];
    [|discriminate H].
  cbn [paths_in map app]. f_equal. apply (IH _ _ H).
Qed.

End Fetching.

(** X11. What a round of downloads returns. The download loop raises
    AttributeError when the size of a path it meets cannot be read under
    Python 3, or the digest tool prints no digest for a selected file;
    otherwise it returns the paths of the CHECKSUMS file and of the
    selected files whose download succeeded, in the order of the index,
    whatever the digests are. In either case the downloads it starts are
    those of the CHECKSUMS file and of selected files, in that order,
    and all of them when it returns. *)
Theorem fetch_all_exact :
  forall (E : env) (version_dir dir arch flavor : pystr) (index : dict),
    let files := selected_files index arch flavor in
    let run := fetch_all E version_dir dir arch flavor index in
    outcome run
      = (if fetch_returns E dir files
         then Ok (paths_in dir (filter (got E version_dir dir)
                                  (CHECKSUMS_FILE :: files)))
         else Raise AttributeError)
    /\ is_prefix (downloads (trace run))
         (paths_in dir (CHECKSUMS_FILE :: files))
    /\ (fetch_returns E dir files = true ->
        downloads (trace run) = paths_in dir (CHECKSUMS_FILE :: files)).
Proof.
  intros E version_dir dir arch flavor index files run.
  unfold run, fetch_all, fetch_returns.
  destruct (fetch_checksums_outcome E version_dir dir) as [O T].
  rewrite outcome_bind, trace_bind, downloads_app, O, T.
  cbn [paths_in map app filter].
  destruct (sizable E (dir ++ sep ++ CHECKSUMS_FILE)); cbn [andb].
  - match goal with
    | |- context [fetch_loop E version_dir dir arch flavor index ?d] =>
        destruct (fetch_loop_outcome E version_dir dir arch flavor index d)
          as [O' T'];
        pose proof (fetch_loop_all_downloads E version_dir dir arch flavor
                      index d) as A
    end.
    fold files in O', T', A |- *. rewrite O'.
    split; [|split].
    + match goal with |- (if ?b then _ else _) = _ => destruct b end;
        [|reflexivity].
      destruct (got E version_dir dir CHECKSUMS_FILE); reflexivity.
    + apply is_prefix_cons. exact T'.
    + intros F. rewrite F in O'. f_equal. apply (A _ O').
  - split; [reflexivity|]. split; [|discriminate].
    apply is_prefix_cons, is_prefix_nil.
Qed.

(** ** The digest of a downloaded file *)

Lemma fetch_file_verdict (E : env) (version_dir dir : pystr)
    (downloaded : list pystr) (h f : pystr) :
  digest_differs E (dir ++ sep ++ f) h ->
  forall l, outcome (fetch_file E version_dir dir downloaded h f) = Ok l ->
  In (Print MsgFileCorrupted)
     (trace (fetch_file E version_dir dir downloaded h f)).
Proof.
  intros (d & D & N) l. unfold fetch_file, report_download, get_file_size.
  rewrite D, N.
  destruct (download_file E _ (dir ++ sep ++ f)),
    (builtin_downloader E), (getsize E (dir ++ sep ++ f)), (IS_PYTHON3 E);
    cbn; intros H; try discriminate H; tauto.
Qed.

Lemma fetch_loop_verdict (E : env) (version_dir dir arch flavor : pystr)
    (items : dict) (h f : pystr) :
  In (h, f) items -> selected arch flavor f = true ->
  digest_differs E (dir ++ sep ++ f) h ->
  forall downloaded l,
  outcome (fetch_loop E version_dir dir arch flavor items downloaded) = Ok l ->
  In (Print MsgFileCorrupted)
     (trace (fetch_loop E version_dir dir arch flavor items downloaded)).
Proof.
  intros I S D. induction items as [|[h0 f0] rest IH]; [destruct I|].
  intros downloaded l H. cbn [fetch_loop] in *.
  destruct I as [I | I].
  - inversion I; subst. rewrite S in *. rewrite outcome_bind in H.
    rewrite trace_bind. apply in_or_app. left.
    destruct (outcome (fetch_file E version_dir dir downloaded h f))
      as [l1|e] eqn:O; [|discriminate H].
    apply (fetch_file_verdict E version_dir dir downloaded h f D l1 O).
  - destruct (selected arch flavor f0); [|apply (IH I _ _ H)].
    rewrite outcome_bind in H. rewrite trace_bind. apply in_or_app. right.
    destruct (outcome (fetch_file E version_dir dir downloaded h0 f0))
      as [l1|e]; [|discriminate H].
    apply (IH I _ _ H).
Qed.

(** X12. The check of the digest is advisory. A selected file whose
    download succeeded and for which the digest tool prints another
    digest than the manifest is reported as possibly corrupted, is on
    the list that the downloads return all the same, and is handed to
    dpkg when root accepts the installation and the lock is free. *)
Theorem corrupted_file_is_installed :
  forall (E : env) (U : user) (version_dir dir arch flavor : pystr)
         (index : dict) (h f : pystr) (l : list pystr),
    outcome (fetch_all E version_dir dir arch flavor index) = Ok l ->
    In (h, f) index ->
    selected arch flavor f = true ->
    got E version_dir dir f = true ->
    digest_differs E (dir ++ sep ++ f) h ->
    In (Print MsgFileCorrupted)
       (trace (fetch_all E version_dir dir arch flavor index))
    /\ In (dir ++ sep ++ f) l
    /\ (geteuid E = 0%Z -> install_answer U = Yes -> lock_events U = [] ->
        In (quote E (dir ++ sep ++ f))
           (dpkg_calls (trace (post_download E U l)))).
Proof.
  intros E U version_dir dir arch flavor index h f l H I S G D.
  unfold fetch_all in *. rewrite outcome_bind in H. rewrite trace_bind.
  destruct (fetch_checksums_outcome E version_dir dir) as [O _].
  destruct (outcome (fetch_checksums E version_dir dir)) as [l0|e];
    [|discriminate H].
  assert (L0 : exists n0, l0 = paths_in dir n0).
  { destruct (sizable E (dir ++ sep ++ CHECKSUMS_FILE)); [|discriminate O].
    inversion O. destruct (got E version_dir dir CHECKSUMS_FILE);
      [exists [CHECKSUMS_FILE] | exists []]; reflexivity. }
  destruct L0 as [n0 ->].
  destruct (fetch_loop_outcome E version_dir dir arch flavor index
              (paths_in dir n0)) as [O' _].
  rewrite H in O'.
  match type of O' with _ = (if ?b then _ else _) => destruct b end;
    [|discriminate O'].
  inversion O' as [L]. clear O'.
  assert (Hf : In f (filter (got E version_dir dir)
                       (selected_files index arch flavor))).
  { apply filter_In. split; [|exact G]. unfold selected_files.
    apply filter_In. split; [|exact S].
    apply in_map_iff. exists (h, f). auto. }
  split; [|split].
  - apply in_or_app. right.
    apply (fetch_loop_verdict E version_dir dir arch flavor index h f I S D
             _ l H).
  - apply in_or_app. right. unfold paths_in. apply in_map_iff.
    exists f. auto.
  - intros R Y Lk.
    set (names := n0 ++ filter (got E version_dir dir)
                          (selected_files index arch flavor)).
    assert (Ln : paths_in dir n0
                 ++ paths_in dir (filter (got E version_dir dir)
                                    (selected_files index arch flavor))
                 = paths_in dir names).
    { unfold names, paths_in. rewrite map_app. reflexivity. }
    rewrite Ln.
    assert (In f names) as Inames by (apply in_or_app; right; exact Hf).
    rewrite (post_download_installs_all E U (paths_in dir names)); try assumption.
    + apply in_map. apply filter_In. split.
      * apply (Permutation_in _ (sort_by_len_perm _)).
        unfold paths_in. apply in_map_iff. exists f. auto.
      * pose proof (selected_deb arch flavor f S) as X.
        unfold not_checksums.
        rewrite (is_package_path dir f (or_intror X)).
        unfold is_package. apply negb_true_iff, str_eqb_neq. intros F.
        rewrite F in X. vm_compute in X. discriminate X.
    + rewrite nothing_downloaded_paths. destruct names; [destruct Inames|].
      reflexivity.
Qed.

Lemma corrupted_file_is_installed_witness :
  In (Print MsgFileCorrupted)
     (trace (fetch_all kind_world (lit "v4.9.5") download_dir
               (lit "amd64") (lit "generic") release_index))
  /\ In (download_dir ++ sep ++ image_generic)
        (paths_in download_dir downloaded_names)
  /\ (geteuid kind_world = 0%Z -> install_answer willing_user = Yes ->
      lock_events willing_user = [] ->
      In (quote kind_world (download_dir ++ sep ++ image_generic))
         (dpkg_calls (trace (post_download kind_world willing_user
                               (paths_in download_dir downloaded_names))))).
Proof.
  apply (corrupted_file_is_installed kind_world willing_user (lit "v4.9.5")
           download_dir (lit "amd64") (lit "generic") release_index
           digest_b image_generic).
  - vm_compute. reflexivity.
  - right; left; reflexivity.
  - vm_compute. reflexivity.
  - reflexivity.
  - exists (lit "da39a3ee5e6b4b0d3255bfef95601890afd80709").
    split; vm_compute; reflexivity.
Defined.

(** ** The installation: errors, the lock, the reboot *)

Lemma last_cons_default (c d : Z) (l : list Z) :
  last (c :: l) d = last l c.
Proof.
  revert c d; induction l as [|x l IH]; intros c d; [reflexivity|].
  change (last (c :: x :: l) d) with (last (x :: l) d).
  rewrite (IH x d), (IH x c). reflexivity.
Qed.

(** The lock prompt returns, or leaves by [exit_script(1)] after the
    message of an abort. *)
Lemma wait_for_lock_raises (locks : list lock_event) (e : exn) :
  outcome (wait_for_lock locks) = Raise e ->
  e = SystemExit 1
  /\ In (Print MsgAbortSelected) (trace (wait_for_lock locks)).
Proof.
  induction locks as [|[|d] rest IH]; try discriminate.
  cbn [wait_for_lock]. destruct d.
  - unfold bind, emit, request_user_yes_no_abort_script, ret.
    cbn. destruct (wait_for_lock rest) as [t r]. cbn in *.
    intros H. destruct (IH H) as [-> I]. split; [reflexivity|].
    right; right; right. exact I.
  - discriminate.
  - cbn. intros H. inversion H. split; [reflexivity|]. tauto.
Qed.

Lemma wait_for_lock_no_reboot (locks : list lock_event) :
  ~ In Reboot (trace (wait_for_lock locks)).
Proof.
  induction locks as [|[|d] rest IH];
    try (cbn; intuition discriminate).
  cbn [wait_for_lock]. destruct d; try (cbn; intuition discriminate).
  unfold bind, emit, request_user_yes_no_abort_script, ret. cbn.
  destruct (wait_for_lock rest) as [t r]. cbn in *.
  intuition discriminate.
Qed.

Section Accounting.

Variable E : env.

Lemma install_loop_state (files : list pystr) :
  forall locks codes errors last_code,
  let run := install_loop E files locks codes errors last_code in
  (forall st, outcome run = Ok st ->
     error_occurred st
       = errors + length (filter failed (consumed codes (trace run)))
     /\ last_error_code st
        = last (filter failed (consumed codes (trace run))) last_code)
  /\ (forall e, outcome run = Raise e ->
        e = SystemExit 1 /\ In (Print MsgAbortSelected) (trace run))
  /\ ~ In Reboot (trace run).
Proof.
  unfold consumed.
  induction files as [|p rest IH]; intros locks codes errors last_code.
  - cbn. split; [|split; [discriminate | tauto]].
    intros st H. inversion H; subst. cbn. split; [lia | reflexivity].
  - cbn zeta. cbn [install_loop].
    rewrite outcome_bind, calls_bind, wait_for_lock_no_calls, trace_bind.
    cbn [app].
    pose proof (wait_for_lock_raises locks) as WR.
    pose proof (wait_for_lock_no_reboot locks) as WN.
    destruct (outcome (wait_for_lock locks)) as [[stop locks']|e0].
    + destruct stop.
      * cbn. split; [|split; [discriminate|]].
        -- intros st H. inversion H; subst. cbn. split; [lia | reflexivity].
        -- rewrite app_nil_r. exact WN.
      * destruct (negb (str_eqb (basename p) CHECKSUMS_FILE)).
        -- rewrite !outcome_bind, !calls_bind, !trace_bind.
           cbn [emit trace outcome fst snd dpkg_calls flat_map app length].
           destruct codes as [|c codes']; cbn [next_code].
           ++ change (negb (0 =? 0)%Z) with false. cbv iota.
              specialize (IH locks' [] errors last_code). cbn zeta in IH.
              destruct IH as (S1 & S2 & S3).
              rewrite firstn_nil in *. cbn [firstn].
              split; [exact S1|]. split.
              ** intros e H. destruct (S2 e H) as [-> I].
                 split; [reflexivity|]. apply in_or_app. right.
                 right; right. exact I.
              ** intros H. apply in_app_or in H.
                 destruct H as [H | [H | [H | H]]];
                   [exact (WN H) | discriminate H | discriminate H
                   | exact (S3 H)].
           ++ fold (failed c). cbn [firstn filter].
              destruct (failed c) eqn:F.
              ** specialize (IH locks' codes' (S errors) c). cbn zeta in IH.
                 destruct IH as (S1 & S2 & S3). split; [|split].
                 --- intros st H. destruct (S1 st H) as [A B].
                     rewrite A, B. cbn [length].
                     rewrite last_cons_default. split; [lia | reflexivity].
                 --- intros e H. destruct (S2 e H) as [-> I].
                     split; [reflexivity|]. apply in_or_app. right.
                     right; right. exact I.
                 --- intros H. apply in_app_or in H.
                     destruct H as [H | [H | [H | H]]];
                       [exact (WN H) | discriminate H | discriminate H
                       | exact (S3 H)].
              ** specialize (IH locks' codes' errors last_code).
                 cbn zeta in IH.
                 destruct IH as (S1 & S2 & S3). split; [exact S1|]. split.
                 --- intros e H. destruct (S2 e H) as [-> I].
                     split; [reflexivity|]. apply in_or_app. right.
                     right; right. exact I.
                 --- intros H. apply in_app_or in H.
                     destruct H as [H | [H | [H | H]]];
                       [exact (WN H) | discriminate H | discriminate H
                       | exact (S3 H)].
        -- specialize (IH locks' codes errors last_code). cbn zeta in IH.
           destruct IH as (S1 & S2 & S3). split; [exact S1|]. split.
           ++ intros e H. destruct (S2 e H) as [-> I].
              split; [reflexivity|]. apply in_or_app. right. exact I.
           ++ intros H. apply in_app_or in H.
              destruct H as [H | H]; [exact (WN H) | exact (S3 H)].
    + cbn. rewrite app_nil_r. split; [discriminate|]. split; [|exact WN].
      intros e H. inversion H; subst. apply WR. reflexivity.
Qed.

End Accounting.

(** The calls of dpkg do not depend on what dpkg returns. *)
Lemma install_loop_calls_any_codes (E : env) (files : list pystr) :
  forall locks codes errors last_code codes' errors' last_code',
  dpkg_calls (trace (install_loop E files locks codes errors last_code))
  = dpkg_calls (trace (install_loop E files locks codes' errors' last_code')).
Proof.
  induction files as [|p rest IH];
    intros locks codes errors last_code codes' errors' last_code';
    [reflexivity|].
  cbn [install_loop]. rewrite !calls_bind, wait_for_lock_no_calls.
  cbn [app].
  destruct (outcome (wait_for_lock locks)) as [[stop locks']|e];
    [|reflexivity].
  destruct stop; [reflexivity|].
  destruct (negb (str_eqb (basename p) CHECKSUMS_FILE)); [|apply IH].
  rewrite !calls_bind.
  cbn [emit trace outcome fst snd dpkg_calls flat_map app].
  destruct (next_code codes) as [c r], (next_code codes') as [c' r'].
  destruct (negb (c =? 0)%Z), (negb (c' =? 0)%Z); f_equal; apply IH.
Qed.

(** A loop that returns without having been given up at the lock has
    handed every package file to dpkg. *)
Lemma install_loop_all_calls (E : env) (files : list pystr) :
  forall locks codes errors last_code st,
  outcome (install_loop E files locks codes errors last_code) = Ok st ->
  exit_installation st = false ->
  dpkg_calls (trace (install_loop E files locks codes errors last_code))
  = map (quote E) (filter not_checksums files).
Proof.
  induction files as [|p rest IH];
    intros locks codes errors last_code st H X; [reflexivity|].
  cbn [install_loop] in *. rewrite outcome_bind in H.
  rewrite calls_bind, wait_for_lock_no_calls. cbn [app filter].
  destruct (outcome (wait_for_lock locks)) as [[stop locks']|e];
    [|discriminate H].
  destruct stop.
  { inversion H; subst. discriminate X. }
  unfold not_checksums at 1.
  destruct (negb (str_eqb (basename p) CHECKSUMS_FILE));
    [|apply (IH _ _ _ _ st H X)].
  rewrite !outcome_bind in H. rewrite !calls_bind.
  cbn [emit trace outcome fst snd dpkg_calls flat_map app map] in *.
  destruct (next_code codes) as [c r].
  destruct (negb (c =? 0)%Z); f_equal; apply (IH _ _ _ _ st H X).
Qed.

(** X13. The errors of the installation. When the installation loop
    returns, [error_occurred] is the number of return codes other than 0
    among the codes that its calls of dpkg consumed, and
    [last_error_code] is the last of them, 0 when there is none: later
    successes do not clear the error. A failing package does not end
    the loop: the calls of dpkg are those of a run in which every call
    returns 0, and when the loop was not given up at the lock they are
    the calls for all package files of the list. *)
Theorem install_errors_are_counted :
  forall (E : env) (files : list pystr) (locks : list lock_event)
         (codes : list Z) (st : install_state),
    let run := install_loop E files locks codes 0 0%Z in
    outcome run = Ok st ->
    error_occurred st = length (filter failed (consumed codes (trace run)))
    /\ last_error_code st
       = last (filter failed (consumed codes (trace run))) 0%Z
    /\ dpkg_calls (trace run)
       = dpkg_calls (trace (install_loop E files locks [] 0 0%Z))
    /\ (exit_installation st = false ->
        dpkg_calls (trace run) = map (quote E) (filter not_checksums files)).
Proof.
  intros E files locks codes st run H.
  destruct (install_loop_state E files locks codes 0 0%Z) as (S1 & _).
  destruct (S1 st H) as [A B].
  split; [exact A|]. split; [exact B|]. split.
  - apply install_loop_calls_any_codes.
  - intros X. apply (install_loop_all_calls E files locks codes 0 0%Z st H X).
Qed.

Lemma install_errors_are_counted_witness :
  error_occurred {| exit_installation := false; error_occurred := 2;
                    last_error_code := 2%Z |}
    = length (filter failed
                (consumed [1%Z; 0%Z; 2%Z]
                   (trace (install_loop kind_world
                             (paths_in download_dir
                                [headers_all; image_generic; headers_generic])
                             [] [1%Z; 0%Z; 2%Z] 0 0%Z))))
  /\ last_error_code {| exit_installation := false; error_occurred := 2;
                        last_error_code := 2%Z |}
     = last (filter failed
               (consumed [1%Z; 0%Z; 2%Z]
                  (trace (install_loop kind_world
                            (paths_in download_dir
                               [headers_all; image_generic; headers_generic])
                            [] [1%Z; 0%Z; 2%Z] 0 0%Z)))) 0%Z
  /\ dpkg_calls
       (trace (install_loop kind_world
                 (paths_in download_dir
                    [headers_all; image_generic; headers_generic])
                 [] [1%Z; 0%Z; 2%Z] 0 0%Z))
     = dpkg_calls
         (trace (install_loop kind_world
                   (paths_in download_dir
                      [headers_all; image_generic; headers_generic])
                   [] [] 0 0%Z))
  /\ (exit_installation {| exit_installation := false; error_occurred := 2;
                           last_error_code := 2%Z |} = false ->
      dpkg_calls
        (trace (install_loop kind_world
                  (paths_in download_dir
                     [headers_all; image_generic; headers_generic])
                  [] [1%Z; 0%Z; 2%Z] 0 0%Z))
      = map (quote kind_world)
          (filter not_checksums
             (paths_in download_dir
                [headers_all; image_generic; headers_generic]))).
Proof.
  apply (install_errors_are_counted kind_world
           (paths_in download_dir [headers_all; image_generic;
                                   headers_generic])
           [] [1%Z; 0%Z; 2%Z]).
  vm_compute. reflexivity.
Defined.

(** X14. An abort at the prompt for the dpkg lock. The installation
    loop raises nothing but the SystemExit of [exit_script(1)], after
    the message of the abort: the prompt returns [YES_PRESSED] or
    [NO_PRESSED] only, and the [exit_script(0)] that the loop has for
    [ABORT_PRESSED] is never reached. *)
Theorem lock_abort_exits_one :
  forall (E : env) (files : list pystr) (locks : list lock_event)
         (codes : list Z) (errors : nat) (last_code : Z) (e : exn),
    let run := install_loop E files locks codes errors last_code in
    outcome run = Raise e ->
    e = SystemExit 1 /\ In (Print MsgAbortSelected) (trace run).
Proof.
  intros E files locks codes errors last_code e run H.
  destruct (install_loop_state E files locks codes errors last_code)
    as (_ & S2 & _).
  exact (S2 e H).
Qed.

Lemma lock_abort_exits_one_witness :
  SystemExit 1 = SystemExit 1
  /\ In (Print MsgAbortSelected)
        (trace (install_loop kind_world [download_dir ++ sep ++ headers_all]
                  [Held Yes; Held Abort] [] 0 0%Z)).
Proof.
  apply (lock_abort_exits_one kind_world [download_dir ++ sep ++ headers_all]
           [Held Yes; Held Abort] [] 0 0%Z (SystemExit 1)).
  vm_compute. reflexivity.
Defined.

Lemma prints_no_reboot {A} (g : A -> message) (l : list A) :
  ~ In Reboot (map (fun x => Print (g x)) l).
Proof.
  induction l as [|x l IH]; [intros []|].
  intros [H | H]; [discriminate H | exact (IH H)].
Qed.

(** X15. When the machine is rebooted. A run reboots only as root, after
    something was downloaded, the installation was accepted, every call
    of dpkg returned 0, the installation loop returned without having
    been given up at the lock, and the reboot was accepted; the run then
    returns. *)
Theorem reboot_only_after_clean_install :
  forall (E : env) (U : user) (downloaded : list pystr),
    let run := post_download E U downloaded in
    In Reboot (trace run) ->
    geteuid E = 0%Z
    /\ install_answer U = Yes
    /\ reboot_answer U = Yes
    /\ nothing_downloaded downloaded = false
    /\ (forall c, In c (consumed (dpkg_codes U) (trace run)) -> c = 0%Z)
    /\ outcome run = Ok tt
    /\ exists st,
         outcome (install_loop E (sort_by_len downloaded) (lock_events U)
                    (dpkg_codes U) 0 0%Z) = Ok st
         /\ exit_installation st = false.
Proof.
  intros E U downloaded run. unfold run, post_download, consumed.
  rewrite ?calls_bind, ?trace_bind, ?outcome_bind.
  cbn [emit trace outcome fst snd app dpkg_calls flat_map].
  destruct (nothing_downloaded downloaded).
  { cbn. intuition discriminate. }
  rewrite emit_all_run. cbn [trace outcome fst snd].
  rewrite prints_no_calls. cbn [app].
  pose proof (prints_no_reboot (fun f => MsgDownloadedFile (basename f))
                downloaded) as P1.
  destruct (geteuid E =? 0)%Z eqn:R.
  2:{ cbn [ret trace outcome fst snd]. rewrite app_nil_r.
      intros [H | H]; [discriminate H | contradiction]. }
  apply Z.eqb_eq in R.
  rewrite ?calls_bind, ?trace_bind, ?outcome_bind.
  cbn [emit trace outcome fst snd app dpkg_calls flat_map].
  rewrite emit_all_run. cbn [trace outcome fst snd].
  rewrite prints_no_calls. cbn [app].
  pose proof (prints_no_reboot (fun f => MsgInstallOrder (basename f))
                (filter (contains (lit ".deb")) (sort_by_len downloaded)))
    as P2.
  rewrite ?calls_bind, ?trace_bind, ?outcome_bind, ?request_no_calls.
  cbn [app].
  destruct (install_answer U);
    cbn [request_user_yes_no_abort_script bind emit ret exit_script raise
         trace outcome fst snd app];
    try (intros H; exfalso;
         repeat (rewrite ?in_app_iff in H; cbn [In] in H);
         intuition discriminate).
  change (YES_PRESSED =? YES_PRESSED) with true. cbv iota.
  rewrite ?calls_bind, ?trace_bind, ?outcome_bind.
  destruct (install_loop_state E (sort_by_len downloaded) (lock_events U)
              (dpkg_codes U) 0 0%Z) as (S1 & _ & S3).
  unfold consumed in S1.
  destruct (outcome (install_loop E (sort_by_len downloaded) (lock_events U)
                       (dpkg_codes U) 0 0%Z)) as [st|e].
  2:{ intros H; exfalso.
      repeat (rewrite ?in_app_iff in H; cbn [In] in H).
      intuition discriminate. }
  destruct (S1 st eq_refl) as [Er _].
  destruct (error_occurred st =? 0) eqn:Z; cbn [negb].
  2:{ intros H; exfalso.
      repeat (rewrite ?in_app_iff in H; cbn [In emit trace fst] in H).
      intuition discriminate. }
  apply Nat.eqb_eq in Z.
  destruct (exit_installation st) eqn:X; cbn [negb].
  { intros H; exfalso.
    repeat (rewrite ?in_app_iff in H; cbn [In ret trace fst] in H).
    intuition discriminate. }
  rewrite ?calls_bind, ?trace_bind, ?outcome_bind, ?request_no_calls.
  cbn [emit trace outcome fst snd app dpkg_calls flat_map].
  destruct (reboot_answer U);
    cbn [request_user_yes_no_abort_script bind emit ret exit_script raise
         trace outcome fst snd app dpkg_calls flat_map];
    [ | change (NO_PRESSED =? YES_PRESSED) with false; cbv iota;
        cbn [bind emit ret trace outcome fst snd app] | ];
    try (intros H; exfalso;
         repeat (rewrite ?in_app_iff in H; cbn [In] in H);
         intuition discriminate).
  change (YES_PRESSED =? YES_PRESSED) with true. cbv iota.
  cbn [emit trace outcome fst snd dpkg_calls flat_map]. intros _.
  split; [exact R|]. do 3 (split; [reflexivity|]).
  split; [|split; [reflexivity|]].
  - intros c Hc. rewrite !app_nil_r in Hc.
    rewrite Z in Er. symmetry in Er. apply length_zero_iff_nil in Er.
    destruct (failed c) eqn:F.
    + assert (I : In c (filter failed
                          (firstn (length (dpkg_calls (trace
                             (install_loop E (sort_by_len downloaded)
                                (lock_events U) (dpkg_codes U) 0 0%Z))))
                             (dpkg_codes U)))).
      { apply filter_In. split; assumption. }
      rewrite Er in I. destruct I.
    + unfold failed in F. apply negb_false_iff, Z.eqb_eq in F. exact F.
  - exists st. split; [reflexivity | exact X].
Qed.

Lemma reboot_only_after_clean_install_witness :
  geteuid kind_world = 0%Z
  /\ install_answer eager_user = Yes
  /\ reboot_answer eager_user = Yes
  /\ nothing_downloaded (paths_in download_dir downloaded_names) = false
  /\ (forall c,
        In c (consumed (dpkg_codes eager_user)
                (trace (post_download kind_world eager_user
                          (paths_in download_dir downloaded_names)))) ->
        c = 0%Z)
  /\ outcome (post_download kind_world eager_user
                (paths_in download_dir downloaded_names)) = Ok tt
  /\ exists st,
       outcome (install_loop kind_world
                  (sort_by_len (paths_in download_dir downloaded_names))
                  (lock_events eager_user) (dpkg_codes eager_user) 0 0%Z)
       = Ok st
       /\ exit_installation st = false.
Proof.
  apply (reboot_only_after_clean_install kind_world eager_user
           (paths_in download_dir downloaded_names)).
  vm_compute. repeat (first [left; reflexivity | right]).
Defined.

(** ** The prompt for yes, no or abort *)

(** The substrings of [yna]. *)
Lemma contains_yna (u : pystr) :
  contains u (lit "yna")
  = list_contains u [[]; lit "y"; lit "n"; lit "a"; lit "yn"; lit "na";
                     lit "yna"].
Proof.
  apply eq_true_iff_eq. rewrite contains_iff, list_contains_In. split.
  - intros (p & q & H).
    assert (U : u = firstn (length u) (skipn (length p) (lit "yna"))).
    { rewrite H, skipn_app, skipn_all, Nat.sub_diag. cbn [app skipn].
      rewrite firstn_app, firstn_all, Nat.sub_diag. cbn [firstn].
      symmetry. apply app_nil_r. }
    assert (L : length p + length u + length q = 3).
    { apply (f_equal (@length pychar)) in H. rewrite !length_app in H.
      cbn in H. lia. }
    rewrite U.
    destruct (length p) as [|[|[|[|]]]]; destruct (length u) as [|[|[|[|]]]];
      try lia; cbn; tauto.
  - intros H. cbn [In] in H.
    destruct H as [<- | [<- | [<- | [<- | [<- | [<- | [<- | []]]]]]]].
    + exists [], (lit "yna"). reflexivity.
    + exists [], (lit "na"). reflexivity.
    + exists (lit "y"), (lit "a"). reflexivity.
    + exists (lit "yn"), []. reflexivity.
    + exists [], (lit "a"). reflexivity.
    + exists (lit "y"), []. reflexivity.
    + exists [], []. reflexivity.
Qed.

Ltac word_or_not u w :=
  let W := fresh "W" in
  destruct (str_eqb u w) eqn:W;
  [apply str_eqb_eq in W; subst u|].

(** One turn of the loop, by what the line says. *)
Lemma yes_no_abort_turn (E : env) (line : pystr) (rest : list pystr) :
  Stdin.yes_no_abort_loop E (line :: rest)
  = let u := str_lower E (rstrip line) in
    match decides E line with
    | Some Yes => ([SaySelection u; SayDecision Yes], Returns YES_PRESSED rest)
    | Some No => ([SaySelection u; SayDecision No], Returns NO_PRESSED rest)
    | Some Abort =>
        ([SaySelection u; SayDecision Abort; SayAbort], Leaves (SystemExit 1))
    | None =>
        (SaySelection u
         :: (if list_contains u silent_lines then [] else [SayInvalid])
            ++ fst (Stdin.yes_no_abort_loop E rest),
         snd (Stdin.yes_no_abort_loop E rest))
    end.
Proof.
  cbn [Stdin.yes_no_abort_loop]. unfold decides. cbn zeta.
  generalize (str_lower E (rstrip line)). intros u.
  rewrite contains_yna.
  destruct (Stdin.yes_no_abort_loop E rest) as [t r]. cbn [fst snd].
  unfold list_contains, silent_lines. cbn [existsb].
  word_or_not u (lit "y"); [reflexivity|].
  word_or_not u (lit "yes"); [reflexivity|].
  word_or_not u (lit "n"); [reflexivity|].
  word_or_not u (lit "no"); [reflexivity|].
  word_or_not u (lit "a"); [reflexivity|].
  word_or_not u (lit "abort"); [reflexivity|].
  word_or_not u (@nil pychar); [reflexivity|].
  word_or_not u (lit "yn"); [reflexivity|].
  word_or_not u (lit "na"); [reflexivity|].
  word_or_not u (lit "yna"); reflexivity.
Qed.

(** X16. The prompt for yes, no or abort takes the first typed line
    that, without the white space at its end and in lower case, is one
    of y, yes, n, no, a and abort, and ends as that line says: it
    returns [YES_PRESSED] or [NO_PRESSED], with the later lines unread,
    or leaves by [exit_script(1)], as the prompt of the runs above does
    for the decision of that line. It never returns [ABORT_PRESSED], and
    when no typed line is one of the six it hangs. *)
Theorem yes_no_abort_takes_first_decision :
  forall (E : env) (lines : list pystr),
    snd (Stdin.request_user_yes_no_abort_script E lines)
    = match first_decision E lines with
      | Some (d, rest) =>
          match outcome (request_user_yes_no_abort_script d) with
          | Ok user_selection_number => Returns user_selection_number rest
          | Raise e => Leaves e
          end
      | None => Hangs
      end
    /\ (forall rest,
          snd (Stdin.request_user_yes_no_abort_script E lines)
          <> Returns ABORT_PRESSED rest).
Proof.
  intros E lines.
  assert (L : snd (Stdin.yes_no_abort_loop E lines)
              = match first_decision E lines with
                | Some (d, rest) =>
                    match outcome (request_user_yes_no_abort_script d) with
                    | Ok user_selection_number =>
                        Returns user_selection_number rest
                    | Raise e => Leaves e
                    end
                | None => Hangs
                end).
  { induction lines as [|line rest IH]; [reflexivity|].
    rewrite yes_no_abort_turn. cbn [first_decision].
    destruct (decides E line) as [[| |]|]; try reflexivity. exact IH. }
  unfold Stdin.request_user_yes_no_abort_script.
  destruct (Stdin.yes_no_abort_loop E lines) as [t r]. cbn [snd] in *.
  split; [exact L|]. intros rest. rewrite L.
  destruct (first_decision E lines) as [[[| |] rest']|]; discriminate.
Qed.

(** X17. The lines that the prompt passes over in silence. A typed line
    that decides nothing is answered with the words for an invalid input
    unless, without the white space at its end and in lower case, it is
    empty or one of yn, na and yna: for these the loop turns again
    without a word. *)
Theorem prompt_passes_over_in_silence :
  forall (E : env) (line : pystr) (rest : list pystr),
    decides E line = None ->
    let u := str_lower E (rstrip line) in
    fst (Stdin.yes_no_abort_loop E (line :: rest))
    = SaySelection u
      :: (if list_contains u silent_lines then [] else [SayInvalid])
         ++ fst (Stdin.yes_no_abort_loop E rest).
Proof.
  intros E line rest D u. rewrite yes_no_abort_turn, D. reflexivity.
Qed.

Lemma prompt_passes_over_in_silence_witness :
  decides kind_world nl = None
  /\ fst (Stdin.yes_no_abort_loop kind_world [nl; lit "maybe"])
     = [SaySelection []; SaySelection (lit "maybe"); SayInvalid].
Proof.
  split; [reflexivity|].
  exact (prompt_passes_over_in_silence kind_world nl [lit "maybe"] eq_refl).
Defined.

(** ** The prompt for a number *)

Section NumberPrompt.

Variable isdigit : pystr -> bool.
Variable int : pystr -> result Z.

Lemma number_loop_spec (objects : list pystr)
    (max_input_number max_digit_len : nat) (lines : list pystr) :
  match snd (Stdin.number_loop isdigit int objects max_input_number
               max_digit_len lines) with
  | Returns i rest =>
      (0 <= i < Z.of_nat max_input_number)%Z
      /\ exists pre line,
           lines = pre ++ line :: rest
           /\ (forall l, In l pre ->
                 refused isdigit int max_input_number max_digit_len l)
           /\ isdigit (rstrip line) = true
           /\ int (rstrip line) = Ok (i + 1)%Z
           /\ strlen_unicode (rstrip line) <= max_digit_len
  | Leaves e =>
      exists pre line post,
        lines = pre ++ line :: post
        /\ (forall l, In l pre ->
              refused isdigit int max_input_number max_digit_len l)
        /\ leaves_at isdigit int line e
  | Hangs =>
      forall l, In l lines ->
        refused isdigit int max_input_number max_digit_len l
  end.
Proof.
  induction lines as [|line rest IH]; [intros l []|].
  cbn [Stdin.number_loop].
  destruct (Stdin.number_loop isdigit int objects max_input_number
              max_digit_len rest) as [t r].
  cbn [snd] in IH.
  assert (Next : refused isdigit int max_input_number max_digit_len line ->
    match r with
    | Returns i rest0 =>
        (0 <= i < Z.of_nat max_input_number)%Z
        /\ exists pre line0,
             line :: rest = pre ++ line0 :: rest0
             /\ (forall l, In l pre ->
                   refused isdigit int max_input_number max_digit_len l)
             /\ isdigit (rstrip line0) = true
             /\ int (rstrip line0) = Ok (i + 1)%Z
             /\ strlen_unicode (rstrip line0) <= max_digit_len
    | Leaves e =>
        exists pre line0 post,
          line :: rest = pre ++ line0 :: post
          /\ (forall l, In l pre ->
                refused isdigit int max_input_number max_digit_len l)
          /\ leaves_at isdigit int line0 e
    | Hangs =>
        forall l, In l (line :: rest) ->
          refused isdigit int max_input_number max_digit_len l
    end).
  { intros R. destruct r as [i rest0|e|].
    - destruct IH as (Rg & pre & line0 & -> & P & D & I & S).
      split; [exact Rg|]. exists (line :: pre), line0.
      split; [reflexivity|]. split; [|auto].
      intros l [<- | Hl]; [exact R | exact (P l Hl)].
    - destruct IH as (pre & line0 & post & -> & P & L).
      exists (line :: pre), line0, post. split; [reflexivity|].
      split; [|exact L]. intros l [<- | Hl]; [exact R | exact (P l Hl)].
    - intros l [<- | Hl]; [exact R | exact (IH l Hl)]. }
  destruct (isdigit (rstrip line)) eqn:D; cbn [negb].
  2:{ cbn [snd]. apply Next. left. exact D. }
  destruct (int (rstrip line)) as [n|e] eqn:I.
  2:{ cbn [snd]. exists [], line, rest. split; [reflexivity|].
      split; [intros l []|]. split; [exact D|]. right. exact I. }
  destruct (n =? 0)%Z eqn:Z.
  { apply Z.eqb_eq in Z. subst n. cbn [snd].
    exists [], line, rest. split; [reflexivity|].
    split; [intros l []|]. split; [exact D|]. left.
    split; [exact I | reflexivity]. }
  apply Z.eqb_neq in Z.
  destruct ((n <? 0)%Z || (n >? Z.of_nat max_input_number)%Z
            || (max_digit_len <? strlen_unicode (rstrip line))) eqn:V.
  - cbn [snd]. apply Next. right. exists n. split; [exact I|].
    split; [exact Z|].
    rewrite !orb_true_iff, Z.ltb_lt, Z.gtb_ltb, Z.ltb_lt, Nat.ltb_lt in V.
    tauto.
  - cbn [snd]. rewrite !orb_false_iff, Z.ltb_ge, Z.gtb_ltb, Z.ltb_ge,
      Nat.ltb_ge in V. destruct V as [[V1 V2] V3].
    split; [lia|]. exists [], line. split; [reflexivity|].
    split; [intros l []|]. split; [exact D|]. split; [|exact V3].
    replace (n - 1 + 1)%Z with n by lia. exact I.
Qed.

End NumberPrompt.

(** X18. The prompt for a number. When it returns, the number returned
    is at least 0 and less than [max_input_number]: it is one less than
    the number of the first typed line that was not refused, a line of
    digits with no more characters than [max_digit_len]. It is left
    only at a line of digits that is a zero, by [exit_script(1)], or
    that [int] does not take; and it hangs only when every typed line
    was refused. *)
Theorem number_prompt_in_range :
  forall (isdigit : pystr -> bool) (int : pystr -> result Z)
         (objects : list pystr) (max_input_number max_digit_len : nat)
         (lines : list pystr),
    match snd (Stdin.request_user_input_number_exit_on_fail isdigit int
                 objects max_input_number max_digit_len lines) with
    | Returns i rest =>
        (0 <= i < Z.of_nat max_input_number)%Z
        /\ exists pre line,
             lines = pre ++ line :: rest
             /\ (forall l, In l pre ->
                   refused isdigit int max_input_number max_digit_len l)
             /\ isdigit (rstrip line) = true
             /\ int (rstrip line) = Ok (i + 1)%Z
             /\ strlen_unicode (rstrip line) <= max_digit_len
    | Leaves e =>
        exists pre line post,
          lines = pre ++ line :: post
          /\ (forall l, In l pre ->
                refused isdigit int max_input_number max_digit_len l)
          /\ leaves_at isdigit int line e
    | Hangs =>
        forall l, In l lines ->
          refused isdigit int max_input_number max_digit_len l
    end.
Proof.
  intros isdigit int objects max_input_number max_digit_len lines.
  apply number_loop_spec.
Qed.

(** X19. The selection of an architecture or a flavor. The element is
    read at the number that the prompt returns, which is a place of the
    list: the selection returns an element of the list, and no
    IndexError of its own; it is left only as the prompt is, and never
    returns for an empty list. *)
Theorem selection_is_in_the_list :
  forall (isdigit : pystr -> bool) (int : pystr -> result Z)
         (objects : list pystr) (lines : list pystr),
    match snd (Stdin.select isdigit int objects lines) with
    | Returns x rest =>
        In x objects
        /\ exists i,
             snd (Stdin.request_user_input_number_exit_on_fail isdigit int
                    objects (length objects) (length objects) lines)
             = Returns (Z.of_nat i) rest
             /\ nth_error objects i = Some x
    | Leaves e =>
        exists line, In line lines /\ leaves_at isdigit int line e
    | Hangs =>
        forall l, In l lines ->
          refused isdigit int (length objects) (length objects) l
    end.
Proof.
  intros isdigit int objects lines. unfold Stdin.select.
  pose proof (number_loop_spec isdigit int (lit "Abort script" :: objects)
                (length objects) (length objects) lines) as S.
  unfold Stdin.request_user_input_number_exit_on_fail in *.
  destruct (Stdin.number_loop isdigit int (lit "Abort script" :: objects)
              (length objects) (length objects) lines) as [t r].
  cbn [snd] in *. destruct r as [i rest|e|].
  - destruct S as (Rg & _). unfold getitem_int.
    destruct (i <? 0)%Z eqn:N; [apply Z.ltb_lt in N; lia|]. rewrite N.
    unfold getitem.
    destruct (nth_error objects (Z.to_nat i)) as [x|] eqn:X.
    + split; [apply (nth_error_In _ _ X)|]. exists (Z.to_nat i).
      rewrite Z2Nat.id by lia. auto.
    + apply nth_error_None in X. lia.
  - destruct S as (pre & line & post & -> & _ & L). exists line.
    split; [apply in_or_app; right; left; reflexivity | exact L].
  - exact S.
Qed.

Example select_sample :
  Stdin.select ascii_isdigit ascii_int [lit "amd64"; lit "i386"]
    [lit "two" ++ nl; lit "7" ++ nl; lit "002" ++ nl; lit "2" ++ nl;
     lit "y" ++ nl]
  = ([SayMenu [lit "Abort script"; lit "amd64"; lit "i386"];
      SayYourSelection; SayNotNumber;
      SayMenu [lit "Abort script"; lit "amd64"; lit "i386"];
      SayYourSelection; SayOutOfRange;
      SayMenu [lit "Abort script"; lit "amd64"; lit "i386"];
      SayYourSelection; SayOutOfRange;
      SayMenu [lit "Abort script"; lit "amd64"; lit "i386"];
      SayYourSelection],
     Returns (lit "i386") [lit "y" ++ nl]).
Proof. vm_compute. reflexivity. Qed.

(** ** The connection to the internet *)

Lemma probe_server_spec (connects : pystr -> Z -> bool) (s : pystr)
    (timeouts : list Z) :
  let (t, r) := probe_server connects s timeouts in
  is_prefix t (map (pair s) timeouts)
  /\ (if r
      then exists t0 timeout,
             t = t0 ++ [(s, timeout)] /\ In timeout timeouts
             /\ connects s timeout = true
             /\ forall a, In a t0 -> connects (fst a) (snd a) = false
      else t = map (pair s) timeouts
           /\ forall timeout, In timeout timeouts ->
                connects s timeout = false).
Proof.
  induction timeouts as [|x rest IH]; cbn [probe_server map].
  - split; [apply is_prefix_nil|]. split; [reflexivity | intros ? []].
  - destruct (connects s x) eqn:C.
    + split; [apply is_prefix_cons, is_prefix_nil|].
      exists [], x. split; [reflexivity|]. split; [left; reflexivity|].
      split; [exact C | intros ? []].
    + destruct (probe_server connects s rest) as [t r].
      destruct IH as [P R]. split; [apply is_prefix_cons; exact P|].
      destruct r.
      * destruct R as (t0 & timeout & -> & I & Ct & F).
        exists ((s, x) :: t0), timeout. split; [reflexivity|].
        split; [right; exact I|]. split; [exact Ct|].
        intros a [<- | Ha]; [exact C | exact (F a Ha)].
      * destruct R as [-> F]. split; [reflexivity|].
        intros timeout [<- | I]; [exact C | exact (F timeout I)].
Qed.

Lemma probe_servers_spec (connects : pystr -> Z -> bool)
    (servers : list pystr) (timeouts : list Z) :
  let (t, r) := probe_servers connects servers timeouts in
  is_prefix t (all_attempts servers timeouts)
  /\ match r with
     | Some (s, port) =>
         port = SERVER_PORT_TO_PROBE /\ In s servers
         /\ exists t0 timeout,
              t = t0 ++ [(s, timeout)] /\ In timeout timeouts
              /\ connects s timeout = true
              /\ forall a, In a t0 -> connects (fst a) (snd a) = false
     | None =>
         t = all_attempts servers timeouts
         /\ forall s timeout, In s servers -> In timeout timeouts ->
              connects s timeout = false
     end.
Proof.
  induction servers as [|s rest IH]; cbn [probe_servers all_attempts flat_map].
  - split; [apply is_prefix_nil|]. split; [reflexivity | intros ? ? []].
  - pose proof (probe_server_spec connects s timeouts) as S.
    destruct (probe_server connects s timeouts) as [t1 r1].
    destruct S as [P1 R1]. destruct r1.
    + split.
      * destruct P1 as [x ->]. exists (x ++ all_attempts rest timeouts).
        fold (all_attempts rest timeouts). symmetry. apply app_assoc.
      * split; [reflexivity|]. split; [left; reflexivity|]. exact R1.
    + destruct R1 as [-> F1].
      destruct (probe_servers connects rest timeouts) as [t2 r2].
      destruct IH as [P2 R2]. fold (all_attempts rest timeouts). split.
      * destruct P2 as [x ->]. exists x. apply app_assoc.
      * destruct r2 as [[s2 port]|].
        -- destruct R2 as (-> & I & t0 & timeout & -> & It & C & F).
           split; [reflexivity|]. split; [right; exact I|].
           exists (map (pair s) timeouts ++ t0), timeout.
           split; [apply app_assoc|]. split; [exact It|].
           split; [exact C|]. intros a Ha. apply in_app_or in Ha.
           destruct Ha as [Ha | Ha]; [|exact (F a Ha)].
           apply in_map_iff in Ha. destruct Ha as (x & <- & Ix).
           apply F1. exact Ix.
        -- destruct R2 as [-> F2]. split; [reflexivity|].
           intros s0 timeout [<- | I] It; [apply F1; exact It|].
           apply F2; assumption.
Qed.

Lemma seconds_app (t1 t2 : list attempt) :
  seconds (t1 ++ t2) = (seconds t1 + seconds t2)%Z.
Proof.
  unfold seconds. induction t1 as [|a t1 IH]; [reflexivity|].
  cbn [app map fold_right]. rewrite IH. lia.
Qed.

Lemma seconds_nonneg (t : list attempt) :
  (forall a, In a t -> (0 <= snd a)%Z) -> (0 <= seconds t)%Z.
Proof.
  unfold seconds. induction t as [|a t IH]; intros H; [cbn; lia|].
  cbn [map fold_right].
  pose proof (H a (or_introl eq_refl)).
  pose proof (IH (fun b Hb => H b (or_intror Hb))). lia.
Qed.

(** X20. The check of the connection. The servers are tried in their
    order, each with the timeouts of 1, 5 and 10 seconds in theirs, up
    to the first attempt that connects: the check returns the server of
    that attempt and port 80, and no attempt before it connected. It
    returns None exactly when none of the nine attempts connects. The
    timeouts of the attempts made add up to 48 seconds at most. *)
Theorem internet_check_stops_at_first_connection :
  forall connects : pystr -> Z -> bool,
    let t := fst (is_internet_available connects) in
    is_prefix t (all_attempts SERVERS_TO_PROBE_FOR_CONNECTION
                   SERVER_TIMEOUT_CYCLES_IN_SEC)
    /\ (seconds t <= 48)%Z
    /\ match snd (is_internet_available connects) with
       | Some (s, port) =>
           port = 80%Z /\ In s SERVERS_TO_PROBE_FOR_CONNECTION
           /\ exists t0 timeout,
                t = t0 ++ [(s, timeout)]
                /\ connects s timeout = true
                /\ forall a, In a t0 -> connects (fst a) (snd a) = false
       | None =>
           length t = 9
           /\ forall s timeout,
                In s SERVERS_TO_PROBE_FOR_CONNECTION ->
                In timeout SERVER_TIMEOUT_CYCLES_IN_SEC ->
                connects s timeout = false
       end.
Proof.
  intros connects t. unfold t, is_internet_available.
  pose proof (probe_servers_spec connects SERVERS_TO_PROBE_FOR_CONNECTION
                SERVER_TIMEOUT_CYCLES_IN_SEC) as S.
  destruct (probe_servers connects SERVERS_TO_PROBE_FOR_CONNECTION
              SERVER_TIMEOUT_CYCLES_IN_SEC) as [t1 r].
  cbn [fst snd]. destruct S as [P R]. split; [exact P|]. split.
  - destruct P as [x P].
    assert (T : seconds (t1 ++ x) = 48%Z) by (rewrite <- P; reflexivity).
    rewrite seconds_app in T.
    assert (0 <= seconds x)%Z; [|lia].
    apply seconds_nonneg. intros a Ha.
    assert (I : In a (all_attempts SERVERS_TO_PROBE_FOR_CONNECTION
                        SERVER_TIMEOUT_CYCLES_IN_SEC)).
    { rewrite P. apply in_or_app. right. exact Ha. }
    cbn in I.
    repeat (destruct I as [<- | I]; [cbn; lia|]). destruct I.
  - destruct r as [[s port]|].
    + destruct R as (-> & I & t0 & timeout & -> & _ & C & F).
      split; [reflexivity|]. split; [exact I|]. exists t0, timeout. auto.
    + destruct R as [-> F]. split; [reflexivity | exact F].
Qed.

Lemma connection_loop_outcome (rounds : list net_round) :
  outcome (connection_loop rounds)
  = if aborts_offline rounds then Raise (SystemExit 1) else Ok tt.
Proof.
  induction rounds as [|[connects d] rest IH]; [reflexivity|].
  cbn [connection_loop aborts_offline].
  destruct (snd (is_internet_available connects)) as [a|]; [reflexivity|].
  rewrite !outcome_bind. cbn [stop_progress_spinner emit outcome snd].
  destruct d; cbn [request_user_yes_no_abort_script bind emit ret exit_script
                   raise outcome snd]; try reflexivity.
  change (YES_PRESSED =? YES_PRESSED) with true. cbv iota. exact IH.
Qed.

(** X21. An abort before the [try] statement. At the prompt that
    follows a failed check of the connection, the answer to abort leaves
    main by [exit_script(1)] before the [try] statement is entered: the
    exit status is 1 and nothing of the download rounds is run. In
    every other case the loop ends, with a connection or with the
    answer no, the rounds are run, and the exit status is 0. *)
Theorem abort_at_connection_check_exits_one :
  forall (E : env) (rounds : list net_round) (body : M unit),
    let run := main_from_connection E rounds body in
    exit_status run = (if aborts_offline rounds then 1 else 0)%Z
    /\ (aborts_offline rounds = true ->
        outcome run = Raise (SystemExit 1)
        /\ trace run = trace (connection_loop rounds))
    /\ (aborts_offline rounds = false ->
        outcome run = Raise (SystemExit 0)
        /\ exists t,
             trace run
             = trace (connection_loop rounds) ++ trace body ++ t
               ++ [StopSpinner]).
Proof.
  intros E rounds body run. unfold run, main_from_connection, exit_status.
  rewrite outcome_bind, trace_bind, connection_loop_outcome.
  destruct (main_try_run E body) as [t T]. rewrite T.
  destruct (aborts_offline rounds); cbn [outcome trace fst snd].
  - split; [reflexivity|]. split; [|discriminate]. intros _.
    split; [reflexivity | apply app_nil_r].
  - split; [reflexivity|]. split; [discriminate|]. intros _.
    split; [reflexivity|]. exists t. reflexivity.
Qed.

(** ** The progress spinner *)

Lemma stopped_stays (calls : list spinner_call) (self : SpinningProgress) :
  abort_progress_sentinel self = Some true ->
  spinner_threads (fold_left call calls self) = spinner_threads self.
Proof.
  revert self; induction calls as [|c calls IH]; intros self H;
    [reflexivity|].
  cbn [fold_left]. destruct c; cbn [call].
  - unfold start. rewrite H. apply IH. exact H.
  - rewrite IH by reflexivity. reflexivity.
Qed.

(** X22. The spinner spins once. From its first state, the threads that
    a sequence of calls of [start] and [stop] starts are as many as the
    calls of [start] before the first call of [stop]: each of these
    starts a thread, whether or not one is running, and after a call of
    [stop] no call of [start] starts a thread again. *)
Theorem spinner_starts_until_first_stop :
  forall calls : list spinner_call,
    spinner_threads (fold_left call calls progress_spinner)
    = starts_before_stop calls.
Proof.
  intros calls.
  assert (G : forall self,
            abort_progress_sentinel self <> Some true ->
            spinner_threads (fold_left call calls self)
            = spinner_threads self + starts_before_stop calls).
  { induction calls as [|c calls IH]; intros self H.
    - cbn. lia.
    - cbn [fold_left starts_before_stop]. destruct c; cbn [call].
      + unfold start.
        destruct (abort_progress_sentinel self) as [[|]|] eqn:S;
          [congruence | |];
          rewrite IH by discriminate; cbn [spinner_threads]; lia.
      + rewrite stopped_stays by reflexivity. cbn. lia. }
  rewrite G by discriminate. reflexivity.
Qed.

(** ** A second round over the same manifest *)

Lemma dict_ext (d1 d2 : dict) :
  map fst d1 = map fst d2 -> NoDup (map fst d1) ->
  (forall k v, In (k, v) d1 -> In (k, v) d2) -> d1 = d2.
Proof.
  revert d2; induction d1 as [|[k v] d1 IH]; intros [|[k' v'] d2] K ND H;
    try discriminate K; [reflexivity|].
  cbn [map fst] in K. inversion K as [[Kk Kt]]. subst k'.
  inversion ND as [|? ? NI ND']; subst.
  assert (v' = v).
  { destruct (H k v (or_introl eq_refl)) as [X | X];
      [inversion X; reflexivity|].
    exfalso. apply NI. rewrite Kt. apply in_map_iff. exists (k, v). auto. }
  subst v'. f_equal. apply IH; [exact Kt | exact ND' |].
  intros k0 v0 I. destruct (H k0 v0 (or_intror I)) as [X | X]; [|exact X].
  inversion X; subst. exfalso. apply NI. apply in_map_iff.
  exists (k0, v0). auto.
Qed.

Lemma last_such {A} (p : A -> bool) (l : list A) :
  (exists x, In x l /\ p x = true) ->
  exists pre x post,
    l = pre ++ x :: post /\ p x = true
    /\ forall y, In y post -> p y = false.
Proof.
  induction l as [|a l IH]; intros (x & I & P); [destruct I|].
  destruct (existsb p l) eqn:X.
  - apply existsb_exists in X. destruct (IH X) as (pre & y & post & -> & Py & F).
    exists (a :: pre), y, post. auto.
  - exists [], a, l. split; [reflexivity|].
    assert (F : forall y, In y l -> p y = false).
    { intros y Hy. destruct (p y) eqn:Y; [|reflexivity].
      assert (existsb p l = true) by (apply existsb_exists; eauto).
      congruence. }
    split; [|exact F]. destruct I as [<- | I]; [exact P|].
    rewrite (F x I) in P. discriminate P.
Qed.

(** The parser does the same to the architectures whatever the index. *)
Lemma parse_lines_any_index (lines : list pystr) :
  forall idx archs idx' archs' idx2,
  parse_lines (idx, archs) lines = Ok (idx', archs') ->
  exists idx2', parse_lines (idx2, archs) lines = Ok (idx2', archs').
Proof.
  induction lines as [|l ls IH]; intros idx archs idx' archs' idx2 H.
  - inversion H; subst. exists idx2. reflexivity.
  - cbn [parse_lines] in *.
    destruct (parse_line (idx, archs) l) as [[idx1 archs1]|e] eqn:P;
      [|discriminate H].
    cbn [rbind] in H.
    assert (exists idx3, parse_line (idx2, archs) l = Ok (idx3, archs1))
      as [idx3 P2].
    { destruct (line_qualifies l) eqn:Q.
      - rewrite (parse_line_keep _ _ _ Q) in P.
        rewrite (parse_line_keep _ _ _ Q).
        destruct (split_ws l) as [|h [|f r]]; try discriminate P.
        destruct (arch_segment f); [|discriminate P].
        inversion P; subst. eexists. reflexivity.
      - rewrite (parse_line_skip _ _ Q) in P. inversion P; subst.
        rewrite (parse_line_skip _ _ Q). eexists. reflexivity. }
    rewrite P2. cbn [rbind]. apply (IH _ _ _ _ idx3 H).
Qed.

(** Lines whose digests are all in the index add no digest to it. *)
Lemma parse_lines_same_keys (lines : list pystr) :
  forall idx archs idx' archs',
  parse_lines (idx, archs) lines = Ok (idx', archs') ->
  (forall line h f, In line lines -> yields line h f -> In h (map fst idx)) ->
  map fst idx' = map fst idx.
Proof.
  induction lines as [|l ls IH]; intros idx archs idx' archs' H K.
  - inversion H; subst. reflexivity.
  - cbn [parse_lines] in H.
    destruct (parse_line (idx, archs) l) as [[idx1 archs1]|e] eqn:P;
      [|discriminate H].
    cbn [rbind] in H.
    assert (K1 : map fst idx1 = map fst idx).
    { destruct (parse_line_step _ _ _ _ _ P)
        as [(_ & -> & _) | (h & f & a & Y & _ & _ & -> & _)]; [reflexivity|].
      destruct (dict_set_keys idx h f) as [[_ E] | [NI _]]; [exact E|].
      exfalso. apply NI. apply (K l h f (or_introl eq_refl) Y). }
    rewrite <- K1. apply (IH _ _ _ _ H). intros line h f I Y.
    rewrite K1. apply (K line h f (or_intror I) Y).
Qed.

(** The last line that writes a digest decides what the index holds
    for it. *)
Lemma parse_lines_last_record (pre : list pystr) (line : pystr)
    (post : list pystr) (k : pystr) :
  forall idx0 archs0 idx archs,
  parse_lines (idx0, archs0) (pre ++ line :: post) = Ok (idx, archs) ->
  NoDup (map fst idx0) ->
  line_qualifies line = true -> first_token line = k ->
  (forall l, In l post -> line_qualifies l = true -> first_token l <> k) ->
  exists v, yields line k v /\ forall v', In (k, v') idx <-> v' = v.
Proof.
  intros idx0 archs0 idx archs H ND Q F O.
  rewrite parse_lines_app in H.
  destruct (parse_lines (idx0, archs0) pre) as [[idx1 archs1]|e] eqn:P1;
    [|discriminate H].
  cbn [rbind parse_lines] in H.
  destruct (parse_line (idx1, archs1) line) as [[idx2 archs2]|e] eqn:P2;
    [|discriminate H].
  cbn [rbind] in H.
  pose proof (parse_lines_nodup _ _ _ _ _ P1 ND) as ND1.
  destruct (parse_line_step _ _ _ _ _ P2)
    as [(Q' & _) | (h & f & a & Y & F' & _ & -> & _)]; [congruence|].
  assert (E : h = k) by congruence. rewrite E in *.
  exists f. split; [exact Y|]. intros v'.
  rewrite (parse_lines_other post k O _ _ _ _ H v'). split.
  - apply dict_set_lookup. exact ND1.
  - intros ->. apply dict_set_has.
Qed.

(** X23. A second round over the same manifest. When the parser has
    built the index and the architectures from a manifest, parsing the
    same manifest again with that index leaves both as they are. *)
Theorem second_round_same_index :
  forall (text : pystr) (index : dict) (archs : list pystr),
    parse_manifest [] text = Ok (index, archs) ->
    parse_manifest index text = Ok (index, archs).
Proof.
  intros text index archs H. unfold parse_manifest in *.
  destruct (parse_lines_any_index _ _ _ _ _ index H) as [index2 H2].
  rewrite H2. f_equal. f_equal.
  pose proof (parse_lines_nodup _ _ _ _ _ H (NoDup_nil _)) as ND.
  pose proof (parse_lines_nodup _ _ _ _ _ H2 ND) as ND2.
  assert (K : map fst index2 = map fst index).
  { apply (parse_lines_same_keys _ _ _ _ _ H2). intros line h f I Y.
    apply (parse_lines_has_key _ _ _ _ _ H line h f I Y). }
  symmetry. apply dict_ext; [symmetry; exact K | exact ND |].
  intros k v I.
  destruct (parse_lines_entries _ _ _ _ _ H k v I)
    as [[] | (line & Il & Y)].
  destruct (yields_first_token _ _ _ Y) as [Q F].
  destruct (last_such
              (fun l => line_qualifies l && str_eqb (first_token l) k)
              (readlines text)) as (pre & x & post & R & Px & Fp).
  { exists line. split; [exact Il|]. rewrite Q, F, str_eqb_refl. reflexivity. }
  apply andb_true_iff in Px. destruct Px as [Qx Fx].
  apply str_eqb_eq in Fx.
  assert (O : forall l, In l post -> line_qualifies l = true ->
                first_token l <> k).
  { intros l Hl Ql Fl. specialize (Fp l Hl). rewrite Ql, Fl, str_eqb_refl in Fp.
    discriminate Fp. }
  rewrite R in H, H2.
  destruct (parse_lines_last_record pre x post k _ _ _ _ H (NoDup_nil _)
              Qx Fx O) as (v1 & Y1 & M1).
  destruct (parse_lines_last_record pre x post k _ _ _ _ H2 ND Qx Fx O)
    as (v2 & Y2 & M2).
  assert (v2 = v1).
  { destruct Y1 as (_ & _ & T1). destruct Y2 as (_ & _ & T2). congruence. }
  subst v2. apply M2. apply M1. exact I.
Qed.

Lemma second_round_same_index_witness :
  parse_manifest release_index release_manifest
  = Ok (release_index, [lit "amd64"]).
Proof.
  apply (second_round_same_index release_manifest release_index
           [lit "amd64"]).
  vm_compute. reflexivity.
Defined.

(** ** What is installed *)

Lemma post_download_calls_when (E : env) (U : user) (downloaded : list pystr) :
  dpkg_calls (trace (post_download E U downloaded))
  = if negb (nothing_downloaded downloaded) && (geteuid E =? 0)%Z
       && match install_answer U with Yes => true | _ => false end
    then dpkg_calls (trace (install_loop E (sort_by_len downloaded)
                              (lock_events U) (dpkg_codes U) 0 0%Z))
    else [].
Proof.
  unfold post_download. rewrite calls_bind.
  cbn [emit trace outcome fst snd dpkg_calls flat_map app].
  rewrite calls_bind. destruct (nothing_downloaded downloaded); [reflexivity|].
  rewrite emit_all_run. cbn [trace outcome fst snd negb andb].
  rewrite prints_no_calls. cbn [app].
  destruct (geteuid E =? 0)%Z; [|reflexivity].
  rewrite calls_bind. cbn [emit trace outcome fst snd dpkg_calls flat_map app].
  rewrite calls_bind, emit_all_run. cbn [trace outcome fst snd].
  rewrite prints_no_calls. cbn [app].
  rewrite calls_bind, request_no_calls. cbn [app].
  destruct (install_answer U);
    cbn [request_user_yes_no_abort_script bind emit ret outcome snd
         exit_script raise]; try reflexivity.
  change (YES_PRESSED =? YES_PRESSED) with true. cbv iota.
  rewrite calls_bind.
  match goal with |- _ ++ ?tail = _ => assert (T : tail = []) end.
  { destruct (outcome (install_loop E (sort_by_len downloaded)
                         (lock_events U) (dpkg_codes U) 0 0%Z)) as [st|e];
      [|reflexivity].
    destruct (negb (error_occurred st =? 0)); [reflexivity|].
    destruct (negb (exit_installation st)); [|reflexivity].
    destruct (reboot_answer U); reflexivity. }
  rewrite T. apply app_nil_r.
Qed.

(** X24. When dpkg is called. A run calls dpkg only as root, after the
    installation was accepted at the prompt, and with the path of a
    downloaded file whose base name is not CHECKSUMS. *)
Theorem dpkg_only_as_root_after_yes :
  forall (E : env) (U : user) (downloaded : list pystr) (a : pystr),
    In a (dpkg_calls (trace (post_download E U downloaded))) ->
    geteuid E = 0%Z
    /\ install_answer U = Yes
    /\ exists p, In p downloaded /\ a = quote E p
                 /\ basename p <> CHECKSUMS_FILE.
Proof.
  intros E U downloaded a H.
  pose proof (post_download_calls E U downloaded) as [r P].
  assert (I : In a (map (quote E)
                      (filter not_checksums (sort_by_len downloaded)))).
  { rewrite P. apply in_or_app. left. exact H. }
  rewrite post_download_calls_when in H.
  destruct (nothing_downloaded downloaded); [destruct H|].
  destruct (geteuid E =? 0)%Z eqn:R; [|destruct H]. apply Z.eqb_eq in R.
  destruct (install_answer U); try destruct H.
  split; [exact R|]. split; [reflexivity|].
  apply in_map_iff in I. destruct I as (p & <- & Ip).
  apply filter_In in Ip. destruct Ip as [Ip N]. exists p.
  split; [apply (Permutation_in _ (Permutation_sym (sort_by_len_perm _)) Ip)|].
  split; [reflexivity|]. unfold not_checksums in N.
  apply negb_true_iff, str_eqb_neq in N. exact N.
Qed.

Lemma dpkg_only_as_root_after_yes_witness :
  geteuid kind_world = 0%Z
  /\ install_answer willing_user = Yes
  /\ exists p, In p (paths_in download_dir downloaded_names)
               /\ download_dir ++ sep ++ headers_all = quote kind_world p
               /\ basename p <> CHECKSUMS_FILE.
Proof.
  apply (dpkg_only_as_root_after_yes kind_world willing_user
           (paths_in download_dir downloaded_names)
           (download_dir ++ sep ++ headers_all)).
  vm_compute. left. reflexivity.
Defined.

Lemma fetch_all_returned (E : env) (version_dir dir arch flavor : pystr)
    (index : dict) (l : list pystr) :
  outcome (fetch_all E version_dir dir arch flavor index) = Ok l ->
  l = paths_in dir (filter (got E version_dir dir)
                      (CHECKSUMS_FILE :: selected_files index arch flavor)).
Proof.
  unfold fetch_all. rewrite outcome_bind.
  destruct (fetch_checksums_outcome E version_dir dir) as [O _]. rewrite O.
  destruct (sizable E (dir ++ sep ++ CHECKSUMS_FILE)); [|discriminate].
  match goal with
  | |- outcome (fetch_loop E version_dir dir arch flavor index ?d) = _ -> _ =>
      destruct (fetch_loop_outcome E version_dir dir arch flavor index d)
        as [O' _]
  end.
  rewrite O'.
  match goal with |- (if ?b then _ else _) = _ -> _ => destruct b end;
    [|discriminate].
  intros H. inversion H. cbn [filter].
  destruct (got E version_dir dir CHECKSUMS_FILE); reflexivity.
Qed.

(** X25. From the manifest to dpkg. In a round whose manifest was
    parsed into an empty index and whose downloads returned, every path
    handed to dpkg is that of a file which a line of the manifest that
    passes both tests records, which the test of the download loop
    selects for the chosen architecture and flavor, and whose download
    succeeded. *)
Theorem only_selected_manifest_files_are_installed :
  forall (E : env) (U : user) (text : pystr) (index : dict)
         (archs : list pystr) (version_dir dir arch flavor : pystr)
         (l : list pystr) (a : pystr),
    parse_manifest [] text = Ok (index, archs) ->
    outcome (fetch_all E version_dir dir arch flavor index) = Ok l ->
    In a (dpkg_calls (trace (post_download E U l))) ->
    exists line h f,
      In line (readlines text) /\ yields line h f
      /\ selected arch flavor f = true
      /\ got E version_dir dir f = true
      /\ a = quote E (dir ++ sep ++ f).
Proof.
  intros E U text index archs version_dir dir arch flavor l a P F H.
  apply fetch_all_returned in F.
  pose proof (post_download_calls E U l) as [r C].
  assert (I : In a (map (quote E) (filter not_checksums (sort_by_len l)))).
  { rewrite C. apply in_or_app. left. exact H. }
  apply in_map_iff in I. destruct I as (p & <- & Ip).
  apply filter_In in Ip. destruct Ip as [Ip N].
  apply (Permutation_in _ (Permutation_sym (sort_by_len_perm _))) in Ip.
  rewrite F in Ip. unfold paths_in in Ip. apply in_map_iff in Ip.
  destruct Ip as (n & <- & In_n). apply filter_In in In_n.
  destruct In_n as [In_n G]. destruct In_n as [<- | In_n].
  { exfalso. unfold not_checksums in N. rewrite basename_join in N.
    vm_compute in N. discriminate N. }
  unfold selected_files in In_n. apply filter_In in In_n.
  destruct In_n as [In_n S]. apply in_map_iff in In_n.
  destruct In_n as ([h f] & <- & Ihf). cbn [snd] in *.
  unfold parse_manifest in P.
  destruct (parse_lines_entries _ _ _ _ _ P h f Ihf) as [[] | (line & Il & Y)].
  exists line, h, f. auto 10.
Qed.

Lemma only_selected_manifest_files_are_installed_witness :
  exists line h f,
    In line (readlines release_manifest) /\ yields line h f
    /\ selected (lit "amd64") (lit "generic") f = true
    /\ got kind_world (lit "v4.9.5") download_dir f = true
    /\ download_dir ++ sep ++ image_generic
       = quote kind_world (download_dir ++ sep ++ f).
Proof.
  apply (only_selected_manifest_files_are_installed kind_world willing_user
           release_manifest release_index [lit "amd64"] (lit "v4.9.5")
           download_dir (lit "amd64") (lit "generic")
           (paths_in download_dir downloaded_names)).
  - vm_compute. reflexivity.
  - vm_compute. reflexivity.
  - vm_compute. right; left. reflexivity.
Defined.
